(** * InstagramVideoController (src/content/instagram.ts): model and properties

    The content script keeps per-video state in WeakMaps keyed by the video
    element, builds an overlay (control bar, rotation button and menu) inside
    the video's container and rewrites inline styles to rotate and flip the
    video.  The model below follows the class method by method.

    Conventions of the embedding
    - element identity is a [NodeId]; the WeakMap/WeakSet fields are finite
      maps and sets keyed by it;
    - the document is a store of elements with parent pointers and ordered
      child lists, as the DOM keeps them;
    - JavaScript numbers that are integral by construction (degrees,
      timestamps, pixel dimensions read from the DOM) are [Z]; fractional
      numbers are exact rationals [Q], with the non-finite values of [number]
      added where the source tests for them ([JsNum]);
    - layout results ([clientWidth], [clientHeight], bounding rectangles,
      computed position) are inputs supplied by the browser: they are fields
      of the element or parameters of the handler that reads them.  A style
      write does not change them; the browser does, between two runs of the
      script ([relayout]). *)

From Stdlib Require Import ZArith QArith Qround Qabs Qminmax Ascii String DecimalString Lia Lqa Sorted.
From stdpp Require Import gmap strings list fin_maps.

Local Open Scope Z_scope.

(* ===================================================================== *)
(** ** JavaScript numbers                                                 *)
(* ===================================================================== *)

(** A [number]: a finite value or one of the three non-finite ones. *)
Inductive JsNum : Type :=
| Fin (q : Q)
| NaN
| PosInf
| NegInf.

(** The operators and library functions of JavaScript that the script uses
    on numbers and strings. *)
Module Js.

(** [Number.isFinite]. *)
Definition isFinite (x : JsNum) : bool :=
  match x with Fin _ => true | _ => false end.

(** Truthiness of a number, as used by [x || 0]: zero and NaN are falsy. *)
Definition truthy (x : JsNum) : bool :=
  match x with
  | Fin q => negb (Qeq_bool q 0)
  | NaN => false
  | PosInf | NegInf => true
  end.

(** [x || d] on numbers. *)
Definition orElse (x d : JsNum) : JsNum := if truthy x then x else d.

(** [x > 0]. *)
Definition gtZero (x : JsNum) : bool :=
  match x with
  | Fin q => if Qlt_le_dec 0 q then true else false
  | PosInf => true
  | NaN | NegInf => false
  end.

(** [a / b] on finite operands: a zero divisor gives an infinity or NaN. *)
Definition div (a b : Q) : JsNum :=
  if Qeq_bool b 0 then
    if Qeq_bool a 0 then NaN
    else if Qlt_le_dec 0 a then PosInf else NegInf
  else Fin (a / b).

(** [Math.max] of two numbers. *)
Definition max (x y : JsNum) : JsNum :=
  match x, y with
  | NaN, _ | _, NaN => NaN
  | PosInf, _ | _, PosInf => PosInf
  | NegInf, z | z, NegInf => z
  | Fin a, Fin b => if Qlt_le_dec a b then Fin b else Fin a
  end.

(** Rounding toward zero, the quotient the [%] operator is built on. *)
Definition trunc (q : Q) : Z := Z.quot (Qnum q) (Zpos (Qden q)).

(** [a % b] on finite operands with [b] non-zero: the result takes the sign
    of the dividend. *)
Definition rem (a b : Q) : Q := a - b * inject_Z (trunc (a / b)).

(** [a % b] on integers. *)
Definition remZ (a b : Z) : Z := Z.rem a b.

(** [Math.floor]. *)
Definition floor (q : Q) : Z := Qfloor q.

(** [Number.prototype.toString] of an integral value: the decimal digits,
    with a leading minus sign for a negative one. *)
Definition toString (z : Z) : string := NilZero.string_of_int (Z.to_int z).

(** [String.prototype.padStart (n, c)] for a one-character filler. *)
Fixpoint fill (k : nat) (c : Ascii.ascii) (s : string) : string :=
  match k with
  | O => s
  | S k' => String c (fill k' c s)
  end.

Definition padStart (n : nat) (c : Ascii.ascii) (s : string) : string :=
  fill (n - String.length s) c s.

End Js.

(* ===================================================================== *)
(** ** Time readout of the control bar                                    *)
(* ===================================================================== *)

(** [formatTime] (closure of addCustomControls). *)
Definition formatTime (seconds : JsNum) : string :=
  match seconds with
  | Fin q =>
      let m := Js.floor (q / 60) in
      let s := Js.floor (Js.rem q 60) in
      String.append (Js.toString m)
        (String.append ":" (Js.padStart 2 "0"%char (Js.toString s)))
  | _ => "0:00"%string
  end.

(** The [percent] local of [updateTime]: zero unless the duration is positive
    and finite. *)
Definition progressPercent (current : Q) (duration : JsNum) : Q :=
  match duration with
  | Fin d => if Js.gtZero duration && Js.isFinite duration
             then (current / d) * 100 else 0
  | _ => 0
  end%Q.

(* ===================================================================== *)
(** ** The document                                                       *)
(* ===================================================================== *)

Definition NodeId : Type := nat.

(** A value written to an inline style property.  Template strings that
    interpolate numbers are kept structured, so that the numbers can be
    compared: [CssPx n] is [`${n}px`], [CssPercent n] is [`${n}%`],
    [CssRotate d f] is [`rotate(${d}deg) ${f}`] and [CssRotateScale d s f] is
    [`rotate(${d}deg) scale(${s}) ${f}`], where the flip part [f] is
    ["scaleX(-1)"] when set and empty otherwise.  [CssImportant] is a value
    set through [setProperty (_, _, "important")].  The empty string is the
    absence of the property from the declaration. *)
Inductive CssValue : Type :=
| CssText (s : string)
| CssPx (n : Q)
| CssPercent (n : Q)
| CssRotate (degrees : Z) (flip : bool)
| CssRotateScale (degrees : Z) (scale : JsNum) (flip : bool)
| CssImportant (v : CssValue).

(** The media part of an [HTMLVideoElement]. *)
Record Media : Type := mkMedia {
  controls : bool;
  volume : Q;
  muted : bool;
  paused : bool;
  currentTime : Q;
  duration : JsNum;
  videoWidth : Z;
  videoHeight : Z
}.

Record Element : Type := mkElement {
  tagName : string;
  parentElement : option NodeId;
  children : list NodeId;
  attributes : gmap string string;
  classList : gset string;
  style : gmap string CssValue;
  content : string;                 (* textContent / innerHTML *)
  clientWidth : Z;
  clientHeight : Z;
  computedPosition : string;        (* getComputedStyle(e).position *)
  media : option Media              (* present on video elements *)
}.

(** Selectors used by the script. *)
Inductive Selector : Type :=
| SelTag (tag : string)                           (* "video" *)
| SelTagAttr (tag attr value : string)            (* 'div[role="progressbar"]' *)
| SelClass (cls : string).                        (* ".insta-control-rotate-btn" *)

Definition matchesSel (sel : Selector) (e : Element) : bool :=
  match sel with
  | SelTag t => bool_decide (tagName e = t)
  | SelTagAttr t a v =>
      bool_decide (tagName e = t) && bool_decide (attributes e !! a = Some v)
  | SelClass c => bool_decide (c ∈ classList e)
  end.

(** Closure environment of one [addRotationButton] call. *)
Record RotationWidget : Type := mkRotationWidget {
  rw_container : NodeId;
  rw_btn : NodeId;
  rw_menu : NodeId
}.

(** Closure environment of one [addCustomControls] call. *)
Record BarWidget : Type := mkBarWidget {
  bw_bar : NodeId;
  bw_playBtn : NodeId;
  bw_timeDisplay : NodeId;
  bw_progressFill : NodeId;
  bw_volumeBtn : NodeId;
  bw_volumeFill : NodeId
}.

(** The controller instance together with the page it runs in. *)
Record World : Type := mkWorld {
  (* fields of InstagramVideoController *)
  processedVideos : gset NodeId;
  observer : bool;                         (* a connected MutationObserver *)
  rotationStates : gmap NodeId Z;
  flipStates : gmap NodeId bool;
  customControls : gmap NodeId NodeId;
  isEnabled : bool;
  intendedVolume : gmap NodeId Q;
  intendedMuted : gmap NodeId bool;
  (* closures created by the latest enhancement of a video *)
  rotationWidgets : gmap NodeId RotationWidget;
  barWidgets : gmap NodeId BarWidget;
  (* the page *)
  dom : gmap NodeId Element;
  nextId : NodeId;                         (* allocation of new elements *)
  documentElement : NodeId;
  body : NodeId;
  pathname : string;                       (* window.location.pathname *)
  fullscreenElement : option NodeId;
  innerWidth : Z;
  innerHeight : Z
}.

(** Field updates (records are immutable values here; an assignment to a
    field is the record rebuilt with that field changed). *)

Definition upd_controls (f : bool -> bool) (m : Media) : Media :=
  mkMedia (f (controls m)) (volume m) (muted m) (paused m) (currentTime m)
    (duration m) (videoWidth m) (videoHeight m).

Definition upd_volume (f : Q -> Q) (m : Media) : Media :=
  mkMedia (controls m) (f (volume m)) (muted m) (paused m) (currentTime m)
    (duration m) (videoWidth m) (videoHeight m).

Definition upd_muted (f : bool -> bool) (m : Media) : Media :=
  mkMedia (controls m) (volume m) (f (muted m)) (paused m) (currentTime m)
    (duration m) (videoWidth m) (videoHeight m).

Definition upd_paused (f : bool -> bool) (m : Media) : Media :=
  mkMedia (controls m) (volume m) (muted m) (f (paused m)) (currentTime m)
    (duration m) (videoWidth m) (videoHeight m).

Definition upd_currentTime (f : Q -> Q) (m : Media) : Media :=
  mkMedia (controls m) (volume m) (muted m) (paused m) (f (currentTime m))
    (duration m) (videoWidth m) (videoHeight m).

Definition upd_parentElement (f : (option NodeId) -> (option NodeId))
    (e : Element) : Element :=
  mkElement (tagName e) (f (parentElement e)) (children e) (attributes e)
    (classList e) (style e) (content e) (clientWidth e) (clientHeight e)
    (computedPosition e) (media e).

Definition upd_children (f : (list NodeId) -> (list NodeId))
    (e : Element) : Element :=
  mkElement (tagName e) (parentElement e) (f (children e)) (attributes e)
    (classList e) (style e) (content e) (clientWidth e) (clientHeight e)
    (computedPosition e) (media e).

Definition upd_attributes (f : (gmap string string) -> (gmap string string))
    (e : Element) : Element :=
  mkElement (tagName e) (parentElement e) (children e) (f (attributes e))
    (classList e) (style e) (content e) (clientWidth e) (clientHeight e)
    (computedPosition e) (media e).

Definition upd_classList (f : (gset string) -> (gset string))
    (e : Element) : Element :=
  mkElement (tagName e) (parentElement e) (children e) (attributes e)
    (f (classList e)) (style e) (content e) (clientWidth e) (clientHeight e)
    (computedPosition e) (media e).

Definition upd_style (f : (gmap string CssValue) -> (gmap string CssValue))
    (e : Element) : Element :=
  mkElement (tagName e) (parentElement e) (children e) (attributes e)
    (classList e) (f (style e)) (content e) (clientWidth e) (clientHeight e)
    (computedPosition e) (media e).

Definition upd_content (f : string -> string) (e : Element) : Element :=
  mkElement (tagName e) (parentElement e) (children e) (attributes e)
    (classList e) (style e) (f (content e)) (clientWidth e) (clientHeight e)
    (computedPosition e) (media e).

Definition upd_media (f : (option Media) -> (option Media))
    (e : Element) : Element :=
  mkElement (tagName e) (parentElement e) (children e) (attributes e)
    (classList e) (style e) (content e) (clientWidth e) (clientHeight e)
    (computedPosition e) (f (media e)).

Definition upd_processedVideos (f : (gset NodeId) -> (gset NodeId))
    (w : World) : World :=
  mkWorld (f (processedVideos w)) (observer w) (rotationStates w)
    (flipStates w) (customControls w) (isEnabled w) (intendedVolume w)
    (intendedMuted w) (rotationWidgets w) (barWidgets w) (dom w) (nextId w)
    (documentElement w) (body w) (pathname w) (fullscreenElement w)
    (innerWidth w) (innerHeight w).

Definition upd_observer (f : bool -> bool) (w : World) : World :=
  mkWorld (processedVideos w) (f (observer w)) (rotationStates w)
    (flipStates w) (customControls w) (isEnabled w) (intendedVolume w)
    (intendedMuted w) (rotationWidgets w) (barWidgets w) (dom w) (nextId w)
    (documentElement w) (body w) (pathname w) (fullscreenElement w)
    (innerWidth w) (innerHeight w).

Definition upd_rotationStates (f : (gmap NodeId Z) -> (gmap NodeId Z))
    (w : World) : World :=
  mkWorld (processedVideos w) (observer w) (f (rotationStates w))
    (flipStates w) (customControls w) (isEnabled w) (intendedVolume w)
    (intendedMuted w) (rotationWidgets w) (barWidgets w) (dom w) (nextId w)
    (documentElement w) (body w) (pathname w) (fullscreenElement w)
    (innerWidth w) (innerHeight w).

Definition upd_flipStates (f : (gmap NodeId bool) -> (gmap NodeId bool))
    (w : World) : World :=
  mkWorld (processedVideos w) (observer w) (rotationStates w)
    (f (flipStates w)) (customControls w) (isEnabled w) (intendedVolume w)
    (intendedMuted w) (rotationWidgets w) (barWidgets w) (dom w) (nextId w)
    (documentElement w) (body w) (pathname w) (fullscreenElement w)
    (innerWidth w) (innerHeight w).

Definition upd_customControls (f : (gmap NodeId NodeId) -> (gmap NodeId NodeId))
    (w : World) : World :=
  mkWorld (processedVideos w) (observer w) (rotationStates w) (flipStates w)
    (f (customControls w)) (isEnabled w) (intendedVolume w) (intendedMuted w)
    (rotationWidgets w) (barWidgets w) (dom w) (nextId w) (documentElement w)
    (body w) (pathname w) (fullscreenElement w) (innerWidth w)
    (innerHeight w).

Definition upd_isEnabled (f : bool -> bool) (w : World) : World :=
  mkWorld (processedVideos w) (observer w) (rotationStates w) (flipStates w)
    (customControls w) (f (isEnabled w)) (intendedVolume w) (intendedMuted w)
    (rotationWidgets w) (barWidgets w) (dom w) (nextId w) (documentElement w)
    (body w) (pathname w) (fullscreenElement w) (innerWidth w)
    (innerHeight w).

Definition upd_intendedVolume (f : (gmap NodeId Q) -> (gmap NodeId Q))
    (w : World) : World :=
  mkWorld (processedVideos w) (observer w) (rotationStates w) (flipStates w)
    (customControls w) (isEnabled w) (f (intendedVolume w)) (intendedMuted w)
    (rotationWidgets w) (barWidgets w) (dom w) (nextId w) (documentElement w)
    (body w) (pathname w) (fullscreenElement w) (innerWidth w)
    (innerHeight w).

Definition upd_intendedMuted (f : (gmap NodeId bool) -> (gmap NodeId bool))
    (w : World) : World :=
  mkWorld (processedVideos w) (observer w) (rotationStates w) (flipStates w)
    (customControls w) (isEnabled w) (intendedVolume w) (f (intendedMuted w))
    (rotationWidgets w) (barWidgets w) (dom w) (nextId w) (documentElement w)
    (body w) (pathname w) (fullscreenElement w) (innerWidth w)
    (innerHeight w).

Definition upd_rotationWidgets (f : (gmap NodeId RotationWidget) -> (gmap NodeId RotationWidget))
    (w : World) : World :=
  mkWorld (processedVideos w) (observer w) (rotationStates w) (flipStates w)
    (customControls w) (isEnabled w) (intendedVolume w) (intendedMuted w)
    (f (rotationWidgets w)) (barWidgets w) (dom w) (nextId w)
    (documentElement w) (body w) (pathname w) (fullscreenElement w)
    (innerWidth w) (innerHeight w).

Definition upd_barWidgets (f : (gmap NodeId BarWidget) -> (gmap NodeId BarWidget))
    (w : World) : World :=
  mkWorld (processedVideos w) (observer w) (rotationStates w) (flipStates w)
    (customControls w) (isEnabled w) (intendedVolume w) (intendedMuted w)
    (rotationWidgets w) (f (barWidgets w)) (dom w) (nextId w)
    (documentElement w) (body w) (pathname w) (fullscreenElement w)
    (innerWidth w) (innerHeight w).

Definition upd_dom (f : (gmap NodeId Element) -> (gmap NodeId Element))
    (w : World) : World :=
  mkWorld (processedVideos w) (observer w) (rotationStates w) (flipStates w)
    (customControls w) (isEnabled w) (intendedVolume w) (intendedMuted w)
    (rotationWidgets w) (barWidgets w) (f (dom w)) (nextId w)
    (documentElement w) (body w) (pathname w) (fullscreenElement w)
    (innerWidth w) (innerHeight w).

Definition upd_nextId (f : NodeId -> NodeId) (w : World) : World :=
  mkWorld (processedVideos w) (observer w) (rotationStates w) (flipStates w)
    (customControls w) (isEnabled w) (intendedVolume w) (intendedMuted w)
    (rotationWidgets w) (barWidgets w) (dom w) (f (nextId w))
    (documentElement w) (body w) (pathname w) (fullscreenElement w)
    (innerWidth w) (innerHeight w).

Definition upd_fullscreenElement (f : (option NodeId) -> (option NodeId))
    (w : World) : World :=
  mkWorld (processedVideos w) (observer w) (rotationStates w) (flipStates w)
    (customControls w) (isEnabled w) (intendedVolume w) (intendedMuted w)
    (rotationWidgets w) (barWidgets w) (dom w) (nextId w) (documentElement w)
    (body w) (pathname w) (f (fullscreenElement w)) (innerWidth w)
    (innerHeight w).

(* ===================================================================== *)
(** ** DOM primitives                                                     *)
(* ===================================================================== *)

Definition blankElement (tag : string) : Element :=
  mkElement tag None [] ∅ ∅ ∅ EmptyString 0 0 "static" None.

(** [document.createElement]: a new, detached element. *)
Definition createElement (tag : string) (w : World) : NodeId * World :=
  let n := nextId w in
  (n, upd_nextId S (upd_dom (fun d => <[n := blankElement tag]> d) w)).

Definition updElem (n : NodeId) (f : Element -> Element) (w : World) : World :=
  upd_dom (alter f n) w.

Definition updMedia (v : NodeId) (f : Media -> Media) (w : World) : World :=
  updElem v (upd_media (fmap f)) w.

Definition parentOf (w : World) (n : NodeId) : option NodeId :=
  dom w !! n ≫= parentElement.

Definition mediaOf (w : World) (v : NodeId) : option Media :=
  dom w !! v ≫= media.

Definition styleOf (w : World) (n : NodeId) : gmap string CssValue :=
  from_option style ∅ (dom w !! n).

Definition classesOf (w : World) (n : NodeId) : gset string :=
  from_option classList ∅ (dom w !! n).

(** [e.style.prop = value] for a non-empty value, and [e.style.prop = ""] or
    [e.style.removeProperty (prop)]. *)
Definition setStyle (n : NodeId) (prop : string) (val : CssValue) : World -> World :=
  updElem n (upd_style (fun s => <[prop := val]> s)).

Definition clearStyle (n : NodeId) (prop : string) : World -> World :=
  updElem n (upd_style (delete prop)).

Definition setClassName (n : NodeId) (cls : string) : World -> World :=
  updElem n (upd_classList (fun _ => {[cls]})).

Definition addClass (n : NodeId) (cls : string) : World -> World :=
  updElem n (upd_classList (fun c => c ∪ {[cls]})).

Definition removeClass (n : NodeId) (cls : string) : World -> World :=
  updElem n (upd_classList (fun c => c ∖ {[cls]})).

Definition setAttribute (n : NodeId) (a v : string) : World -> World :=
  updElem n (upd_attributes (fun m => <[a := v]> m)).

Definition setContent (n : NodeId) (s : string) : World -> World :=
  updElem n (upd_content (fun _ => s)).

(** [p.removeChild (c)]. *)
Definition removeChild (p c : NodeId) (w : World) : World :=
  updElem c (upd_parentElement (fun _ => None))
    (updElem p (upd_children (List.filter (fun x => negb (Nat.eqb x c)))) w).

(** [p.appendChild (c)]: a child that already has a parent is moved. *)
Definition appendChild (p c : NodeId) (w : World) : World :=
  let w1 := match parentOf w c with
            | Some q => removeChild q c w
            | None => w
            end in
  updElem c (upd_parentElement (fun _ => Some p))
    (updElem p (upd_children (fun l => l ++ [c])) w1).

(** The descendants of a node in document order.  The recursion is bounded
    by the number of elements of the store, which no path of a tree
    exceeds. *)
Fixpoint descendants (fuel : nat) (d : gmap NodeId Element) (n : NodeId)
  : list NodeId :=
  match fuel with
  | O => []
  | S fuel' =>
      match d !! n with
      | None => []
      | Some e => flat_map (fun c => c :: descendants fuel' d c) (children e)
      end
  end.

Definition elemMatches (sel : Selector) (w : World) (n : NodeId) : bool :=
  match dom w !! n with
  | Some e => matchesSel sel e
  | None => false
  end.

(** [n.querySelectorAll (sel)] and [n.querySelector (sel)]. *)
Definition querySelectorAll (sel : Selector) (n : NodeId) (w : World)
  : list NodeId :=
  List.filter (elemMatches sel w) (descendants (size (dom w)) (dom w) n).

Definition querySelector (sel : Selector) (n : NodeId) (w : World)
  : option NodeId :=
  head (querySelectorAll sel n w).

(** [document.querySelectorAll (sel)]: the root element is a candidate too. *)
Definition documentQuerySelectorAll (sel : Selector) (w : World)
  : list NodeId :=
  List.filter (elemMatches sel w)
    (documentElement w :: descendants (size (dom w)) (dom w) (documentElement w)).

(** Tag names of HTML elements are upper case; a type selector matches
    them whatever its case. *)
Definition selVideo : Selector := SelTag "VIDEO".
Definition selProgressbar : Selector := SelTagAttr "DIV" "role" "progressbar".
Definition selCloseButton : Selector := SelTagAttr "BUTTON" "aria-label" "Close".
Definition selStoryButton : Selector := SelTagAttr "BUTTON" "aria-label" "Story".
Definition selRotateBtn : Selector := SelClass "insta-control-rotate-btn".
Definition selRotateMenu : Selector := SelClass "insta-control-rotate-menu".

(* ===================================================================== *)
(** ** Container Resolver and Story Classifier                            *)
(* ===================================================================== *)

(** The loop of [findVideoContainer]; [fuel] is [maxDepth - depth]. *)
Fixpoint containerWalk (fuel : nat) (w : World) (parent : option NodeId)
  : option NodeId :=
  match fuel, parent with
  | S fuel', Some p =>
      match dom w !! p with
      | Some e =>
          if (200 <? clientHeight e) && (200 <? clientWidth e) then Some p
          else containerWalk fuel' w (parentElement e)
      | None => None
      end
  | _, _ => None
  end.

Definition findVideoContainer (w : World) (video : NodeId) : option NodeId :=
  match containerWalk 10 w (parentOf w video) with
  | Some c => Some c
  | None => parentOf w video            (* fallback to immediate parent *)
  end.

Definition hasMatch (sel : Selector) (n : NodeId) (w : World) : bool :=
  match querySelector sel n w with Some _ => true | None => false end.

(** The loop of [isStoryVideo]; [fuel] is [12 - depth]. *)
Fixpoint storyWalk (fuel : nat) (w : World) (parent : option NodeId) : bool :=
  match fuel, parent with
  | S fuel', Some p =>
      match dom w !! p with
      | Some e =>
          if hasMatch selProgressbar p w then true
          else if (hasMatch selCloseButton p w || hasMatch selStoryButton p w)
                  && (bool_decide (attributes e !! "role" = Some "dialog")
                      || bool_decide (tagName e = "SECTION"))
          then true
          else storyWalk fuel' w (parentElement e)
      | None => false
      end
  | _, _ => false
  end.

Definition isStoryVideo (w : World) (video : NodeId) : bool :=
  if String.prefix "/stories/" (pathname w) then true
  else storyWalk 12 w (parentOf w video).

(* ===================================================================== *)
(** ** Transform Engine                                                   *)
(* ===================================================================== *)

(** [this.flipStates.get (video) || false] and
    [this.rotationStates.get (video) || 0]. *)
Definition flipOf (w : World) (video : NodeId) : bool :=
  default false (flipStates w !! video).

Definition rotationOf (w : World) (video : NodeId) : Z :=
  default 0 (rotationStates w !! video).

(** [a || b] on integers. *)
Definition orZ (a b : Z) : Z := if a =? 0 then b else a.

(** The style properties of the video that the reset branch empties. *)
Definition videoResetProps : list string :=
  ["transform"; "width"; "height"; "marginTop"; "marginLeft"]%string.

Definition applyRotation (video : NodeId) (degrees : Z) (w : World) : World :=
  match findVideoContainer w video with
  | None => w
  | Some container =>
      let isFlipped := flipOf w video in
      if (degrees =? 0) && negb isFlipped then
        (* Reset *)
        let w := clearStyle video "transform" w in
        let w := clearStyle video "width" w in
        let w := clearStyle video "height" w in
        let w := clearStyle video "marginTop" w in
        let w := clearStyle video "marginLeft" w in
        clearStyle container "height" w
      else
        let isFullscreen := bool_decide (is_Some (fullscreenElement w)) in
        let vclientWidth := from_option clientWidth 0 (dom w !! video) in
        let vclientHeight := from_option clientHeight 0 (dom w !! video) in
        let videoWidth :=
          orZ (from_option videoWidth 0 (mediaOf w video)) vclientWidth in
        let videoHeight :=
          orZ (from_option videoHeight 0 (mediaOf w video)) vclientHeight in
        let cWidth := from_option clientWidth 0 (dom w !! container) in
        let cHeight := from_option clientHeight 0 (dom w !! container) in
        let targetWidth := if isFullscreen then innerWidth w else cWidth in
        let targetHeight :=
          if isFullscreen then innerHeight w else orZ cHeight targetWidth in
        let w := setStyle video "transition"
                   (CssText "transform 0.3s ease, margin 0.3s ease") w in
        let w := setStyle video "transformOrigin" (CssText "center center") w in
        if (degrees =? 180) || (degrees =? 0) then
          let w := setStyle video "transform" (CssRotate degrees isFlipped) w in
          if negb isFullscreen then clearStyle container "height" w else w
        else
          (* 90 or 270 *)
          let '(scale, w) :=
            if isFullscreen then
              let scaleCoverX := Js.div (inject_Z targetWidth) (inject_Z videoHeight) in
              let scaleCoverY := Js.div (inject_Z targetHeight) (inject_Z videoWidth) in
              (Js.max scaleCoverX scaleCoverY, w)
            else
              let visualHeight := (inject_Z videoWidth * (55 # 100))%Q in
              (Fin (55 # 100), setStyle container "height" (CssPx visualHeight) w)
          in
          setStyle video "transform" (CssRotateScale degrees scale isFlipped) w
  end.

(* ===================================================================== *)
(** ** Rotation button and menu                                           *)
(* ===================================================================== *)

(** An entry of the [menuItems] array: [degrees] or [isFlip] is present. *)
Record MenuItem : Type := mkMenuItem {
  label : string;
  item_degrees : option Z;
  item_isFlip : option bool
}.

Definition itemRotateLeft : MenuItem := mkMenuItem "↶ Rotate left 90°" (Some (-90)) None.
Definition itemRotateRight : MenuItem := mkMenuItem "↷ Rotate right 90°" (Some 90) None.
Definition itemFlip : MenuItem := mkMenuItem "↔ Flip Horizontally" None (Some true).

Definition menuItems : list MenuItem :=
  [itemRotateLeft; itemRotateRight; itemFlip].

(** Closing the menu: drop the [active] class and, when the menu hangs under
    [document.body], move it back under the container and remove its inline
    positioning.  The source repeats these lines in [handleItemAction],
    [toggleMenu] and the document click listener. *)
Definition closeMenu (rw : RotationWidget) (w : World) : World :=
  let w := removeClass (rw_menu rw) "active" w in
  if bool_decide (parentOf w (rw_menu rw) = Some (body w)) then
    let w := appendChild (rw_container rw) (rw_menu rw) w in
    let w := clearStyle (rw_menu rw) "position" w in
    let w := clearStyle (rw_menu rw) "top" w in
    let w := clearStyle (rw_menu rw) "right" w in
    clearStyle (rw_menu rw) "left" w
  else w.

(** [handleItemAction] of one menu item. *)
Definition handleItemAction (video : NodeId) (rw : RotationWidget)
    (item : MenuItem) (w : World) : World :=
  let w :=
    match item_isFlip item with
    | Some _ =>
        let currentFlip := flipOf w video in
        upd_flipStates (fun m => <[video := negb currentFlip]> m) w
    | None =>
        let currentRotation := rotationOf w video in
        let newRotation :=
          Js.remZ (currentRotation + default 0 (item_degrees item)) 360 in
        (* Normalize to 0-359 range *)
        let newRotation :=
          if newRotation <? 0 then newRotation + 360 else newRotation in
        upd_rotationStates (fun m => <[video := newRotation]> m) w
    end in
  let w := applyRotation video (rotationOf w video) w in
  closeMenu rw w.

(** [toggleMenu]; [btnBottom] and [btnRight] are read from the button's
    bounding rectangle. *)
Definition toggleMenu (rw : RotationWidget) (btnBottom btnRight : Q)
    (w : World) : World :=
  let isActive := bool_decide ("active"%string ∈ classesOf w (rw_menu rw)) in
  if isActive then closeMenu rw w
  else
    let w := addClass (rw_menu rw) "active" w in
    let w := appendChild (body w) (rw_menu rw) w in
    let topPosition := (btnBottom + 5)%Q in
    let rightPosition := (inject_Z (innerWidth w) - btnRight)%Q in
    let w := setStyle (rw_menu rw) "position" (CssImportant (CssText "fixed")) w in
    let w := setStyle (rw_menu rw) "top" (CssImportant (CssPx topPosition)) w in
    let w := setStyle (rw_menu rw) "right" (CssImportant (CssPx rightPosition)) w in
    setStyle (rw_menu rw) "left" (CssImportant (CssText "auto")) w.

(** The document click listener installed by [addRotationButton];
    [inside] tells whether the target lies in the button or the menu. *)
Definition outsideClick (rw : RotationWidget) (inside : bool) (w : World)
  : World :=
  if inside then w
  else if bool_decide ("active"%string ∈ classesOf w (rw_menu rw))
       then closeMenu rw w else w.

(** One menu item element of [addRotationButton]. *)
Definition addMenuItem (menu : NodeId) (w : World) (item : MenuItem) : World :=
  let '(menuItem, w) := createElement "BUTTON" w in
  let w := setClassName menuItem "insta-control-rotate-menu-item" w in
  let w := setContent menuItem (label item) w in
  let w := setAttribute menuItem "aria-hidden" "false" w in
  appendChild menu menuItem w.

Definition addRotationButton (video : NodeId) (w : World) : World :=
  match findVideoContainer w video with
  | None => w
  | Some container =>
      let w :=
        if bool_decide (from_option computedPosition "static"%string
                          (dom w !! container) = "static"%string)
        then setStyle container "position" (CssText "relative") w else w in
      let '(rotateBtn, w) := createElement "BUTTON" w in
      let w := setClassName rotateBtn "insta-control-rotate-btn" w in
      let w := setContent rotateBtn "↻" w in
      let w := setAttribute rotateBtn "title" "Rotation options" w in
      let w := setAttribute rotateBtn "aria-label" "Rotation options" w in
      let w := setAttribute rotateBtn "aria-hidden" "false" w in
      let '(rotateMenu, w) := createElement "DIV" w in
      let w := setClassName rotateMenu "insta-control-rotate-menu" w in
      let w := setAttribute rotateMenu "aria-hidden" "false" w in
      let w := foldl (addMenuItem rotateMenu) w menuItems in
      let w := upd_rotationWidgets
                 (fun m => <[video := mkRotationWidget container rotateBtn rotateMenu]> m)
                 w in
      let w := appendChild container rotateBtn w in
      appendChild container rotateMenu w
  end.

(* ===================================================================== *)
(** ** Control bar                                                        *)
(* ===================================================================== *)

(** The four SVG icons that the bar writes to [innerHTML], by name. *)
Definition svgPlay : string := "svg:play".
Definition svgPause : string := "svg:pause".
Definition svgVolume : string := "svg:volume".
Definition svgMuted : string := "svg:muted".
Definition svgFullscreen : string := "svg:fullscreen".

(** [updateVolumeUI]: the fill width and the icon follow the live volume. *)
Definition updateVolumeUI (video : NodeId) (bw : BarWidget) (w : World) : World :=
  match mediaOf w video with
  | None => w
  | Some m =>
      let vol := volume m in
      let isMuted := muted m || Qeq_bool vol 0 in
      let w := setStyle (bw_volumeFill bw) "width"
                 (CssPercent (if isMuted then 0 else vol * 100)%Q) w in
      setContent (bw_volumeBtn bw) (if isMuted then svgMuted else svgVolume) w
  end.

(** [updateTime]: readout, progress fill and play icon. *)
Definition updateTime (video : NodeId) (bw : BarWidget) (w : World) : World :=
  match mediaOf w video with
  | None => w
  | Some m =>
      let current := currentTime m in
      let duration := Js.orElse (duration m) (Fin 0) in
      let w := setContent (bw_timeDisplay bw)
                 (String.append (formatTime (Fin current))
                    (String.append " / " (formatTime duration))) w in
      let percent := progressPercent current duration in
      let w := setStyle (bw_progressFill bw) "width" (CssPercent percent) w in
      if paused m then
        addClass (bw_bar bw) "paused" (setContent (bw_playBtn bw) svgPlay w)
      else
        removeClass (bw_bar bw) "paused" (setContent (bw_playBtn bw) svgPause w)
  end.

(** [enforceVolumeState], the listener of [play] and [playing]. *)
Definition enforceVolumeState (video : NodeId) (w : World) : World :=
  match intendedVolume w !! video, intendedMuted w !! video, mediaOf w video with
  | Some intentVol, Some intentMute, Some m =>
      if (if Qlt_le_dec (1 # 100) (Qabs (volume m - intentVol)) then true else false)
         || negb (eqb (muted m) intentMute)
      then
        let w := updMedia video (upd_volume (fun _ => intentVol)) w in
        updMedia video (upd_muted (fun _ => intentMute)) w
      else w
  | _, _, _ => w
  end.

(** The click handler of the volume button. *)
Definition volumeBtnClick (video : NodeId) (w : World) : World :=
  match mediaOf w video with
  | None => w
  | Some m =>
      let newMuted := negb (muted m) in
      let w := upd_intendedMuted (fun i => <[video := newMuted]> i) w in
      let w := upd_intendedVolume (fun i => <[video := volume m]> i) w in
      updMedia video (upd_muted (fun _ => newMuted)) w
  end.

(** The [pos] local of the volume-track click handler: the pointer fraction
    clamped by [Math.max (0, Math.min (1, pos))]. *)
Definition trackPos (clientX rectLeft rectWidth : Q) : Q :=
  Qmax 0 (Qmin 1 ((clientX - rectLeft) / rectWidth)).

(** The four assignments of the volume-track click handler, in program
    order. *)
Definition volumeTrackWrites (video : NodeId) (pos : Q) : list (World -> World) :=
  [ upd_intendedVolume (fun i => <[video := pos]> i);      (* Update intent first! *)
    upd_intendedMuted (fun i => <[video := false]> i);
    updMedia video (upd_volume (fun _ => pos));
    updMedia video (upd_muted (fun _ => false)) ].

Definition runWrites (ws : list (World -> World)) (w : World) : World :=
  foldl (fun acc f => f acc) w ws.

(** The click listener of the volume track; [rectLeft] and [rectWidth] come
    from the track's bounding rectangle. *)
Definition volumeTrackClick (video : NodeId) (clientX rectLeft rectWidth : Q)
    (w : World) : World :=
  if Qeq_bool rectWidth 0 then w
  else runWrites (volumeTrackWrites video (trackPos clientX rectLeft rectWidth)) w.

Definition addCustomControls (video : NodeId) (w : World) : World :=
  match findVideoContainer w video with
  | None => w
  | Some container =>
      let '(bar, w) := createElement "DIV" w in
      let w := setClassName bar "insta-control-bar" w in
      let w := setStyle bar "display" (CssText "flex") w in
      let '(playBtn, w) := createElement "BUTTON" w in
      let w := setClassName playBtn "insta-control-btn" w in
      let w := setContent playBtn svgPlay w in
      let w := setAttribute playBtn "title" "Play/Pause" w in
      let '(timeDisplay, w) := createElement "DIV" w in
      let w := setClassName timeDisplay "insta-control-time" w in
      let w := setContent timeDisplay "0:00 / 0:00" w in
      let '(progressContainer, w) := createElement "DIV" w in
      let w := setClassName progressContainer "insta-control-progress-container" w in
      let '(progressTrack, w) := createElement "DIV" w in
      let w := setClassName progressTrack "insta-control-progress-track" w in
      let '(progressFill, w) := createElement "DIV" w in
      let w := setClassName progressFill "insta-control-progress-fill" w in
      let '(progressHandle, w) := createElement "DIV" w in
      let w := setClassName progressHandle "insta-control-progress-handle" w in
      let w := appendChild progressFill progressHandle w in
      let w := appendChild progressTrack progressFill w in
      let w := appendChild progressContainer progressTrack w in
      let '(volumeGroup, w) := createElement "DIV" w in
      let w := setClassName volumeGroup "insta-control-volume-group" w in
      let '(volumeBtn, w) := createElement "BUTTON" w in
      let w := setClassName volumeBtn "insta-control-btn" w in
      let w := setContent volumeBtn svgVolume w in
      let w := setAttribute volumeBtn "title" "Mute/Unmute" w in
      let '(volumeSliderContainer, w) := createElement "DIV" w in
      let w := setClassName volumeSliderContainer
                 "insta-control-volume-slider-container" w in
      let '(volumeTrack, w) := createElement "DIV" w in
      let w := setClassName volumeTrack "insta-control-volume-track" w in
      let '(volumeFill, w) := createElement "DIV" w in
      let w := setClassName volumeFill "insta-control-volume-fill" w in
      let w := appendChild volumeTrack volumeFill w in
      let w := appendChild volumeSliderContainer volumeTrack w in
      let w := appendChild volumeGroup volumeBtn w in
      let w := appendChild volumeGroup volumeSliderContainer w in
      let '(fsBtn, w) := createElement "BUTTON" w in
      let w := setClassName fsBtn "insta-control-btn" w in
      let w := setContent fsBtn svgFullscreen w in
      let w := setAttribute fsBtn "title" "Fullscreen" w in
      let w := appendChild bar playBtn w in
      let w := appendChild bar timeDisplay w in
      let w := appendChild bar progressContainer w in
      let w := appendChild bar volumeGroup w in
      let w := appendChild bar fsBtn w in
      let bw := mkBarWidget bar playBtn timeDisplay progressFill volumeBtn volumeFill in
      let w := upd_barWidgets (fun m => <[video := bw]> m) w in
      let w := updateVolumeUI video bw w in             (* Init *)
      let w := upd_customControls (fun m => <[video := bar]> m) w in
      appendChild container bar w
  end.

(* ===================================================================== *)
(** ** Enhancement, teardown and the preference listener                  *)
(* ===================================================================== *)

Definition enhanceVideo (w : World) (video : NodeId) : World :=
  if negb (isEnabled w) then w
  else if bool_decide (video ∈ processedVideos w) then w
  else if isStoryVideo w video then w
  else
    let w := upd_processedVideos (fun s => s ∪ {[video]}) w in
    let w := upd_rotationStates (fun m => <[video := 0]> m) w in
    let w := match mediaOf w video with
             | Some m =>
                 upd_intendedMuted (fun i => <[video := muted m]> i)
                   (upd_intendedVolume (fun i => <[video := volume m]> i) w)
             | None => w
             end in
    (* suppressNativeClick only registers a listener *)
    let w := updMedia video (upd_controls (fun _ => false)) w in
    let w := addCustomControls video w in
    addRotationButton video w.

(** The body of the [forEach] callback of [removeAllControls]. *)
Definition removeControlsOf (w : World) (video : NodeId) : World :=
  let w := match customControls w !! video with
           | Some bar =>
               match parentOf w bar with
               | Some p => removeChild p bar w
               | None => w
               end
           | None => w
           end in
  let w := upd_customControls (delete video) w in
  let w :=
    match findVideoContainer w video with
    | Some container =>
        let w := match querySelector selRotateBtn container w with
                 | Some rotateBtn =>
                     match parentOf w rotateBtn with
                     | Some p => removeChild p rotateBtn w
                     | None => w
                     end
                 | None => w
                 end in
        let w := match querySelector selRotateMenu container w with
                 | Some rotateMenu =>
                     match parentOf w rotateMenu with
                     | Some p => removeChild p rotateMenu w
                     | None => w
                     end
                 | None => w
                 end in
        let w := removeClass container "insta-control-enhanced" w in
        clearStyle container "height" w
    | None => w
    end in
  let w := clearStyle video "transform" w in
  let w := clearStyle video "width" w in
  let w := clearStyle video "height" w in
  let w := clearStyle video "marginTop" w in
  let w := clearStyle video "marginLeft" w in
  let w := updMedia video (upd_controls (fun _ => true)) w in
  upd_processedVideos (fun s => s ∖ {[video]}) w.

Definition removeAllControls (w : World) : World :=
  foldl removeControlsOf w (documentQuerySelectorAll selVideo w).

Definition processExistingVideos (w : World) : World :=
  foldl enhanceVideo w (documentQuerySelectorAll selVideo w).

Definition observeVideoAdditions (w : World) : World :=
  upd_observer (fun _ => true) w.

(** The callback of the MutationObserver for the added nodes of a batch. *)
Definition onAddedNode (w : World) (node : NodeId) : World :=
  let w := if elemMatches selVideo w node then enhanceVideo w node else w in
  foldl enhanceVideo w (querySelectorAll selVideo node w).

Definition onMutations (addedNodes : list NodeId) (w : World) : World :=
  if observer w then foldl onAddedNode w addedNodes else w.

(** The [storage.onChanged] listener, for a change of [extensionEnabled]. *)
Definition onEnabledChanged (newValue : bool) (w : World) : World :=
  if eqb newValue (isEnabled w) then w
  else
    let w := upd_isEnabled (fun _ => newValue) w in
    if isEnabled w then
      let w := addClass (documentElement w) "insta-control-active" w in
      let w := processExistingVideos w in
      observeVideoAdditions w
    else
      let w := removeClass (documentElement w) "insta-control-active" w in
      let w := upd_observer (fun _ => false) w in
      removeAllControls w.

(** [init], with the value read from the preference store. *)
Definition init (extensionEnabled : bool) (w : World) : World :=
  let w := upd_isEnabled (fun _ => extensionEnabled) w in
  let w := if isEnabled w
           then addClass (documentElement w) "insta-control-active" w else w in
  (* setupStorageListener only registers [onEnabledChanged] *)
  if negb (isEnabled w) then w
  else
    let w := processExistingVideos w in
    observeVideoAdditions w.

(** [destroy]. *)
Definition destroy (w : World) : World := upd_observer (fun _ => false) w.

(* ===================================================================== *)
(** ** Gesture handling                                                   *)
(* ===================================================================== *)

Inductive EventType : Type :=
| MouseDown | MouseUp | TouchStart | TouchEnd | Click.

Section Interaction.
Context {St : Type}.

(** [processInteraction] of addRotationButton.  The closure variable
    [lastInteractionTime] is the first component of the state; [now] is
    the value of [Date.now ()]. *)
Definition processInteraction (now : Z) (action : St -> St) (st : Z * St)
  : Z * St :=
  let '(lastInteractionTime, s) := st in
  if now - lastInteractionTime <? 300 then st
  else (now, action s).

(** [stopPropagationOnly]: nothing happens to the state. *)
Definition stopPropagationOnly (st : Z * St) : Z * St := st.

(** The listeners of the rotation button and of a menu item: mousedown,
    touchstart and click go through [processInteraction]; the button also
    swallows mouseup. *)
Definition rotationControlListener (action : St -> St) (ty : EventType)
    (now : Z) (st : Z * St) : Z * St :=
  match ty with
  | MouseDown | TouchStart | Click => processInteraction now action st
  | MouseUp | TouchEnd => stopPropagationOnly st
  end.

(** [addInteraction] of addCustomControls: a click listener that calls the
    handler; no other event type is listened to. *)
Definition addInteraction (handler : St -> St) (ty : EventType) (s : St) : St :=
  match ty with
  | Click => handler s
  | _ => s
  end.

End Interaction.

(** The controls that take button gestures. *)
Inductive Control : Type :=
| RotateBtn
| MenuItemBtn (item : MenuItem)
| PlayBtn
| VolumeBtn
| FullscreenBtn.

Record InputEvent : Type := mkInputEvent {
  ev_time : Z;              (* Date.now () when the listener runs *)
  ev_type : EventType;
  ev_target : Control
}.

Section Dispatch.
Context {St : Type} (action : Control -> St -> St).

(** Delivery of one event to the listener registered on its target.  The
    rotation button and the menu items of one video share one
    [lastInteractionTime]; the control-bar buttons have none. *)
Definition dispatch (st : Z * St) (e : InputEvent) : Z * St :=
  match ev_target e with
  | RotateBtn | MenuItemBtn _ =>
      rotationControlListener (action (ev_target e)) (ev_type e) (ev_time e) st
  | PlayBtn | VolumeBtn | FullscreenBtn =>
      (fst st, addInteraction (action (ev_target e)) (ev_type e) (snd st))
  end.

Definition dispatchAll (st : Z * St) (es : list InputEvent) : Z * St :=
  foldl dispatch st es.

End Dispatch.

(** [togglePlay]; [granted] tells whether the platform accepts [play ()]
    (a rejection is caught and logged). *)
Definition togglePlay (video : NodeId) (granted : bool) (w : World) : World :=
  match mediaOf w video with
  | None => w
  | Some m =>
      if paused m then
        if granted then updMedia video (upd_paused (fun _ => false)) w else w
      else updMedia video (upd_paused (fun _ => true)) w
  end.

(** [toggleFs]: fullscreen is requested on the container, or on the video
    when there is none. *)
Definition toggleFs (video : NodeId) (granted : bool) (w : World) : World :=
  let target := default video (findVideoContainer w video) in
  match fullscreenElement w with
  | None =>
      if granted then upd_fullscreenElement (fun _ => Some target) w else w
  | Some _ => upd_fullscreenElement (fun _ => None) w
  end.

(** [handleFsChange], run on [fullscreenchange]: a rotated video is
    transformed again for the new context. *)
Definition handleFsChange (video : NodeId) (w : World) : World :=
  let degree := rotationOf w video in
  if degree =? 0 then w else applyRotation video degree w.

(** What the environment supplies to the handlers of one video's controls. *)
Record Env : Type := mkEnv {
  env_btnBottom : Q;
  env_btnRight : Q;
  env_granted : bool
}.

(** The semantic action behind each control of a video. *)
Definition controlAction (video : NodeId) (env : Env) (c : Control)
    (w : World) : World :=
  match c with
  | RotateBtn =>
      match rotationWidgets w !! video with
      | Some rw => toggleMenu rw (env_btnBottom env) (env_btnRight env) w
      | None => w
      end
  | MenuItemBtn item =>
      match rotationWidgets w !! video with
      | Some rw => handleItemAction video rw item w
      | None => w
      end
  | PlayBtn => togglePlay video (env_granted env) w
  | VolumeBtn => volumeBtnClick video w
  | FullscreenBtn => toggleFs video (env_granted env) w
  end.

(** A menu action on a video, through the closure of its menu. *)
Definition menuAction (video : NodeId) (item : MenuItem) (w : World) : World :=
  match rotationWidgets w !! video with
  | Some rw => handleItemAction video rw item w
  | None => w
  end.

(* ===================================================================== *)
(** ** A sample page                                                      *)
(* ===================================================================== *)

Module Sample.

(** html(0) > body(1) > article(2, 470x840) > div(3, 0x0) > video(4). *)
Definition html : NodeId := 0%nat.
Definition bodyId : NodeId := 1%nat.
Definition article : NodeId := 2%nat.
Definition wrapper : NodeId := 3%nat.
Definition vid : NodeId := 4%nat.

Definition node (tag : string) (p : option NodeId) (cs : list NodeId)
    (cw ch : Z) : Element :=
  mkElement tag p cs ∅ ∅ ∅ EmptyString cw ch "static" None.

Definition videoMedia : Media :=
  mkMedia true 1 false true 0 (Fin 90) 1920 1080.

Definition videoNode (st : gmap string CssValue) : Element :=
  mkElement "VIDEO" (Some wrapper) [] ∅ ∅ st EmptyString 470 264 "static"
    (Some videoMedia).

Definition page (articleStyle : gmap string CssValue) : gmap NodeId Element :=
  <[html := node "HTML" None [bodyId] 1280 720]>
  (<[bodyId := node "BODY" (Some html) [article] 1280 720]>
  (<[article := upd_style (fun _ => articleStyle)
                  (node "ARTICLE" (Some bodyId) [wrapper] 470 840)]>
  (<[wrapper := node "DIV" (Some article) [vid] 0 0]>
  (<[vid := videoNode ∅]> ∅)))).

(** The controller before [init] has enhanced anything, preference on. *)
Definition world0 (articleStyle : gmap string CssValue) : World :=
  mkWorld ∅ false ∅ ∅ ∅ true ∅ ∅ ∅ ∅ (page articleStyle) 5%nat html bodyId
    "/reel/abc/" None 1280 720.

(** After [init]: existing videos processed, observer running. *)
Definition started : World := init true (world0 ∅).

Definition env : Env := mkEnv 40 460 true.

End Sample.

(* ===================================================================== *)
(** ** Statements of the specification                                    *)
(* ===================================================================== *)

(** *** Time readout: [M:SS] *)

Definition digitChar (d : Z) : ascii := ascii_of_nat (48 + Z.to_nat d).

(** The two decimal digits of a number below one hundred. *)
Definition twoDigits (n : Z) : string :=
  String (digitChar (n / 10)) (String (digitChar (n mod 10)) EmptyString).

(** The readout as the specification words it: whole minutes, a colon, and
    the remainder of whole seconds on two digits; ["0:00"] for a value that
    is not finite. *)
Definition formatTimeSpec (seconds : JsNum) : string :=
  match seconds with
  | Fin q =>
      String.append (Js.toString (Qfloor q / 60))
        (String.append ":" (twoDigits (Qfloor q mod 60)))
  | _ => "0:00"%string
  end.

Definition nonNegative (x : JsNum) : Prop :=
  match x with
  | Fin q => (0 <= q)%Q
  | _ => True
  end.

(** The durations for which no progress is shown: zero and the non-finite
    values. *)
Definition zeroOrNonFinite (x : JsNum) : Prop :=
  match x with
  | Fin q => (q == 0)%Q
  | _ => True
  end.

(** *** Rotation sequences *)

Inductive Turn : Type := TurnLeft | TurnRight.

Definition turnItem (t : Turn) : MenuItem :=
  match t with
  | TurnLeft => itemRotateLeft
  | TurnRight => itemRotateRight
  end.

(** The signed increment of a turn, in degrees. *)
Definition turnDegrees (t : Turn) : Z :=
  match t with
  | TurnLeft => -90
  | TurnRight => 90
  end.

Definition sumDegrees (ts : list Turn) : Z :=
  foldr (fun t acc => turnDegrees t + acc) 0 ts.

(** The menu actions of a sequence of turns, applied in order. *)
Definition applyTurns (video : NodeId) (ts : list Turn) (w : World) : World :=
  foldl (fun acc t => menuAction video (turnItem t) acc) w ts.

(** *** Story classification, as the specification words it *)

(** The ancestor [k] levels above the parent of a node. *)
Fixpoint ancestorAt (k : nat) (w : World) (n : NodeId) : option NodeId :=
  match k with
  | O => parentOf w n
  | S k' => ancestorAt k' w n ≫= parentOf w
  end.

(** An ancestor marks a story when it contains a progress-bar-role element,
    or contains a Close or Story labelled button and is itself a dialog or
    a section. *)
Definition storyMarker (w : World) (p : NodeId) : Prop :=
  hasMatch selProgressbar p w = true
  ∨ ((hasMatch selCloseButton p w = true ∨ hasMatch selStoryButton p w = true)
     ∧ ∃ e, dom w !! p = Some e
            ∧ (attributes e !! "role"%string = Some "dialog"%string
               ∨ tagName e = "SECTION"%string)).

Definition classifiedStory (w : World) (video : NodeId) : Prop :=
  String.prefix "/stories/" (pathname w) = true
  ∨ ∃ k p, (k < 12)%nat ∧ ancestorAt k w video = Some p ∧ storyMarker w p.

(** *** Debounce *)

Definition isRotationControl (c : Control) : bool :=
  match c with
  | RotateBtn | MenuItemBtn _ => true
  | _ => false
  end.

Definition isPress (ty : EventType) : bool :=
  match ty with
  | MouseDown | TouchStart | Click => true
  | _ => false
  end.

(** Whether the listener that receives [e] runs its action, given the
    time of the last accepted interaction of the rotation controls. *)
Definition fires (last : Z) (e : InputEvent) : bool :=
  if isRotationControl (ev_target e)
  then isPress (ev_type e) && negb (ev_time e - last <? 300)
  else match ev_type e with Click => true | _ => false end.

(** The events of a sequence whose action runs. *)
Fixpoint firedEvents (last : Z) (es : list InputEvent) : list InputEvent :=
  match es with
  | [] => []
  | e :: es' =>
      if fires last e
      then e :: firedEvents
                  (if isRotationControl (ev_target e) then ev_time e else last) es'
      else firedEvents last es'
  end.

(** Two fired events are at least 300 ms apart. *)
Definition apart300 (a b : InputEvent) : Prop := 300 <= ev_time b - ev_time a.

(** *** Transform requests *)



(** The style properties the reset is said to restore: those of the video
    and the height of its container have their pre-enhancement values. *)
Definition restoresStyles (before after : World) (video container : NodeId)
  : Prop :=
  (∀ p, p ∈ videoResetProps →
        styleOf after video !! p = styleOf before video !! p)
  ∧ styleOf after container !! "height"%string
    = styleOf before container !! "height"%string.

(** *** Overlay elements present in the document *)

Definition isOverlayClass (c : string) : bool := String.prefix "insta-control-" c.

Definition isOverlayElement (w : World) (n : NodeId) : bool :=
  bool_decide (Exists (fun c => isOverlayClass c = true) (elements (classesOf w n))).

(** The overlay elements attached to the document, the root apart. *)
Definition overlayInDocument (w : World) : list NodeId :=
  List.filter (isOverlayElement w)
    (descendants (size (dom w)) (dom w) (documentElement w)).

(** *** Auxiliary notions of the proofs *)

(** A step that only rewrites the element store. *)
Definition domOnly (f : World -> World) : Prop :=
  forall w, exists d, f w = upd_dom (fun _ => d) w.

Definition onRotationControl (e : InputEvent) : bool :=
  isRotationControl (ev_target e).

(** What the Container Resolver and the Transform Engine read of an
    element besides its style. *)
Definition layout (e : Element)
  : option NodeId * Z * Z * option Media :=
  (parentElement e, clientWidth e, clientHeight e, media e).

Definition layoutOf (w : World) (n : NodeId) :=
  layout <$> dom w !! n.

Definition sameLayout (w w' : World) : Prop :=
  forall n, layoutOf w n = layoutOf w' n.


(** [k] steps up the parent chain from an optional node. *)
Fixpoint hop (k : nat) (w : World) (o : option NodeId) : option NodeId :=
  match k with
  | O => o
  | S k' => hop k' w o ≫= parentOf w
  end.

(** The test made on each ancestor by the loop of [isStoryVideo]. *)
Definition storyMarkerb (w : World) (p : NodeId) : bool :=
  match dom w !! p with
  | Some e =>
      hasMatch selProgressbar p w
      || (hasMatch selCloseButton p w || hasMatch selStoryButton p w)
         && (bool_decide (attributes e !! "role"%string = Some "dialog"%string)
             || bool_decide (tagName e = "SECTION"%string))
  | None => false
  end.

(** *** Sample scenarios *)

Module Scenario.
Import Sample.


(** Flip, switch the preference off, switch it on again. *)
Definition flipped : World := menuAction vid itemFlip started.
Definition flippedOff : World := onEnabledChanged false flipped.
Definition flippedOn : World := onEnabledChanged true flippedOff.

(** Open the rotation menu, then switch the preference off. *)
Definition opened : World := controlAction vid env RotateBtn started.
Definition openedOff : World := onEnabledChanged false opened.

(** A story: the video sits in a section with a progress bar. *)
Definition storyPage : gmap NodeId Element :=
  <[html := node "HTML" None [bodyId] 1280 720]>
  (<[bodyId := node "BODY" (Some html) [article] 1280 720]>
  (<[article := node "SECTION" (Some bodyId) [wrapper; 5%nat] 470 840]>
  (<[wrapper := node "DIV" (Some article) [vid] 0 0]>
  (<[vid := videoNode ∅]>
  (<[5%nat := upd_attributes (fun _ => {["role"%string := "progressbar"%string]})
                (node "DIV" (Some article) [] 470 4)]> ∅))))).

Definition storyWorld : World :=
  mkWorld ∅ true ∅ ∅ ∅ true ∅ ∅ ∅ ∅ storyPage 6%nat html bodyId
    "/" None 1280 720.

End Scenario.

(** The per-video registers of the controller that the overlay-building
    and DOM-writing methods never assign. *)
Definition regs (w : World)
  : gset NodeId * gmap NodeId Z * gmap NodeId bool * bool :=
  (processedVideos w, rotationStates w, flipStates w, isEnabled w).

(** *** Quarter turns as the specification words them *)

(** The width and height of the video as the engine reads them: the
    native size, or the size of the element when the native one is 0. *)
Definition effectiveWidth (w : World) (video : NodeId) : Z :=
  orZ (from_option videoWidth 0 (mediaOf w video))
      (from_option clientWidth 0 (dom w !! video)).

Definition effectiveHeight (w : World) (video : NodeId) : Z :=
  orZ (from_option videoHeight 0 (mediaOf w video))
      (from_option clientHeight 0 (dom w !! video)).

(** The cover scale for a video of the given width and height. *)
Definition coverScale (w : World) (vWidth vHeight : Z) : JsNum :=
  Js.max (Js.div (inject_Z (innerWidth w)) (inject_Z vHeight))
         (Js.div (inject_Z (innerHeight w)) (inject_Z vWidth)).

(** The scale and the container height that the specification states, on
    the native size whatever it is. *)
Definition statedCoverScale (w : World) (m : Media) : JsNum :=
  coverScale w (videoWidth m) (videoHeight m).

Definition statedInlineHeight (m : Media) : Q :=
  (inject_Z (videoWidth m) * (55 # 100))%Q.

Module Unloaded.
Import Sample.

(** The sample page while the metadata of the video is not loaded: no
    native size, no duration. *)
Definition noMetadata (m : Media) : Media :=
  mkMedia (controls m) (volume m) (muted m) (paused m) (currentTime m) NaN 0 0.

Definition inline : World := updMedia vid noMetadata started.
Definition fullscreen : World := toggleFs vid true inline.

End Unloaded.

(* ===================================================================== *)
(** ** Further handlers of the control bar and of the video              *)
(* ===================================================================== *)

(** [a * x] for a finite [a]. *)
Definition jsMul (a : Q) (x : JsNum) : JsNum :=
  match x with
  | Fin d => Fin (a * d)
  | NaN => NaN
  | PosInf =>
      if Qeq_bool a 0 then NaN else if Qlt_le_dec 0 a then PosInf else NegInf
  | NegInf =>
      if Qeq_bool a 0 then NaN else if Qlt_le_dec 0 a then NegInf else PosInf
  end.

(** [handleSeek]; [clientX] is the pointer (or first touch) position,
    [rectLeft] and [rectWidth] come from the progress track's bounding
    rectangle. *)
Definition handleSeek (video : NodeId) (clientX rectLeft rectWidth : Q)
    (w : World) : World :=
  if Qeq_bool rectWidth 0 then w
  else
    let pos := trackPos clientX rectLeft rectWidth in
    match mediaOf w video with
    | None => w
    | Some m =>
        match jsMul pos (duration m) with
        | Fin targetTime =>                  (* Number.isFinite (targetTime) *)
            updMedia video (upd_currentTime (fun _ => targetTime)) w
        | _ => w
        end
    end.

(** Pointer events that reach the seek listeners: mousedown and click on
    the progress container, mousemove and mouseup on the document. *)
Inductive SeekEvent : Type :=
| SeekDown (clientX : Q)
| SeekClick (clientX : Q)
| SeekMove (clientX : Q)
| SeekUp.

(** One event of a seek gesture.  The first component counts the
    [onMouseMove]/[onMouseUp] listener pairs that earlier mousedowns have
    left on the document: a mousemove runs [handleSeek] once per pair, a
    mouseup removes them all. *)
Definition seekStep (video : NodeId) (rectLeft rectWidth : Q)
    (st : nat * World) (e : SeekEvent) : nat * World :=
  let '(pairs, w) := st in
  match e with
  | SeekDown x => (S pairs, handleSeek video x rectLeft rectWidth w)
  | SeekClick x => (pairs, handleSeek video x rectLeft rectWidth w)
  | SeekMove x =>
      (pairs, Nat.iter pairs (handleSeek video x rectLeft rectWidth) w)
  | SeekUp => (O, w)
  end.

(** The capture-phase click listener that [suppressNativeClick] puts on
    the video: play when paused, pause otherwise; [granted] tells whether
    the platform accepts [play ()]. *)
Definition nativeClick (video : NodeId) (granted : bool) (w : World) : World :=
  match mediaOf w video with
  | None => w
  | Some m =>
      if paused m then
        if granted then updMedia video (upd_paused (fun _ => false)) w else w
      else updMedia video (upd_paused (fun _ => true)) w
  end.

(** The [volumechange] listener of a video, through the closure of its
    control bar. *)
Definition onVolumeChange (video : NodeId) (w : World) : World :=
  match barWidgets w !! video with
  | Some bw => updateVolumeUI video bw w
  | None => w
  end.

(** *** Notions used by the further properties *)

(** An ancestor large enough to be taken as the container. *)
Definition bigEnough (w : World) (p : NodeId) : bool :=
  match dom w !! p with
  | Some e => (200 <? clientHeight e) && (200 <? clientWidth e)
  | None => false
  end.

(** The angles the menu can reach from 0. *)
Definition quarterAngle (r : Z) : Prop := r = 0 \/ r = 90 \/ r = 180 \/ r = 270.

(** The signed increment of a menu item: none for the flip. *)
Definition itemIncrement (item : MenuItem) : Z :=
  match item_isFlip item with
  | Some _ => 0
  | None => default 0 (item_degrees item)
  end.

Definition itemFlips (item : MenuItem) : bool :=
  match item_isFlip item with Some _ => true | None => false end.

Definition applyItems (video : NodeId) (items : list MenuItem) (w : World)
  : World :=
  foldl (fun acc item => menuAction video item acc) w items.

Definition sumIncrements (items : list MenuItem) : Z :=
  foldr (fun item acc => itemIncrement item + acc) 0 items.

(** Whether a sequence of items holds an odd number of flips. *)
Definition flipParity (items : list MenuItem) : bool :=
  foldr (fun item acc => xorb (itemFlips item) acc) false items.

(** The [textContent]/[innerHTML] of an element. *)
Definition contentOf (w : World) (n : NodeId) : string :=
  from_option content EmptyString (dom w !! n).

(** Everything of the controller and of the page, the element store and
    the closure tables apart. *)
Definition kept (w : World) :=
  (processedVideos w, observer w, rotationStates w, flipStates w, isEnabled w,
   intendedVolume w, intendedMuted w, documentElement w, body w, pathname w,
   fullscreenElement w, innerWidth w, innerHeight w).

(** Whether an element exists and which media state it carries. *)
Definition mediaSlot (w : World) (n : NodeId) : option (option Media) :=
  media <$> dom w !! n.

(** [w'] comes from [w] by building overlay elements: what [kept] lists is
    unchanged, new elements were allocated at or above [nextId w], and the
    elements below it are still there with their media state. *)
Definition builds (w w' : World) : Prop :=
  kept w' = kept w
  /\ (nextId w <= nextId w')%nat
  /\ forall x, (x < nextId w)%nat -> mediaSlot w' x = mediaSlot w x.

(** An element with its inline style blanked: what a style write cannot
    change. *)
Definition unstyled (e : Element) : Element := upd_style (fun _ => ∅) e.

Definition sameButStyle (w w' : World) : Prop :=
  kept w' = kept w
  /\ forall n, unstyled <$> dom w' !! n = unstyled <$> dom w !! n.

(** The world in which the overlay of a video is built: the registers are
    set and the native controls are off. *)
Definition registered (w : World) (video : NodeId) : World :=
  let w := upd_processedVideos (fun s => s ∪ {[video]}) w in
  let w := upd_rotationStates (fun m => <[video := 0]> m) w in
  let w := match mediaOf w video with
           | Some m =>
               upd_intendedMuted (fun i => <[video := muted m]> i)
                 (upd_intendedVolume (fun i => <[video := volume m]> i) w)
           | None => w
           end in
  updMedia video (upd_controls (fun _ => false)) w.

(** [w'] differs from [w] in the element store only. *)
Definition domStep (w w' : World) : Prop :=
  exists d, w' = upd_dom (fun _ => d) w.

(** The events the content script reacts to after [init]: a change of the
    stored preference and a batch of added nodes reported to the observer. *)
Inductive PageEvent : Type :=
| PrefChanged (newValue : bool)
| Mutated (addedNodes : list NodeId).

Definition pageStep (w : World) (e : PageEvent) : World :=
  match e with
  | PrefChanged newValue => onEnabledChanged newValue w
  | Mutated addedNodes => onMutations addedNodes w
  end.

(** The preference value delivered last, [stored] before any change. *)
Definition lastPref (stored : bool) (events : list PageEvent) : bool :=
  foldl (fun acc e => match e with PrefChanged v => v | Mutated _ => acc end)
    stored events.

(** *** The Transform Engine as a list of style assignments *)

(** One assignment [e.style.prop = value]; [None] is the empty value. *)
Definition StyleWrite : Type := NodeId * string * option CssValue.

Definition styleWrite (w : World) (wr : StyleWrite) : World :=
  match wr with
  | (n, p, Some v) => setStyle n p v w
  | (n, p, None) => clearStyle n p w
  end.

Definition styleWrites (l : list StyleWrite) (w : World) : World :=
  foldl styleWrite w l.

Definition writeKey (wr : StyleWrite) : NodeId * string := fst wr.

(** The assignments of [applyRotation], in program order, for the
    container it resolved and the values it read. *)
Definition rotationWrites (video container : NodeId) (isFlipped isFullscreen : bool)
    (videoWidth : Z) (coverScale : JsNum) (degrees : Z) : list StyleWrite :=
  if (degrees =? 0) && negb isFlipped then
    [ (video, "transform", None); (video, "width", None);
      (video, "height", None); (video, "marginTop", None);
      (video, "marginLeft", None); (container, "height", None) ]%string
  else
    [ (video, "transition",
       Some (CssText "transform 0.3s ease, margin 0.3s ease"));
      (video, "transformOrigin", Some (CssText "center center")) ]%string
    ++ (if (degrees =? 180) || (degrees =? 0) then
          (video, "transform"%string, Some (CssRotate degrees isFlipped))
          :: (if negb isFullscreen
              then [ (container, "height"%string, None) ] else [])
        else if isFullscreen then
          [ (video, "transform"%string,
             Some (CssRotateScale degrees coverScale isFlipped)) ]
        else
          [ (container, "height"%string,
             Some (CssPx (inject_Z videoWidth * (55 # 100))));
            (video, "transform"%string,
             Some (CssRotateScale degrees (Fin (55 # 100)) isFlipped)) ]).

Definition transformWrites (w : World) (video : NodeId) (degrees : Z)
  : list StyleWrite :=
  match findVideoContainer w video with
  | None => []
  | Some container =>
      rotationWrites video container (flipOf w video)
        (bool_decide (is_Some (fullscreenElement w)))
        (effectiveWidth w video)
        (coverScale w (effectiveWidth w video) (effectiveHeight w video))
        degrees
  end.

(** The writes of one node to a style map, and the last value written to
    a property of a node, if any. *)
Definition writeStyleMap (p : string) (o : option CssValue)
    (s : gmap string CssValue) : gmap string CssValue :=
  match o with
  | Some v => <[p := v]> s
  | None => delete p s
  end.

Definition nodeWrites (x : NodeId) (l : list StyleWrite)
    (s : gmap string CssValue) : gmap string CssValue :=
  foldl (fun s wr =>
           if decide (fst (fst wr) = x)
           then writeStyleMap (snd (fst wr)) (snd wr) s else s) s l.

Fixpoint lastWrite (x : NodeId) (p : string) (l : list StyleWrite)
  : option (option CssValue) :=
  match l with
  | [] => None
  | wr :: l' =>
      match lastWrite x p l' with
      | Some o => Some o
      | None => if decide (writeKey wr = (x, p)) then Some (snd wr) else None
      end
  end.

(** *** The rotation menu, open and docked *)

(** The four positioning properties that the menu carries while open. *)
Definition menuPositionProps : list string :=
  ["position"; "top"; "right"; "left"]%string.

(** Docked: not active, a child of the video's container, unpositioned. *)
Definition menuDocked (rw : RotationWidget) (w : World) : Prop :=
  ("active"%string ∉ classesOf w (rw_menu rw))
  /\ parentOf w (rw_menu rw) = Some (rw_container rw)
  /\ forall p, p ∈ menuPositionProps -> styleOf w (rw_menu rw) !! p = None.

(** The ways an open menu gets closed: the rotation button pressed again,
    a click outside the button and the menu, and the choice of an item. *)
Inductive MenuCloser : Type :=
| ByButton (btnBottom btnRight : Q)
| ByOutsideClick
| ByItem (video : NodeId) (item : MenuItem).

Definition closeBy (rw : RotationWidget) (c : MenuCloser) (w : World) : World :=
  match c with
  | ByButton btnBottom btnRight => toggleMenu rw btnBottom btnRight w
  | ByOutsideClick => outsideClick rw false w
  | ByItem video item => handleItemAction video rw item w
  end.

(** *** Discovery and the playback state *)

(** The media state of a node apart from the [controls] attribute. *)
Definition playbackOf (w : World) (x : NodeId) : option Media :=
  upd_controls (fun _ => false) <$> mediaOf w x.

(** [w'] has kept, of [w]: the playback state of every node that existed,
    the registered videos with their angles, and the flip flags. *)
Definition undisturbed (w w' : World) : Prop :=
  (nextId w <= nextId w')%nat
  /\ (forall x, (x < nextId w)%nat -> playbackOf w' x = playbackOf w x)
  /\ (forall v, v ∈ processedVideos w ->
        (v ∈ processedVideos w')
        /\ rotationStates w' !! v = rotationStates w !! v)
  /\ flipStates w' = flipStates w.

(** *** Layout between two runs of the script *)

(** The client size of an element is computed by the browser.  A run of a
    handler reads it before it writes any style, so within one run it is
    fixed; a write may change it for the next run (an inline height on the
    container changes the container's [clientHeight]).  [relayout] is that
    step of the browser: the elements listed get the given client width and
    height, the others keep theirs. *)
Definition resize (size : Z * Z) (e : Element) : Element :=
  mkElement (tagName e) (parentElement e) (children e) (attributes e)
    (classList e) (style e) (content e) (fst size) (snd size)
    (computedPosition e) (media e).

Definition relayout (sizes : gmap NodeId (Z * Z)) (w : World) : World :=
  upd_dom (map_imap (fun n e =>
             Some (match sizes !! n with
                   | Some size => resize size e
                   | None => e
                   end))) w.



(** *** The pointer fraction *)

(** The fraction of a track at the pointer, before it is clamped. *)
Definition pointerFraction (clientX rectLeft rectWidth : Q) : Q :=
  (clientX - rectLeft) / rectWidth.

(** [pos] is [f] clamped to [0,1]: 0 for a fraction at or below 0, 1 for one
    at or above 1, the fraction itself in between. *)
Definition clampedTo01 (f pos : Q) : Prop :=
  ((f <= 0)%Q -> (pos == 0)%Q)
  /\ ((1 <= f)%Q -> (pos == 1)%Q)
  /\ ((0 <= f <= 1)%Q -> (pos == f)%Q).

(** *** A narrow video *)

Module Narrow.
Import Sample.

(** The sample page with a video of native size 360x640: a quarter turn
    gives its container the height 360 * 0.55 = 198 px, below the 200 px
    that the Container Resolver asks for. *)
Definition portrait (m : Media) : Media :=
  mkMedia (controls m) (volume m) (muted m) (paused m) (currentTime m)
    (duration m) 360 640.

Definition inline : World := updMedia vid portrait started.
Definition turned : World := menuAction vid itemRotateRight inline.
(** The browser lays the article out at its new inline height. *)
Definition relaid : World := relayout {[article := (470, 198)]} turned.
(** Rotate left: the angle is back at 0. *)
Definition back : World := menuAction vid itemRotateLeft relaid.
(** The same angle applied once more. *)
Definition again : World := applyRotation vid 90 relaid.

End Narrow.

(* ===================================================================== *)
(** * Properties                                                          *)
(* ===================================================================== *)


(* ===================================================================== *)
(** ** Time readout                                                       *)
(* ===================================================================== *)

Section TimeReadout.

(** Floor of a quotient by sixty, on numerator and denominator. *)
Lemma floor_div_60 (q : Q) : Js.floor (q / 60) = Qfloor q / 60.
Proof.
  destruct q as [a b]. unfold Js.floor, Qfloor, Qdiv, Qmult, Qinv. simpl.
  rewrite Z.mul_1_r, Pos2Z.inj_mul, Z.div_div by lia. reflexivity.
Qed.

(** For a non-negative dividend truncation is the floor. *)
Lemma trunc_div_60 (q : Q) : (0 <= q)%Q -> Js.trunc (q / 60) = Qfloor q / 60.
Proof.
  intros Hq. rewrite <- floor_div_60.
  destruct q as [a b]. unfold Qle in Hq. simpl in Hq.
  unfold Js.trunc, Js.floor, Qfloor, Qdiv, Qmult, Qinv. simpl.
  apply Z.quot_div_nonneg; lia.
Qed.

Lemma floor_rem_60 (q : Q) :
  (0 <= q)%Q -> Js.floor (Js.rem q 60) = Qfloor q mod 60.
Proof.
  intros Hq. unfold Js.rem. rewrite (trunc_div_60 q Hq).
  destruct q as [a b]. unfold Js.floor, Qfloor, Qminus, Qplus, Qopp, Qmult, inject_Z.
  simpl. set (k := a / Z.pos b / 60).
  change (1 * 1)%positive with 1%positive.
  rewrite Pos.mul_1_r, Z.mul_1_r, Z.div_add by lia.
  rewrite Z.mod_eq by lia. fold k. ring.
Qed.

(** Below sixty, padding the decimal digits to two places gives the two
    digits. *)
Lemma padStart_twoDigits (n : Z) :
  0 <= n < 60 -> Js.padStart 2 "0"%char (Js.toString n) = twoDigits n.
Proof.
  intros Hn.
  assert (Hall : forallb (fun k : nat =>
                   String.eqb (Js.padStart 2 "0"%char (Js.toString (Z.of_nat k)))
                              (twoDigits (Z.of_nat k)))
                 (seq 0 60) = true) by (vm_compute; reflexivity).
  rewrite forallb_forall in Hall.
  specialize (Hall (Z.to_nat n)).
  rewrite Z2Nat.id in Hall by lia.
  apply String.eqb_eq, Hall, in_seq. lia.
Qed.

End TimeReadout.

(** C10. The time formatter returns a string for every number: on a finite
    non-negative value the whole minutes, a colon and the whole seconds
    left on two digits; on NaN and the infinities ["0:00"]; and the progress
    percentage of [updateTime] is zero when the duration is zero or not
    finite. *)
Theorem formatTime_total (seconds : JsNum) (current : Q) (duration : JsNum) :
  (nonNegative seconds -> formatTime seconds = formatTimeSpec seconds)
  /\ (Js.isFinite seconds = false -> formatTime seconds = "0:00"%string)
  /\ (zeroOrNonFinite duration ->
      (progressPercent current (Js.orElse duration (Fin 0)) == 0)%Q).
Proof.
  split; [| split].
  - destruct seconds as [q| | |]; [| reflexivity ..].
    intros Hq. unfold formatTime, formatTimeSpec.
    rewrite floor_div_60, floor_rem_60 by exact Hq.
    rewrite padStart_twoDigits; [reflexivity |].
    apply Z.mod_pos_bound. lia.
  - destruct seconds; simpl; intros H; try reflexivity; discriminate.
  - destruct duration as [d| | |]; simpl; intros Hd; try reflexivity.
    unfold Js.orElse, Js.truthy.
    apply Qeq_bool_iff in Hd. rewrite Hd. simpl. reflexivity.
Qed.

Lemma formatTime_total_witness :
  formatTime (Fin (7531 # 100)) = "1:15"%string
  /\ formatTime PosInf = "0:00"%string
  /\ (progressPercent 12 (Js.orElse NaN (Fin 0)) == 0)%Q.
Proof.
  destruct (formatTime_total (Fin (7531 # 100)) 12 NaN) as (H1 & _ & H3).
  destruct (formatTime_total PosInf 12 NaN) as (_ & H2 & _).
  split; [| split].
  - rewrite H1; [vm_compute; reflexivity | simpl; unfold Qle; simpl; lia].
  - apply H2. reflexivity.
  - apply H3. simpl. exact I.
Defined.

(* ===================================================================== *)
(** ** What the DOM-writing methods leave alone                           *)
(* ===================================================================== *)

Lemma domOnly_id : domOnly (fun w => w).
Proof. intros [ ]. eexists. reflexivity. Qed.

Lemma domOnly_updElem n f : domOnly (updElem n f).
Proof. intros [ ]. eexists. reflexivity. Qed.

Lemma domOnly_comp f g : domOnly f -> domOnly g -> domOnly (fun w => g (f w)).
Proof.
  intros Hf Hg w. destruct (Hf w) as [d1 E1]. destruct (Hg (f w)) as [d2 E2].
  exists d2. rewrite E2, E1. destruct w. reflexivity.
Qed.

Lemma domOnly_removeChild p c : domOnly (removeChild p c).
Proof.
  unfold removeChild.
  apply (domOnly_comp (updElem p _) (updElem c _)); apply domOnly_updElem.
Qed.

Lemma domOnly_appendChild p c : domOnly (appendChild p c).
Proof.
  intros w. unfold appendChild.
  destruct (parentOf w c) as [q|].
  - destruct (domOnly_removeChild q c w) as [d ->]. destruct w. eexists. reflexivity.
  - destruct w. eexists. reflexivity.
Qed.

Lemma domOnly_closeMenu rw : domOnly (closeMenu rw).
Proof.
  intros w. unfold closeMenu. case_bool_decide.
  - destruct (domOnly_appendChild (rw_container rw) (rw_menu rw)
                (removeClass (rw_menu rw) "active" w)) as [d ->].
    destruct w. eexists. reflexivity.
  - destruct w. eexists. reflexivity.
Qed.

Lemma domOnly_applyRotation video degrees : domOnly (applyRotation video degrees).
Proof.
  intros w. unfold applyRotation.
  destruct (findVideoContainer w video) as [container|]; [| apply domOnly_id].
  repeat match goal with
         | |- context [if ?b then _ else _] => destruct b
         end; destruct w; eexists; reflexivity.
Qed.

(** The controller fields read by the menu are untouched by such a step. *)
Lemma domOnly_fields f w :
  domOnly f ->
  rotationStates (f w) = rotationStates w
  /\ flipStates (f w) = flipStates w
  /\ rotationWidgets (f w) = rotationWidgets w
  /\ fullscreenElement (f w) = fullscreenElement w.
Proof. intros Hf. destruct (Hf w) as [d ->]. destruct w. repeat split. Qed.

(* ===================================================================== *)
(** ** Rotation and flip state                                            *)
(* ===================================================================== *)

(** The remainder followed by the adjustment of a negative result is the
    mathematical modulus. *)
Lemma normalize_mod (x : Z) :
  (let r := Js.remZ x 360 in if r <? 0 then r + 360 else r) = x mod 360.
Proof.
  unfold Js.remZ. cbv zeta.
  pose proof (Z.quot_rem' x 360) as Hqr.
  assert (Hb : - 360 < Z.rem x 360 < 360).
  { pose proof (Z.rem_bound_abs x 360). lia. }
  destruct (Z.ltb_spec (Z.rem x 360) 0).
  - apply (Z.mod_unique_pos x 360 (Z.quot x 360 - 1)); lia.
  - apply (Z.mod_unique_pos x 360 (Z.quot x 360)); lia.
Qed.

Lemma handleItemAction_rotation video rw item w :
  item_isFlip item = None ->
  rotationStates (handleItemAction video rw item w) !! video
  = Some ((rotationOf w video + default 0 (item_degrees item)) mod 360)
  /\ rotationWidgets (handleItemAction video rw item w) = rotationWidgets w
  /\ flipStates (handleItemAction video rw item w) = flipStates w.
Proof.
  intros Hflip. unfold handleItemAction. rewrite Hflip.
  set (w1 := upd_rotationStates _ w).
  destruct (domOnly_fields (fun x => closeMenu rw (applyRotation video (rotationOf w1 video) x)) w1)
    as (Hr & Hf & Hw & _).
  { apply (domOnly_comp (applyRotation video _) (closeMenu rw));
      [apply domOnly_applyRotation | apply domOnly_closeMenu]. }
  cbv beta in Hr, Hf, Hw. rewrite Hr, Hf, Hw. subst w1.
  destruct w; simpl. rewrite lookup_insert_eq.
  split; [| split; reflexivity].
  f_equal. apply normalize_mod.
Qed.

Lemma handleItemAction_flip video rw item b w :
  item_isFlip item = Some b ->
  flipStates (handleItemAction video rw item w) !! video
  = Some (negb (flipOf w video))
  /\ rotationWidgets (handleItemAction video rw item w) = rotationWidgets w
  /\ rotationStates (handleItemAction video rw item w) = rotationStates w.
Proof.
  intros Hflip. unfold handleItemAction. rewrite Hflip.
  set (w1 := upd_flipStates _ w).
  destruct (domOnly_fields (fun x => closeMenu rw (applyRotation video (rotationOf w1 video) x)) w1)
    as (Hr & Hf & Hw & _).
  { apply (domOnly_comp (applyRotation video _) (closeMenu rw));
      [apply domOnly_applyRotation | apply domOnly_closeMenu]. }
  cbv beta in Hr, Hf, Hw. rewrite Hr, Hf, Hw. subst w1.
  destruct w; simpl. rewrite lookup_insert_eq. repeat split.
Qed.

Lemma turnItem_degrees t :
  item_isFlip (turnItem t) = None
  /\ default 0 (item_degrees (turnItem t)) = turnDegrees t.
Proof. destruct t; split; reflexivity. Qed.

Lemma applyTurns_rotation video rw ts : forall w,
  rotationWidgets w !! video = Some rw ->
  0 <= rotationOf w video < 360 ->
  rotationOf (applyTurns video ts w) video
  = (rotationOf w video + sumDegrees ts) mod 360
  /\ rotationWidgets (applyTurns video ts w) !! video = Some rw.
Proof.
  induction ts as [| t ts IH]; intros w Hw Hrange.
  - simpl. rewrite Z.add_0_r, Z.mod_small by lia. split; [reflexivity | exact Hw].
  - change (applyTurns video (t :: ts) w)
      with (applyTurns video ts (menuAction video (turnItem t) w)).
    change (sumDegrees (t :: ts)) with (turnDegrees t + sumDegrees ts).
    unfold menuAction. rewrite Hw.
    destruct (turnItem_degrees t) as [Hflip Hdeg].
    destruct (handleItemAction_rotation video rw (turnItem t) w Hflip) as (Hr & Hwid & _).
    rewrite Hdeg in Hr.
    assert (Hnew : rotationOf (handleItemAction video rw (turnItem t) w) video
                   = (rotationOf w video + turnDegrees t) mod 360).
    { unfold rotationOf at 1. rewrite Hr. reflexivity. }
    destruct (IH (handleItemAction video rw (turnItem t) w)) as [IH1 IH2].
    + rewrite Hwid. exact Hw.
    + rewrite Hnew. apply Z.mod_pos_bound. lia.
    + split; [| exact IH2].
      rewrite IH1, Hnew, Zplus_mod_idemp_l. f_equal. lia.
Qed.

(** C1. Rotate-left and rotate-right menu actions on a video whose angle is
    0 leave it at the sum of the signed 90-degree increments modulo 360, in
    [0,360); three rotate-rights give 270 and a fourth gives 0. *)
Theorem rotation_sequence_sum (w : World) (video : NodeId)
    (rw : RotationWidget) (ts : list Turn) :
  rotationWidgets w !! video = Some rw ->
  rotationOf w video = 0 ->
  rotationOf (applyTurns video ts w) video = sumDegrees ts mod 360
  /\ 0 <= rotationOf (applyTurns video ts w) video < 360
  /\ rotationOf (applyTurns video [TurnRight; TurnRight; TurnRight] w) video = 270
  /\ rotationOf
       (applyTurns video [TurnRight; TurnRight; TurnRight; TurnRight] w) video = 0.
Proof.
  intros Hw H0.
  assert (Hgen : forall l, rotationOf (applyTurns video l w) video = sumDegrees l mod 360).
  { intros l. destruct (applyTurns_rotation video rw l w Hw) as [E _]; [lia |].
    rewrite E, H0. reflexivity. }
  split; [apply Hgen |]. split.
  - rewrite Hgen. apply Z.mod_pos_bound. lia.
  - rewrite !Hgen. split; reflexivity.
Qed.

Lemma rotation_sequence_sum_witness :
  rotationOf
    (applyTurns Sample.vid [TurnRight; TurnLeft; TurnLeft; TurnLeft] Sample.started)
    Sample.vid = 180.
Proof.
  destruct (rotation_sequence_sum Sample.started Sample.vid
              (mkRotationWidget 2%nat 18%nat 19%nat) [TurnRight; TurnLeft; TurnLeft; TurnLeft])
    as (H & _).
  - vm_compute. reflexivity.
  - vm_compute. reflexivity.
  - rewrite H. reflexivity.
Defined.

(** C9. The flip action is an involution on the stored flip flag: two
    flips leave it as it was read before, whatever the value. *)
Theorem flip_twice_identity (w : World) (video : NodeId) (rw : RotationWidget) :
  let once := handleItemAction video rw itemFlip w in
  let twice := handleItemAction video rw itemFlip once in
  flipOf once video = negb (flipOf w video)
  /\ flipOf twice video = flipOf w video
  /\ flipStates twice !! video = Some (flipOf w video).
Proof.
  cbv zeta.
  destruct (handleItemAction_flip video rw itemFlip true w eq_refl) as (H1 & _ & _).
  destruct (handleItemAction_flip video rw itemFlip true
              (handleItemAction video rw itemFlip w) eq_refl) as (H2 & _ & _).
  assert (E1 : flipOf (handleItemAction video rw itemFlip w) video
               = negb (flipOf w video)).
  { unfold flipOf at 1. rewrite H1. reflexivity. }
  rewrite E1 in H2. rewrite negb_involutive in H2.
  split; [exact E1 |]. split; [| exact H2].
  unfold flipOf at 1. rewrite H2. reflexivity.
Qed.

(* ===================================================================== *)
(** ** Debounce of the rotation controls                                  *)
(* ===================================================================== *)

Section Debounce.
Context {St : Type} (action : Control -> St -> St).

(** One delivery, by whether the event fires. *)
Lemma dispatch_fires (last : Z) (s : St) (e : InputEvent) :
  dispatch action (last, s) e
  = if fires last e
    then (if isRotationControl (ev_target e) then ev_time e else last,
          action (ev_target e) s)
    else (last, s).
Proof.
  unfold dispatch, fires, rotationControlListener, processInteraction,
    addInteraction, stopPropagationOnly.
  destruct (ev_target e), (ev_type e); simpl;
    try reflexivity; destruct (ev_time e - last <? 300); reflexivity.
Qed.

Lemma dispatchAll_fired (es : list InputEvent) : forall last s,
  snd (dispatchAll action (last, s) es)
  = foldl (fun acc e => action (ev_target e) acc) s (firedEvents last es).
Proof.
  induction es as [| e es IH]; intros last s; [reflexivity |].
  unfold dispatchAll. simpl. rewrite dispatch_fires.
  destruct (fires last e); simpl; apply IH.
Qed.

End Debounce.

Lemma fired_rotation_apart (es : list InputEvent) : forall last,
  Forall (fun e => 300 <= ev_time e - last)
    (List.filter onRotationControl (firedEvents last es))
  /\ StronglySorted apart300
       (List.filter onRotationControl (firedEvents last es)).
Proof.
  induction es as [| e es IH]; intros last; simpl.
  - split; constructor.
  - unfold fires. destruct (isRotationControl (ev_target e)) eqn:Hrot.
    + destruct (isPress (ev_type e)); simpl; [| apply IH].
      destruct (Z.ltb_spec (ev_time e - last) 300) as [Hlt | Hge]; simpl;
        [apply IH |].
      assert (Hon : onRotationControl e = true) by exact Hrot.
      rewrite Hon.
      destruct (IH (ev_time e)) as [IHf IHs]. split.
      * constructor; [exact Hge |].
        eapply Forall_impl; [exact IHf |]. simpl. intros x Hx. lia.
      * constructor; [exact IHs |].
        eapply Forall_impl; [exact IHf |]. intros x Hx. exact Hx.
    + destruct (ev_type e); simpl; try apply IH.
      assert (Hon : onRotationControl e = false) by exact Hrot.
      rewrite Hon. apply IH.
Qed.

(** C8, as the code has it.  The rotation button and the menu items of a
    video share one timestamp: an event that reaches them less than 300 ms
    after the last accepted one does nothing, the actions they fire are at
    least 300 ms apart, and a second event within 300 ms of an accepted one
    is dropped.  The control-bar buttons listen to click only and are not
    debounced: every click runs the handler. *)
Theorem debounce_rotation_controls {St : Type} (action : Control -> St -> St)
    (last : Z) (s : St) (es : list InputEvent) :
  snd (dispatchAll action (last, s) es)
  = foldl (fun acc e => action (ev_target e) acc) s (firedEvents last es)
  /\ (forall e, isRotationControl (ev_target e) = true ->
                ev_time e - last < 300 ->
                dispatch action (last, s) e = (last, s))
  /\ StronglySorted apart300
       (List.filter onRotationControl (firedEvents last es))
  /\ (forall e1 e2,
        isRotationControl (ev_target e1) = true ->
        isRotationControl (ev_target e2) = true ->
        isPress (ev_type e1) = true ->
        300 <= ev_time e1 - last ->
        ev_time e2 - ev_time e1 < 300 ->
        dispatchAll action (last, s) [e1; e2]
        = (ev_time e1, action (ev_target e1) s))
  /\ (forall e, isRotationControl (ev_target e) = false ->
                ev_type e = Click ->
                dispatch action (last, s) e = (last, action (ev_target e) s)).
Proof.
  split; [apply dispatchAll_fired |].
  split.
  { intros e Hrot Hlt. rewrite dispatch_fires. unfold fires. rewrite Hrot.
    destruct (Z.ltb_spec (ev_time e - last) 300); [| lia].
    rewrite andb_false_r. reflexivity. }
  split; [apply fired_rotation_apart |].
  split.
  { intros e1 e2 H1 H2 Hp Hge Hlt. unfold dispatchAll. simpl.
    rewrite (dispatch_fires action last s e1). unfold fires at 1.
    rewrite H1, Hp.
    destruct (Z.ltb_spec (ev_time e1 - last) 300); [lia |]. simpl.
    rewrite dispatch_fires. unfold fires. rewrite H2.
    destruct (Z.ltb_spec (ev_time e2 - ev_time e1) 300); [| lia].
    rewrite andb_false_r. reflexivity. }
  intros e Hrot Hclick. rewrite dispatch_fires. unfold fires.
  rewrite Hrot, Hclick. reflexivity.
Qed.

Lemma debounce_rotation_controls_witness :
  dispatchAll (fun _ n => S n) (0, 0%nat)
    [mkInputEvent 1000 MouseDown RotateBtn; mkInputEvent 1080 Click RotateBtn]
  = (1000, 1%nat)
  /\ dispatch (fun _ n => S n) (1000, 1%nat) (mkInputEvent 1080 Click RotateBtn)
     = (1000, 1%nat)
  /\ dispatch (fun _ n => S n) (1000, 1%nat) (mkInputEvent 1080 Click PlayBtn)
     = (1000, 2%nat).
Proof.
  destruct (debounce_rotation_controls (fun _ n => S n) 0 0%nat []) as (_ & _ & _ & H4 & _).
  destruct (debounce_rotation_controls (fun _ n => S n) 1000 1%nat [])
    as (_ & H2 & _ & _ & H5).
  split; [| split].
  - apply (H4 (mkInputEvent 1000 MouseDown RotateBtn)
              (mkInputEvent 1080 Click RotateBtn)); simpl; (reflexivity || lia).
  - apply (H2 (mkInputEvent 1080 Click RotateBtn)); simpl; (reflexivity || lia).
  - apply (H5 (mkInputEvent 1080 Click PlayBtn)); reflexivity.
Defined.

(** C8 as stated fails on the control bar: two clicks on the volume button
    100 ms apart both run its handler. *)
Lemma control_bar_double_fire :
  let e1 := mkInputEvent 1000 Click VolumeBtn in
  let e2 := mkInputEvent 1100 Click VolumeBtn in
  ev_time e2 - ev_time e1 < 300
  /\ firedEvents 0 [e1; e2] = [e1; e2]
  /\ ~ apart300 e1 e2
  /\ snd (dispatchAll (fun _ n => S n) (0, 0%nat) [e1; e2]) = 2%nat
  /\ muted <$> mediaOf Sample.started Sample.vid = Some false
  /\ muted <$> mediaOf
       (snd (dispatchAll (controlAction Sample.vid Sample.env)
               (0, Sample.started) [e1])) Sample.vid = Some true
  /\ muted <$> mediaOf
       (snd (dispatchAll (controlAction Sample.vid Sample.env)
               (0, Sample.started) [e1; e2])) Sample.vid = Some false.
Proof.
  cbv zeta. split; [simpl; lia |].
  split; [reflexivity |].
  split; [unfold apart300; simpl; lia |].
  repeat split; vm_compute; reflexivity.
Qed.

(* ===================================================================== *)
(** ** Reading the store after a write                                    *)
(* ===================================================================== *)

Lemma dom_updElem n f w x :
  dom (updElem n f w) !! x
  = if decide (n = x) then f <$> dom w !! x else dom w !! x.
Proof.
  unfold updElem. destruct w; simpl. rewrite lookup_alter.
  destruct (decide (n = x)) as [-> |]; reflexivity.
Qed.

Lemma mediaOf_updMedia v f w x :
  mediaOf (updMedia v f w) x
  = if decide (v = x) then f <$> mediaOf w x else mediaOf w x.
Proof.
  unfold mediaOf, updMedia. rewrite dom_updElem.
  destruct (decide (v = x)) as [Heq | Hne]; [| reflexivity].
  destruct (dom w !! x) as [el|]; reflexivity.
Qed.

Lemma styleOf_setStyle_same n p v w :
  is_Some (dom w !! n) -> styleOf (setStyle n p v w) n !! p = Some v.
Proof.
  intros [e He]. unfold styleOf, setStyle. rewrite dom_updElem, decide_True by reflexivity.
  rewrite He. simpl. apply lookup_insert_eq.
Qed.

Lemma styleOf_setStyle_other n p v w x q :
  n ≠ x ∨ p ≠ q -> styleOf (setStyle n p v w) x !! q = styleOf w x !! q.
Proof.
  intros Hne. unfold styleOf, setStyle. rewrite dom_updElem.
  destruct (decide (n = x)) as [-> |]; [| reflexivity].
  destruct Hne as [Hne | Hne]; [congruence |].
  destruct (dom w !! x) as [e|]; simpl; [| reflexivity].
  apply lookup_insert_ne, Hne.
Qed.

Lemma styleOf_clearStyle n p w x q :
  styleOf (clearStyle n p w) x !! q
  = if decide (n = x ∧ p = q) then None else styleOf w x !! q.
Proof.
  unfold styleOf, clearStyle. rewrite dom_updElem.
  destruct (decide (n = x)) as [-> |].
  - destruct (dom w !! x) as [e|]; simpl.
    + destruct (decide (x = x ∧ p = q)) as [[_ ->] | Hn].
      * apply lookup_delete_eq.
      * apply lookup_delete_ne. intros ->. apply Hn. split; reflexivity.
    + destruct (decide (x = x ∧ p = q)); reflexivity.
  - rewrite decide_False by (intros [? _]; congruence). reflexivity.
Qed.

Lemma is_Some_dom_updElem n f w x :
  is_Some (dom (updElem n f w) !! x) <-> is_Some (dom w !! x).
Proof.
  rewrite dom_updElem. destruct (decide (n = x)); [| reflexivity].
  destruct (dom w !! x); simpl; split; intros [? ?]; eauto; discriminate.
Qed.

(* ===================================================================== *)
(** ** Volume intent                                                      *)
(* ===================================================================== *)

Lemma trackPos_range clientX rectLeft rectWidth :
  (0 <= trackPos clientX rectLeft rectWidth <= 1)%Q.
Proof.
  unfold trackPos. split.
  - apply Q.le_max_l.
  - apply Q.max_lub; [discriminate | apply Q.le_min_l].
Qed.

(** [trackPos] is the pointer fraction clamped to [0,1]. *)
Lemma trackPos_clamped clientX rectLeft rectWidth :
  clampedTo01 (pointerFraction clientX rectLeft rectWidth)
    (trackPos clientX rectLeft rectWidth).
Proof.
  unfold clampedTo01, trackPos, pointerFraction.
  set (f := ((clientX - rectLeft) / rectWidth)%Q).
  split; [| split].
  - intros H. apply Q.max_l.
    apply Qle_trans with f; [apply Q.le_min_r | exact H].
  - intros H. rewrite (Q.min_l 1 f) by exact H. apply Q.max_r. discriminate.
  - intros [H0 H1]. rewrite (Q.min_r 1 f) by exact H1. apply Q.max_r. exact H0.
Qed.

(** When the live values equal the intent, enforcement changes nothing. *)
Lemma enforce_noop video w m :
  intendedVolume w !! video = Some (volume m) ->
  intendedMuted w !! video = Some (muted m) ->
  mediaOf w video = Some m ->
  enforceVolumeState video w = w.
Proof.
  intros Hv Hm Hmedia. unfold enforceVolumeState. rewrite Hv, Hm, Hmedia.
  destruct (Qlt_le_dec (1 # 100) (Qabs (volume m - volume m))) as [Hlt | _].
  - exfalso. assert (E : (volume m - volume m == 0)%Q) by ring.
    rewrite E in Hlt. vm_compute in Hlt. discriminate.
  - rewrite eqb_reflx. reflexivity.
Qed.

(** C3. A click on the volume track at a non-degenerate rectangle writes
    the pointer fraction clamped to [0,1] (0 for a fraction at or below 0,
    1 for one at or above 1, the fraction (clientX - left) / width itself
    in between) and [false] to the intent maps first: after these two
    writes the video is still untouched.  Then the video receives the same
    values, so the enforcement listener finds no drift and leaves the world
    as it is. *)
Theorem volume_click_sets_intent_first (w : World) (video : NodeId) (m : Media)
    (clientX rectLeft rectWidth : Q) :
  mediaOf w video = Some m ->
  ~ (rectWidth == 0)%Q ->
  let pos := trackPos clientX rectLeft rectWidth in
  let mid := runWrites (take 2 (volumeTrackWrites video pos)) w in
  let w' := volumeTrackClick video clientX rectLeft rectWidth w in
  (clampedTo01 (pointerFraction clientX rectLeft rectWidth) pos
   /\ (0 <= pos <= 1)%Q)
  /\ (intendedVolume mid !! video = Some pos
      /\ intendedMuted mid !! video = Some false
      /\ mediaOf mid video = Some m)
  /\ w' = runWrites (drop 2 (volumeTrackWrites video pos)) mid
  /\ (intendedVolume w' !! video = Some pos
      /\ intendedMuted w' !! video = Some false
      /\ volume <$> mediaOf w' video = Some pos
      /\ muted <$> mediaOf w' video = Some false)
  /\ enforceVolumeState video w' = w'.
Proof.
  intros Hmedia Hwidth. cbv zeta.
  set (pos := trackPos clientX rectLeft rectWidth).
  assert (Hclick : volumeTrackClick video clientX rectLeft rectWidth w
                   = runWrites (volumeTrackWrites video pos) w).
  { unfold volumeTrackClick.
    destruct (Qeq_bool rectWidth 0) eqn:E; [| reflexivity].
    apply Qeq_bool_iff in E. contradiction. }
  rewrite Hclick.
  assert (Hfinal : mediaOf (runWrites (volumeTrackWrites video pos) w) video
                   = Some (upd_muted (fun _ => false) (upd_volume (fun _ => pos) m))).
  { unfold runWrites, volumeTrackWrites. simpl.
    rewrite !mediaOf_updMedia, !decide_True by reflexivity.
    change (mediaOf _ video) with (mediaOf w video). rewrite Hmedia. reflexivity. }
  split; [split; [apply trackPos_clamped | apply trackPos_range] |].
  split.
  { unfold runWrites, volumeTrackWrites; simpl.
    split; [apply lookup_insert_eq |]. split; [apply lookup_insert_eq |].
    exact Hmedia. }
  split; [reflexivity |].
  split.
  { split; [apply lookup_insert_eq |]. split; [apply lookup_insert_eq |].
    rewrite Hfinal. split; reflexivity. }
  eapply enforce_noop; [| | exact Hfinal]; apply lookup_insert_eq.
Qed.

Lemma volume_click_sets_intent_first_witness :
  let w' := volumeTrackClick Sample.vid 130 100 60 Sample.started in
  intendedVolume w' !! Sample.vid = Some (trackPos 130 100 60)
  /\ (trackPos 130 100 60 == 1 # 2)%Q
  /\ enforceVolumeState Sample.vid w' = w'.
Proof.
  destruct (volume_click_sets_intent_first Sample.started Sample.vid
              (upd_controls (fun _ => false) Sample.videoMedia) 130 100 60)
    as (((_ & _ & Hc) & _) & _ & _ & (H & _) & He).
  - vm_compute. reflexivity.
  - intros E. vm_compute in E. discriminate.
  - split; [exact H |]. split; [| exact He].
    rewrite Hc; [reflexivity |]. split; discriminate.
Defined.

(* ===================================================================== *)
(** ** Quarter turns: scale and container height                          *)
(* ===================================================================== *)

Lemma orZ_nonzero a b : a <> 0 -> orZ a b = a.
Proof. intros H. unfold orZ. destruct (Z.eqb_spec a 0); [contradiction | reflexivity]. Qed.

Lemma div_nonzero (a b : Z) :
  b <> 0 -> Js.div (inject_Z a) (inject_Z b) = Fin (inject_Z a / inject_Z b).
Proof.
  intros Hb. unfold Js.div.
  destruct (Qeq_bool (inject_Z b) 0) eqn:E; [| reflexivity].
  apply Qeq_bool_iff in E. unfold Qeq, inject_Z in E. simpl in E. lia.
Qed.

Lemma max_finite (a b : Q) :
  exists s, Js.max (Fin a) (Fin b) = Fin s /\ (s == Qmax a b)%Q.
Proof.
  unfold Js.max. destruct (Qlt_le_dec a b) as [Hlt | Hle].
  - exists b. split; [reflexivity |]. symmetry. apply Q.max_r, Qlt_le_weak, Hlt.
  - exists a. split; [reflexivity |]. symmetry. apply Q.max_l, Hle.
Qed.

Lemma quarter_not_reset degrees b :
  degrees = 90 \/ degrees = 270 ->
  (degrees =? 0) && b = false /\ (degrees =? 180) || (degrees =? 0) = false.
Proof. intros [-> | ->]; split; reflexivity. Qed.

(** The world written by a quarter turn in fullscreen. *)
Lemma applyRotation_fullscreen_quarter w video container degrees :
  findVideoContainer w video = Some container ->
  is_Some (fullscreenElement w) ->
  degrees = 90 \/ degrees = 270 ->
  applyRotation video degrees w
  = setStyle video "transform"
      (CssRotateScale degrees
         (coverScale w (effectiveWidth w video) (effectiveHeight w video))
         (flipOf w video))
      (setStyle video "transformOrigin" (CssText "center center")
         (setStyle video "transition"
            (CssText "transform 0.3s ease, margin 0.3s ease") w)).
Proof.
  intros Hc Hfs Hdeg. unfold applyRotation. rewrite Hc.
  destruct (quarter_not_reset degrees (negb (flipOf w video)) Hdeg) as [-> ->].
  rewrite bool_decide_eq_true_2 by exact Hfs.
  reflexivity.
Qed.

(** The world written by a quarter turn outside fullscreen. *)
Lemma applyRotation_inline_quarter w video container degrees :
  findVideoContainer w video = Some container ->
  fullscreenElement w = None ->
  degrees = 90 \/ degrees = 270 ->
  applyRotation video degrees w
  = setStyle video "transform"
      (CssRotateScale degrees (Fin (55 # 100)) (flipOf w video))
      (setStyle container "height"
         (CssPx (inject_Z (effectiveWidth w video) * (55 # 100)))
         (setStyle video "transformOrigin" (CssText "center center")
            (setStyle video "transition"
               (CssText "transform 0.3s ease, margin 0.3s ease") w))).
Proof.
  intros Hc Hfs Hdeg. unfold applyRotation. rewrite Hc.
  destruct (quarter_not_reset degrees (negb (flipOf w video)) Hdeg) as [-> ->].
  rewrite bool_decide_eq_false_2 by (rewrite Hfs; intros [? ?]; discriminate).
  reflexivity.
Qed.

Lemma coverScale_finite w vWidth vHeight :
  vWidth <> 0 -> vHeight <> 0 ->
  exists scale, coverScale w vWidth vHeight = Fin scale
                /\ (scale == Qmax (inject_Z (innerWidth w) / inject_Z vHeight)
                                  (inject_Z (innerHeight w) / inject_Z vWidth))%Q.
Proof.
  intros Hw Hh. unfold coverScale. rewrite !div_nonzero by assumption.
  apply max_finite.
Qed.

(** The native size is the one read whenever it is known. *)
Lemma effective_native w video m :
  mediaOf w video = Some m ->
  (videoWidth m <> 0 -> effectiveWidth w video = videoWidth m)
  /\ (videoHeight m <> 0 -> effectiveHeight w video = videoHeight m).
Proof.
  intros Hm. unfold effectiveWidth, effectiveHeight. rewrite Hm. simpl.
  split; intros H; apply orZ_nonzero, H.
Qed.

(** C4, as the code has it.  A quarter turn applied in fullscreen scales
    the video by the larger of viewport width over video height and
    viewport height over video width, where width and height are the native
    ones when they are known and those of the element otherwise; this is
    about 1.185 for 1920x1080 in 1280x720.  No height is written, on the
    container or elsewhere. *)
Theorem fullscreen_cover_scale (w : World) (video container : NodeId)
    (degrees : Z) :
  findVideoContainer w video = Some container ->
  is_Some (fullscreenElement w) ->
  degrees = 90 \/ degrees = 270 ->
  is_Some (dom w !! video) ->
  let w' := applyRotation video degrees w in
  let vWidth := effectiveWidth w video in
  let vHeight := effectiveHeight w video in
  styleOf w' video !! "transform"%string
  = Some (CssRotateScale degrees (coverScale w vWidth vHeight) (flipOf w video))
  /\ (vWidth <> 0 -> vHeight <> 0 ->
      exists scale : Q,
        coverScale w vWidth vHeight = Fin scale
        /\ (scale == Qmax (inject_Z (innerWidth w) / inject_Z vHeight)
                          (inject_Z (innerHeight w) / inject_Z vWidth))%Q
        /\ (vWidth = 1920 -> vHeight = 1080 ->
            innerWidth w = 1280 -> innerHeight w = 720 ->
            (Qabs (scale - (1185 # 1000)) < 1 # 1000)%Q))
  /\ (forall m, mediaOf w video = Some m ->
                videoWidth m <> 0 -> videoHeight m <> 0 ->
                coverScale w vWidth vHeight = statedCoverScale w m)
  /\ (forall n, styleOf w' n !! "height"%string = styleOf w n !! "height"%string).
Proof.
  intros Hc Hfs Hdeg Hel. cbv zeta.
  rewrite (applyRotation_fullscreen_quarter w video container degrees)
    by assumption.
  split; [| split; [| split]].
  - apply styleOf_setStyle_same.
    apply is_Some_dom_updElem, is_Some_dom_updElem. exact Hel.
  - intros Hw Hh.
    destruct (coverScale_finite w _ _ Hw Hh) as (scale & E & Hscale).
    exists scale. split; [exact E |]. split; [exact Hscale |].
    intros E1 E2 E3 E4. rewrite Hscale, E1, E2, E3, E4.
    vm_compute. reflexivity.
  - intros m Hm Hw Hh. unfold statedCoverScale.
    destruct (effective_native w video m Hm) as [Ew Eh].
    rewrite (Ew Hw), (Eh Hh). reflexivity.
  - intros n.
    rewrite !styleOf_setStyle_other by (right; discriminate). reflexivity.
Qed.

Lemma fullscreen_cover_scale_witness :
  let w := toggleFs Sample.vid true
             (menuAction Sample.vid itemRotateRight Sample.started) in
  exists scale : Q,
    styleOf (applyRotation Sample.vid 90 w) Sample.vid !! "transform"%string
    = Some (CssRotateScale 90 (Fin scale) false)
    /\ (Qabs (scale - (1185 # 1000)) < 1 # 1000)%Q.
Proof.
  cbv zeta.
  destruct (fullscreen_cover_scale
              (toggleFs Sample.vid true
                 (menuAction Sample.vid itemRotateRight Sample.started))
              Sample.vid Sample.article 90)
    as (Ht & Hfin & _).
  - vm_compute. reflexivity.
  - vm_compute. eauto.
  - left. reflexivity.
  - vm_compute. eauto.
  - destruct Hfin as (scale & E & _ & Hex).
    + vm_compute. discriminate.
    + vm_compute. discriminate.
    + exists scale. rewrite Ht, E. split; [reflexivity |].
      apply Hex; vm_compute; reflexivity.
Defined.

(** C4 as stated fails while the metadata of the video is not loaded: its
    native size is 0, the stated quotient is infinite, and the engine
    scales by the size of the element instead. *)
Lemma fullscreen_scale_without_metadata :
  (videoWidth <$> mediaOf Unloaded.fullscreen Sample.vid = Some 0
   /\ videoHeight <$> mediaOf Unloaded.fullscreen Sample.vid = Some 0)
  /\ statedCoverScale Unloaded.fullscreen (Unloaded.noMetadata Sample.videoMedia)
     = PosInf
  /\ styleOf (applyRotation Sample.vid 90 Unloaded.fullscreen) Sample.vid
       !! "transform"%string
     = Some (CssRotateScale 90 (Fin (1280 # 264)) false)
  /\ styleOf (applyRotation Sample.vid 90 Unloaded.fullscreen) Sample.vid
       !! "transform"%string
     <> Some (CssRotateScale 90
               (statedCoverScale Unloaded.fullscreen
                  (Unloaded.noMetadata Sample.videoMedia)) false).
Proof.
  assert (H1 : statedCoverScale Unloaded.fullscreen
                 (Unloaded.noMetadata Sample.videoMedia) = PosInf)
    by (vm_compute; reflexivity).
  assert (H2 : styleOf (applyRotation Sample.vid 90 Unloaded.fullscreen) Sample.vid
                 !! "transform"%string
               = Some (CssRotateScale 90 (Fin (1280 # 264)) false))
    by (vm_compute; reflexivity).
  split; [split; vm_compute; reflexivity |].
  split; [exact H1 |]. split; [exact H2 |].
  rewrite H1, H2. discriminate.
Qed.

(** C5, as the code has it.  A quarter turn applied outside fullscreen
    scales the video by 0.55 and sets the height of the resolved container
    to 0.55 times the width of the video, the native width when it is known
    and the width of the element otherwise; for a native width of 1920 this
    is 1056 pixels. *)
Theorem inline_fixed_scale (w : World) (video container : NodeId)
    (degrees : Z) :
  findVideoContainer w video = Some container ->
  is_Some (dom w !! container) ->
  is_Some (dom w !! video) ->
  fullscreenElement w = None ->
  degrees = 90 \/ degrees = 270 ->
  let w' := applyRotation video degrees w in
  styleOf w' video !! "transform"%string
  = Some (CssRotateScale degrees (Fin (55 # 100)) (flipOf w video))
  /\ styleOf w' container !! "height"%string
     = Some (CssPx (inject_Z (effectiveWidth w video) * (55 # 100)))
  /\ (forall m, mediaOf w video = Some m -> videoWidth m <> 0 ->
                styleOf w' container !! "height"%string
                = Some (CssPx (statedInlineHeight m)))
  /\ (forall m, mediaOf w video = Some m -> videoWidth m = 1920 ->
                exists h, styleOf w' container !! "height"%string = Some (CssPx h)
                          /\ (h == 1056)%Q).
Proof.
  intros Hc Hcel Hel Hfs Hdeg. cbv zeta.
  rewrite (applyRotation_inline_quarter w video container degrees)
    by assumption.
  assert (Hheight :
    styleOf
      (setStyle video "transform"
         (CssRotateScale degrees (Fin (55 # 100)) (flipOf w video))
         (setStyle container "height"
            (CssPx (inject_Z (effectiveWidth w video) * (55 # 100)))
            (setStyle video "transformOrigin" (CssText "center center")
               (setStyle video "transition"
                  (CssText "transform 0.3s ease, margin 0.3s ease") w))))
      container !! "height"%string
    = Some (CssPx (inject_Z (effectiveWidth w video) * (55 # 100)))).
  { rewrite styleOf_setStyle_other by (right; discriminate).
    apply styleOf_setStyle_same.
    apply is_Some_dom_updElem, is_Some_dom_updElem. exact Hcel. }
  split; [| split; [| split]].
  - apply styleOf_setStyle_same.
    apply is_Some_dom_updElem, is_Some_dom_updElem, is_Some_dom_updElem.
    exact Hel.
  - exact Hheight.
  - intros m Hm Hw. rewrite Hheight. unfold statedInlineHeight.
    destruct (effective_native w video m Hm) as [Ew _]. rewrite (Ew Hw). reflexivity.
  - intros m Hm E. eexists. split; [exact Hheight |].
    destruct (effective_native w video m Hm) as [Ew _].
    rewrite Ew by (rewrite E; discriminate). rewrite E. reflexivity.
Qed.

Lemma inline_fixed_scale_witness :
  exists h,
    styleOf (applyRotation Sample.vid 90 Sample.started) Sample.article
      !! "height"%string = Some (CssPx h)
    /\ (h == 1056)%Q.
Proof.
  destruct (inline_fixed_scale Sample.started Sample.vid Sample.article 90)
    as (_ & _ & _ & Hex).
  - vm_compute. reflexivity.
  - vm_compute. eauto.
  - vm_compute. eauto.
  - reflexivity.
  - left. reflexivity.
  - apply (Hex (upd_controls (fun _ => false) Sample.videoMedia)).
    + vm_compute. reflexivity.
    + reflexivity.
Defined.

(** C5 as stated fails while the metadata of the video is not loaded: the
    native width is 0, and the container gets 0.55 times the width of the
    element, not 0. *)
Lemma inline_height_without_metadata :
  videoWidth <$> mediaOf Unloaded.inline Sample.vid = Some 0
  /\ (statedInlineHeight (Unloaded.noMetadata Sample.videoMedia) == 0)%Q
  /\ styleOf (applyRotation Sample.vid 90 Unloaded.inline) Sample.article
       !! "height"%string
     = Some (CssPx (inject_Z 470 * (55 # 100)))
  /\ ~ (inject_Z 470 * (55 # 100)
        == statedInlineHeight (Unloaded.noMetadata Sample.videoMedia))%Q.
Proof.
  split; [vm_compute; reflexivity |].
  split; [vm_compute; reflexivity |].
  split; [vm_compute; reflexivity |].
  intros E. vm_compute in E. discriminate.
Qed.

(* ===================================================================== *)
(** ** Reset of the transform                                             *)
(* ===================================================================== *)






Lemma containerWalk_layout fuel : forall w w' p,
  sameLayout w w' -> containerWalk fuel w p = containerWalk fuel w' p.
Proof.
  induction fuel as [| fuel IH]; intros w w' p Hl; [reflexivity |].
  destruct p as [p|]; [| reflexivity]. simpl.
  pose proof (Hl p) as Hp. unfold layoutOf in Hp.
  destruct (dom w !! p) as [e|], (dom w' !! p) as [e'|]; simpl in Hp;
    try discriminate; [| reflexivity].
  unfold layout in Hp. injection Hp as Hpar Hcw Hch _.
  rewrite Hpar, Hcw, Hch.
  destruct ((200 <? clientHeight e') && (200 <? clientWidth e'));
    [reflexivity | apply IH, Hl].
Qed.

Lemma parentOf_layout w w' n : sameLayout w w' -> parentOf w n = parentOf w' n.
Proof.
  intros Hl. pose proof (Hl n) as Hn. unfold layoutOf, parentOf in *.
  destruct (dom w !! n) as [e|], (dom w' !! n) as [e'|]; simpl in *;
    try discriminate; [| reflexivity].
  unfold layout in Hn. congruence.
Qed.

Lemma findVideoContainer_layout w w' video :
  sameLayout w w' -> findVideoContainer w video = findVideoContainer w' video.
Proof.
  intros Hl. unfold findVideoContainer.
  rewrite (parentOf_layout w w' video Hl).
  rewrite (containerWalk_layout 10 w w' _ Hl). reflexivity.
Qed.




Lemma relayout_fields sizes w :
  flipStates (relayout sizes w) = flipStates w
  /\ rotationStates (relayout sizes w) = rotationStates w
  /\ fullscreenElement (relayout sizes w) = fullscreenElement w
  /\ innerWidth (relayout sizes w) = innerWidth w
  /\ innerHeight (relayout sizes w) = innerHeight w.
Proof. repeat split. Qed.

Lemma dom_relayout sizes w x :
  dom (relayout sizes w) !! x
  = (fun e => match sizes !! x with
              | Some size => resize size e
              | None => e
              end) <$> dom w !! x.
Proof.
  unfold relayout. simpl. rewrite map_lookup_imap.
  destruct (dom w !! x); reflexivity.
Qed.

Lemma styleOf_relayout sizes w x : styleOf (relayout sizes w) x = styleOf w x.
Proof.
  unfold styleOf. rewrite dom_relayout.
  destruct (dom w !! x) as [e|]; [| reflexivity].
  simpl. destruct (sizes !! x); reflexivity.
Qed.




(** A second way in which the reset does not restore: for the narrow
    video the quarter turn gives the article the height 198 px; once the
    browser has laid the article out at that height the resolver passes it
    over and returns the body, so the return to angle 0 empties the height
    of the body and the 198 px stay on the article. *)
Lemma reset_misses_earlier_container :
  findVideoContainer Narrow.inline Sample.vid = Some Sample.article
  /\ styleOf Narrow.inline Sample.article !! "height"%string = None
  /\ styleOf Narrow.turned Sample.article !! "height"%string
     = Some (CssPx (inject_Z 360 * (55 # 100)))
  /\ findVideoContainer Narrow.relaid Sample.vid = Some Sample.bodyId
  /\ rotationOf Narrow.back Sample.vid = 0
  /\ flipOf Narrow.back Sample.vid = false
  /\ styleOf Narrow.back Sample.article !! "height"%string
     = Some (CssPx (inject_Z 360 * (55 # 100)))
  /\ ~ restoresStyles Narrow.inline Narrow.back Sample.vid Sample.article.
Proof.
  assert (H1 : styleOf Narrow.inline Sample.article !! "height"%string = None)
    by (vm_compute; reflexivity).
  assert (H2 : styleOf Narrow.back Sample.article !! "height"%string
               = Some (CssPx (inject_Z 360 * (55 # 100))))
    by (vm_compute; reflexivity).
  split; [vm_compute; reflexivity |]. split; [exact H1 |].
  split; [vm_compute; reflexivity |]. split; [vm_compute; reflexivity |].
  split; [vm_compute; reflexivity |]. split; [vm_compute; reflexivity |].
  split; [exact H2 |].
  intros [_ Hh]. rewrite H1, H2 in Hh. discriminate.
Qed.

(* ===================================================================== *)
(** ** Story videos                                                       *)
(* ===================================================================== *)

Lemma hop_None k w : hop k w None = None.
Proof. induction k as [| k IH]; simpl; [reflexivity | rewrite IH; reflexivity]. Qed.

Lemma hop_shift k w o : hop (S k) w o = hop k w (o ≫= parentOf w).
Proof.
  induction k as [| k IH]; [reflexivity |].
  change (hop (S (S k)) w o) with (hop (S k) w o ≫= parentOf w).
  rewrite IH. reflexivity.
Qed.

Lemma ancestorAt_hop k w n : ancestorAt k w n = hop k w (parentOf w n).
Proof. induction k as [| k IH]; simpl; [reflexivity | rewrite IH; reflexivity]. Qed.

Lemma hasMatch_absent sel p w : dom w !! p = None -> hasMatch sel p w = false.
Proof.
  intros Hp. unfold hasMatch, querySelector, querySelectorAll.
  destruct (size (dom w)); simpl; [reflexivity |]. rewrite Hp. reflexivity.
Qed.

Lemma storyMarkerb_spec w p : storyMarkerb w p = true <-> storyMarker w p.
Proof.
  unfold storyMarkerb, storyMarker.
  destruct (dom w !! p) as [e|] eqn:He.
  - rewrite orb_true_iff, andb_true_iff, !orb_true_iff, !bool_decide_eq_true.
    split.
    + intros [H | [H1 H2]]; [left; exact H | right]. split; [exact H1 | eauto].
    + intros [H | [H1 (e' & E & H2)]]; [left; exact H | right].
      injection E as <-. split; assumption.
  - rewrite !hasMatch_absent by exact He. split; [discriminate |].
    intros [H | [_ (e' & E & _)]]; discriminate.
Qed.

Lemma storyWalk_None fuel w : storyWalk fuel w None = false.
Proof. destruct fuel; reflexivity. Qed.

Lemma storyWalk_step fuel w p :
  storyWalk (S fuel) w (Some p)
  = storyMarkerb w p || storyWalk fuel w (parentOf w p).
Proof.
  simpl. unfold storyMarkerb, parentOf.
  destruct (dom w !! p) as [e|]; simpl.
  - destruct (hasMatch selProgressbar p w); [reflexivity |]. simpl.
    destruct ((hasMatch selCloseButton p w || hasMatch selStoryButton p w)
              && (bool_decide (attributes e !! "role"%string = Some "dialog"%string)
                  || bool_decide (tagName e = "SECTION"%string)));
      reflexivity.
  - rewrite storyWalk_None. reflexivity.
Qed.

Lemma storyWalk_spec fuel w : forall o,
  storyWalk fuel w o = true
  <-> exists k p, (k < fuel)%nat /\ hop k w o = Some p /\ storyMarker w p.
Proof.
  induction fuel as [| fuel IH]; intros o.
  - simpl. split; [discriminate | intros (k & p & Hk & _); lia].
  - destruct o as [q|].
    + rewrite storyWalk_step, orb_true_iff, storyMarkerb_spec, IH. split.
      * intros [Hm | (k & p & Hk & Hh & Hm)].
        -- exists 0%nat, q. split; [lia |]. split; [reflexivity | exact Hm].
        -- exists (S k), p. split; [lia |]. rewrite hop_shift. split; assumption.
      * intros (k & p & Hk & Hh & Hm). destruct k as [| k].
        -- left. simpl in Hh. injection Hh as ->. exact Hm.
        -- right. exists k, p. rewrite hop_shift in Hh.
           split; [lia |]. split; assumption.
    + rewrite storyWalk_None. split; [discriminate |].
      intros (k & p & _ & Hh & _). rewrite hop_None in Hh. discriminate.
Qed.

(** The classifier of the code decides the classification of the
    specification. *)
Lemma isStoryVideo_spec w video :
  isStoryVideo w video = true <-> classifiedStory w video.
Proof.
  unfold isStoryVideo, classifiedStory.
  destruct (String.prefix "/stories/" (pathname w)).
  - split; [left; reflexivity | reflexivity].
  - rewrite storyWalk_spec. split.
    + intros (k & p & Hk & Hh & Hm). right. exists k, p.
      rewrite ancestorAt_hop. repeat split; assumption.
    + intros [H | (k & p & Hk & Hh & Hm)]; [discriminate |].
      exists k, p. rewrite <- ancestorAt_hop. repeat split; assumption.
Qed.

Lemma enhanceVideo_story w video :
  isStoryVideo w video = true -> enhanceVideo w video = w.
Proof.
  intros H. unfold enhanceVideo.
  destruct (negb (isEnabled w)); [reflexivity |].
  destruct (bool_decide (video ∈ processedVideos w)); [reflexivity |].
  rewrite H. reflexivity.
Qed.

(** C7. A video for which the classifier returns true (story path, or one
    of the twelve nearest ancestors holds a progress bar, or is a dialog or
    a section holding a Close or Story button) is left alone by
    enhancement, however often it is presented: the world, with its
    registry and its document, stays as it is. *)
Theorem story_never_enhanced (w : World) (video : NodeId) (n : nat) :
  isStoryVideo w video = true ->
  classifiedStory w video
  /\ enhanceVideo w video = w
  /\ foldl enhanceVideo w (replicate n video) = w
  /\ processedVideos (foldl enhanceVideo w (replicate n video)) = processedVideos w
  /\ dom (foldl enhanceVideo w (replicate n video)) = dom w.
Proof.
  intros Hs.
  assert (Hit : foldl enhanceVideo w (replicate n video) = w).
  { induction n as [| n IH]; [reflexivity |].
    simpl. rewrite (enhanceVideo_story w video Hs). exact IH. }
  split; [apply isStoryVideo_spec, Hs |]. split; [apply enhanceVideo_story, Hs |].
  split; [exact Hit |]. rewrite Hit. split; reflexivity.
Qed.

Lemma story_never_enhanced_witness :
  classifiedStory Scenario.storyWorld Sample.vid
  /\ foldl enhanceVideo Scenario.storyWorld (replicate 3 Sample.vid)
     = Scenario.storyWorld.
Proof.
  destruct (story_never_enhanced Scenario.storyWorld Sample.vid 3) as (H1 & _ & H & _).
  - vm_compute. reflexivity.
  - split; [exact H1 | exact H].
Defined.

(* ===================================================================== *)
(** ** Switching the preference off and on                                *)
(* ===================================================================== *)

(** *** The registers across teardown and enhancement *)

Section Registers.

Lemma regs_updElem n f w : regs (updElem n f w) = regs w.
Proof. reflexivity. Qed.

Lemma regs_removeChild p c w : regs (removeChild p c w) = regs w.
Proof. reflexivity. Qed.

Lemma regs_appendChild p c w : regs (appendChild p c w) = regs w.
Proof. unfold appendChild. destruct (parentOf w c); reflexivity. Qed.

Lemma regs_updateVolumeUI v bw w : regs (updateVolumeUI v bw w) = regs w.
Proof. unfold updateVolumeUI. destruct (mediaOf w v); reflexivity. Qed.

Lemma regs_createElement tag w x w' :
  createElement tag w = (x, w') -> regs w' = regs w.
Proof. unfold createElement. intros E. injection E as _ <-. reflexivity. Qed.

Lemma regs_upd_customControls f w : regs (upd_customControls f w) = regs w.
Proof. reflexivity. Qed.

Lemma regs_upd_barWidgets f w : regs (upd_barWidgets f w) = regs w.
Proof. reflexivity. Qed.

Lemma regs_upd_rotationWidgets f w : regs (upd_rotationWidgets f w) = regs w.
Proof. reflexivity. Qed.

(** Strip the DOM writes around a world inside [regs]. *)
Ltac regs_strip :=
  repeat first
    [ rewrite regs_appendChild
    | rewrite regs_updElem
    | rewrite regs_updateVolumeUI
    | rewrite regs_upd_customControls
    | rewrite regs_upd_barWidgets
    | rewrite regs_upd_rotationWidgets ].

Ltac regs_strip_in E :=
  repeat first
    [ rewrite regs_appendChild in E
    | rewrite regs_updElem in E
    | rewrite regs_updateVolumeUI in E
    | rewrite regs_upd_customControls in E
    | rewrite regs_upd_barWidgets in E
    | rewrite regs_upd_rotationWidgets in E ].

(** Name the result of each [createElement], oldest first, keeping only
    what it does to the registers. *)
Ltac regs_alloc :=
  repeat (cbv zeta;
          match goal with
          | |- context [createElement ?t ?w0] =>
              let E := fresh "E" in
              destruct (createElement t w0) as [? ?] eqn:E;
              apply regs_createElement in E; regs_strip_in E
          end).

Lemma regs_addMenuItem menu w item : regs (addMenuItem menu w item) = regs w.
Proof.
  unfold addMenuItem, setClassName, setContent, setAttribute.
  regs_alloc. cbv zeta. regs_strip. congruence.
Qed.

Lemma regs_addCustomControls v w : regs (addCustomControls v w) = regs w.
Proof.
  unfold addCustomControls. destruct (findVideoContainer w v); [| reflexivity].
  unfold setClassName, setStyle, setContent, setAttribute.
  regs_alloc. cbv zeta. regs_strip. congruence.
Qed.

Lemma regs_addRotationButton v w : regs (addRotationButton v w) = regs w.
Proof.
  unfold addRotationButton. destruct (findVideoContainer w v) as [c|]; [| reflexivity].
  unfold setClassName, setStyle, setContent, setAttribute, menuItems.
  set (w0 := if bool_decide _ then _ else w).
  assert (H0 : regs w0 = regs w) by (subst w0; destruct (bool_decide _); reflexivity).
  clearbody w0. simpl foldl.
  regs_alloc. cbv zeta. regs_strip. rewrite !regs_addMenuItem. regs_strip.
  congruence.
Qed.

(** What [enhanceVideo] does to the registers: nothing, or the video is
    added to the processed set with angle 0. *)
Lemma regs_enhanceVideo w v :
  regs (enhanceVideo w v) = regs w
  \/ regs (enhanceVideo w v)
     = (processedVideos w ∪ {[v]}, <[v := 0]> (rotationStates w),
        flipStates w, isEnabled w).
Proof.
  unfold enhanceVideo.
  destruct (negb (isEnabled w)); [left; reflexivity |].
  destruct (bool_decide (v ∈ processedVideos w)); [left; reflexivity |].
  destruct (isStoryVideo w v); [left; reflexivity |]. right.
  rewrite regs_addRotationButton, regs_addCustomControls.
  unfold updMedia. rewrite regs_updElem.
  destruct (mediaOf _ v); reflexivity.
Qed.

Lemma regs_removeFound (found : option NodeId) w :
  regs (match found with
        | Some el => match parentOf w el with
                     | Some p => removeChild p el w
                     | None => w
                     end
        | None => w
        end) = regs w.
Proof.
  destruct found as [el|]; [| reflexivity].
  destruct (parentOf w el); reflexivity.
Qed.

Lemma regs_upd_processedVideos f w :
  regs (upd_processedVideos f w)
  = (f (processedVideos w), rotationStates w, flipStates w, isEnabled w).
Proof. reflexivity. Qed.

Lemma regs_minus x w (v : NodeId) :
  regs x = regs w ->
  (processedVideos x ∖ {[v]}, rotationStates x, flipStates x, isEnabled x)
  = (processedVideos w ∖ {[v]}, rotationStates w, flipStates w, isEnabled w).
Proof. unfold regs. intros H. injection H as -> -> -> ->. reflexivity. Qed.

(** What the teardown of one video does to the registers. *)
Lemma regs_removeControlsOf w v :
  regs (removeControlsOf w v)
  = (processedVideos w ∖ {[v]}, rotationStates w, flipStates w, isEnabled w).
Proof.
  unfold removeControlsOf. cbv zeta.
  rewrite regs_upd_processedVideos.
  unfold clearStyle, removeClass, updMedia.
  apply regs_minus.
  rewrite !regs_updElem.
  destruct (findVideoContainer _ v) as [c|].
  - rewrite !regs_updElem, regs_removeFound, regs_removeFound.
    rewrite regs_upd_customControls. apply regs_removeFound.
  - rewrite regs_upd_customControls. apply regs_removeFound.
Qed.

Lemma processed_removeControlsOf w v :
  processedVideos (removeControlsOf w v) = processedVideos w ∖ {[v]}.
Proof. exact (f_equal (fun t => fst (fst (fst t))) (regs_removeControlsOf w v)). Qed.

Lemma flip_removeControlsOf w v :
  flipStates (removeControlsOf w v) = flipStates w.
Proof. exact (f_equal (fun t => snd (fst t)) (regs_removeControlsOf w v)). Qed.

Lemma enhanceVideo_cases w v :
  (processedVideos (enhanceVideo w v) = processedVideos w
   /\ rotationStates (enhanceVideo w v) = rotationStates w
   /\ flipStates (enhanceVideo w v) = flipStates w)
  \/ (processedVideos (enhanceVideo w v) = processedVideos w ∪ {[v]}
      /\ rotationStates (enhanceVideo w v) = <[v := 0]> (rotationStates w)
      /\ flipStates (enhanceVideo w v) = flipStates w).
Proof.
  destruct (regs_enhanceVideo w v) as [H | H]; [left | right];
    (split; [exact (f_equal (fun t => fst (fst (fst t))) H) |]);
    (split; [exact (f_equal (fun t => snd (fst (fst t))) H) |]);
    exact (f_equal (fun t => snd (fst t)) H).
Qed.

Lemma flip_enhanceVideo w v : flipStates (enhanceVideo w v) = flipStates w.
Proof. destruct (enhanceVideo_cases w v) as [(_ & _ & H) | (_ & _ & H)]; exact H. Qed.

Lemma flip_foldl (f : World -> NodeId -> World) (l : list NodeId) :
  (forall w v, flipStates (f w v) = flipStates w) ->
  forall w, flipStates (foldl f w l) = flipStates w.
Proof.
  intros Hf. induction l as [| v l IH]; intros w; [reflexivity |].
  simpl. rewrite IH. apply Hf.
Qed.

(** No change of the preference, off or on, writes the flip flags:
    teardown and enhancement never assign them. *)
Lemma flipStates_survive_toggle (b : bool) (w : World) :
  flipStates (onEnabledChanged b w) = flipStates w.
Proof.
  unfold onEnabledChanged.
  destruct (eqb b (isEnabled w)); [reflexivity |].
  destruct b; simpl.
  - unfold processExistingVideos.
    rewrite (flip_foldl enhanceVideo _ flip_enhanceVideo). reflexivity.
  - unfold removeAllControls.
    rewrite (flip_foldl removeControlsOf _ flip_removeControlsOf). reflexivity.
Qed.

(** Teardown unregisters every video it visits. *)
Lemma removeAll_unregisters (l : list NodeId) : forall w v,
  v ∈ l -> v ∉ processedVideos (foldl removeControlsOf w l).
Proof.
  assert (Hkeep : forall l w v, v ∉ processedVideos w ->
                    v ∉ processedVideos (foldl removeControlsOf w l)).
  { intros l0. induction l0 as [| u l0 IH]; intros w v Hv; [exact Hv |].
    simpl. apply IH. rewrite processed_removeControlsOf.
    intros [H _]%elem_of_difference. contradiction. }
  induction l as [| u l IH]; intros w v Hin; [apply elem_of_nil in Hin; contradiction |].
  simpl. apply elem_of_cons in Hin. destruct Hin as [-> | Hin].
  - apply Hkeep. rewrite processed_removeControlsOf.
    intros [_ H]%elem_of_difference. apply H, elem_of_singleton. reflexivity.
  - apply IH, Hin.
Qed.

(** Videos that enhancement registers get angle 0. *)
Lemma enhance_all_angle_zero (l : list NodeId) : forall w v,
  v ∉ processedVideos w ->
  v ∈ processedVideos (foldl enhanceVideo w l) ->
  rotationStates (foldl enhanceVideo w l) !! v = Some 0.
Proof.
  assert (Hkeep : forall l w v,
            rotationStates w !! v = Some 0 ->
            rotationStates (foldl enhanceVideo w l) !! v = Some 0).
  { intros l0. induction l0 as [| u l0 IH]; intros w v H0; [exact H0 |].
    simpl. apply IH.
    destruct (enhanceVideo_cases w u) as [(_ & Hr & _) | (_ & Hr & _)];
      rewrite Hr; [exact H0 |].
    destruct (decide (u = v)) as [-> |].
    + apply lookup_insert_eq.
    + rewrite lookup_insert_ne by assumption. exact H0. }
  induction l as [| u l IH]; intros w v Hout Hin; [contradiction |].
  simpl in *.
  destruct (enhanceVideo_cases w u) as [(Hp & Hr & _) | (Hp & Hr & _)].
  - apply IH; [rewrite Hp; exact Hout | exact Hin].
  - destruct (decide (u = v)) as [-> |].
    + apply Hkeep. rewrite Hr. apply lookup_insert_eq.
    + apply IH; [| exact Hin]. rewrite Hp.
      intros [H | H%elem_of_singleton]%elem_of_union; [contradiction | congruence].
Qed.

End Registers.

(** *** Native controls after teardown *)

Section ControlsRestored.

Lemma mediaOf_updElem_keep n f w x :
  (forall e, media (f e) = media e) ->
  mediaOf (updElem n f w) x = mediaOf w x.
Proof.
  intros Hf. unfold mediaOf. rewrite dom_updElem.
  destruct (decide (n = x)); [| reflexivity].
  destruct (dom w !! x) as [el|]; simpl; [apply Hf | reflexivity].
Qed.

Lemma mediaOf_removeChild p c w x :
  mediaOf (removeChild p c w) x = mediaOf w x.
Proof.
  unfold removeChild. rewrite !mediaOf_updElem_keep by reflexivity. reflexivity.
Qed.

Lemma mediaOf_removeFound (found : option NodeId) w x :
  mediaOf (match found with
           | Some el => match parentOf w el with
                        | Some p => removeChild p el w
                        | None => w
                        end
           | None => w
           end) x = mediaOf w x.
Proof.
  destruct found as [el|]; [| reflexivity].
  destruct (parentOf w el); [apply mediaOf_removeChild | reflexivity].
Qed.

Lemma mediaOf_upd_processedVideos f w x :
  mediaOf (upd_processedVideos f w) x = mediaOf w x.
Proof. reflexivity. Qed.

Lemma mediaOf_upd_customControls f w x :
  mediaOf (upd_customControls f w) x = mediaOf w x.
Proof. reflexivity. Qed.

(** The teardown of one video switches its native controls on and
    changes no other media state. *)
Lemma mediaOf_removeControlsOf w u x :
  mediaOf (removeControlsOf w u) x
  = if decide (u = x) then upd_controls (fun _ => true) <$> mediaOf w x
    else mediaOf w x.
Proof.
  unfold removeControlsOf. cbv zeta.
  rewrite mediaOf_upd_processedVideos, mediaOf_updMedia.
  unfold clearStyle, removeClass.
  rewrite !mediaOf_updElem_keep by reflexivity.
  match goal with
  | |- (if _ then _ <$> mediaOf ?y x else _) = _ =>
      assert (H : mediaOf y x = mediaOf w x)
  end.
  { destruct (findVideoContainer _ u) as [c|].
    - rewrite !mediaOf_updElem_keep by reflexivity.
      rewrite mediaOf_removeFound, mediaOf_removeFound.
      rewrite mediaOf_upd_customControls. apply mediaOf_removeFound.
    - rewrite mediaOf_upd_customControls. apply mediaOf_removeFound. }
  rewrite H. reflexivity.
Qed.

Lemma mediaOf_teardown_other (l : list NodeId) : forall w x,
  x ∉ l -> mediaOf (foldl removeControlsOf w l) x = mediaOf w x.
Proof.
  induction l as [| u l IH]; intros w x Hx; [reflexivity |].
  apply not_elem_of_cons in Hx. destruct Hx as [Hne Hx].
  simpl. rewrite IH by exact Hx.
  rewrite mediaOf_removeControlsOf, decide_False by congruence. reflexivity.
Qed.

(** After teardown every video it visited has its native controls on. *)
Lemma teardown_restores_controls (l : list NodeId) : forall w v,
  v ∈ l ->
  controls <$> mediaOf (foldl removeControlsOf w l) v
  = (fun _ => true) <$> mediaOf w v.
Proof.
  assert (Hkeep : forall l w v,
            controls <$> mediaOf w v = (fun _ => true) <$> mediaOf w v ->
            controls <$> mediaOf (foldl removeControlsOf w l) v
            = (fun _ => true) <$> mediaOf w v).
  { intros l0. induction l0 as [| u l0 IH]; intros w v Hv; [exact Hv |].
    simpl.
    assert (E : controls <$> mediaOf (removeControlsOf w u) v
                = (fun _ => true) <$> mediaOf (removeControlsOf w u) v
                /\ (fun _ : Media => true) <$> mediaOf (removeControlsOf w u) v
                   = (fun _ => true) <$> mediaOf w v).
    { rewrite mediaOf_removeControlsOf. destruct (decide (u = v)).
      - destruct (mediaOf w v); split; reflexivity.
      - split; [exact Hv | reflexivity]. }
    destruct E as [E1 E2]. rewrite <- E2. apply IH, E1. }
  induction l as [| u l IH]; intros w v Hin; [apply elem_of_nil in Hin; contradiction |].
  simpl. destruct (decide (u = v)) as [-> | Hne].
  - assert (E : (fun _ : Media => true) <$> mediaOf (removeControlsOf w v) v
                = (fun _ => true) <$> mediaOf w v).
    { rewrite mediaOf_removeControlsOf, decide_True by reflexivity.
      destruct (mediaOf w v); reflexivity. }
    rewrite <- E. apply Hkeep.
    rewrite mediaOf_removeControlsOf, decide_True by reflexivity.
    destruct (mediaOf w v); reflexivity.
  - assert (E : (fun _ : Media => true) <$> mediaOf (removeControlsOf w u) v
                = (fun _ => true) <$> mediaOf w v).
    { rewrite mediaOf_removeControlsOf, decide_False by exact Hne. reflexivity. }
    rewrite <- E. apply IH.
    apply elem_of_cons in Hin. destruct Hin as [-> | Hin]; [contradiction | exact Hin].
Qed.

End ControlsRestored.

(** C2 at a concrete page.  The video is flipped, the preference is
    switched off and on again.  Teardown removes the overlay, empties the
    transform and restores the native controls; enhancement registers the
    video again with angle 0; but the flip flag is still set, and the next
    rotation is rendered mirrored. *)
Theorem reenable_keeps_flip :
  flipOf Scenario.flipped Sample.vid = true
  /\ overlayInDocument Scenario.flippedOff = []
  /\ controls <$> mediaOf Scenario.flippedOff Sample.vid = Some true
  /\ styleOf Scenario.flippedOff Sample.vid !! "transform"%string = None
  /\ Sample.vid ∈ processedVideos Scenario.flippedOn
  /\ rotationStates Scenario.flippedOn !! Sample.vid = Some 0
  /\ flipStates Scenario.flippedOn !! Sample.vid = Some true
  /\ styleOf (menuAction Sample.vid itemRotateRight Scenario.flippedOn)
       Sample.vid !! "transform"%string
     = Some (CssRotateScale 90 (Fin (55 # 100)) true).
Proof.
  assert (Hin : Sample.vid ∈ processedVideos Scenario.flippedOn)
    by (apply (bool_decide_eq_true_1 (Sample.vid ∈ processedVideos Scenario.flippedOn));
        vm_compute; reflexivity).
  split; [vm_compute; reflexivity |]. split; [vm_compute; reflexivity |].
  split; [vm_compute; reflexivity |]. split; [vm_compute; reflexivity |].
  split; [exact Hin |]. split; [vm_compute; reflexivity |].
  split; vm_compute; reflexivity.
Qed.

(** A rotation menu that is open hangs under [body]; teardown looks for
    it in the container only and leaves it, with its items, in the
    document. *)
Lemma teardown_leaves_open_menu :
  length (overlayInDocument Sample.started) = 18%nat
  /\ parentOf Scenario.opened 19%nat = Some Sample.bodyId
  /\ overlayInDocument Scenario.openedOff = [19; 20; 21; 22]%nat.
Proof. repeat split; vm_compute; reflexivity. Qed.

(* ===================================================================== *)
(** ** Container Resolver                                                 *)
(* ===================================================================== *)

Lemma containerWalk_None_arg fuel w : containerWalk fuel w None = None.
Proof. destruct fuel; reflexivity. Qed.

Lemma containerWalk_step fuel w p :
  containerWalk (S fuel) w (Some p)
  = if bigEnough w p then Some p
    else match dom w !! p with
         | Some _ => containerWalk fuel w (parentOf w p)
         | None => None
         end.
Proof.
  simpl. unfold bigEnough, parentOf.
  destruct (dom w !! p) as [e|]; simpl; reflexivity.
Qed.

(** The walk finds the nearest large ancestor among the first [fuel]. *)
Lemma containerWalk_Some fuel w : forall o c,
  containerWalk fuel w o = Some c
  <-> exists k, (k < fuel)%nat /\ hop k w o = Some c /\ bigEnough w c = true
                /\ forall j q, (j < k)%nat -> hop j w o = Some q ->
                               bigEnough w q = false.
Proof.
  induction fuel as [| fuel IH]; intros o c.
  - simpl. split; [discriminate | intros (k & Hk & _); lia].
  - destruct o as [p|].
    + rewrite containerWalk_step.
      destruct (bigEnough w p) eqn:Hbig.
      * split.
        -- intros E. injection E as <-. exists 0%nat.
           split; [lia |]. split; [reflexivity |]. split; [exact Hbig |].
           intros j q Hj. lia.
        -- intros (k & _ & Hh & Hc & Hmin). destruct k as [| k].
           ++ simpl in Hh. exact Hh.
           ++ specialize (Hmin 0%nat p). simpl in Hmin.
              rewrite Hmin in Hbig by (lia || reflexivity). discriminate.
      * destruct (dom w !! p) as [e|] eqn:He.
        -- rewrite IH. split.
           ++ intros (k & Hk & Hh & Hc & Hmin). exists (S k).
              split; [lia |]. rewrite hop_shift. split; [exact Hh |].
              split; [exact Hc |]. intros j q Hj Hq. destruct j as [| j].
              ** simpl in Hq. injection Hq as <-. exact Hbig.
              ** rewrite hop_shift in Hq. apply (Hmin j q); [lia | exact Hq].
           ++ intros (k & Hk & Hh & Hc & Hmin). destruct k as [| k].
              ** simpl in Hh. injection Hh as <-. congruence.
              ** exists k. rewrite hop_shift in Hh. split; [lia |].
                 split; [exact Hh |]. split; [exact Hc |].
                 intros j q Hj Hq. apply (Hmin (S j) q); [lia |].
                 rewrite hop_shift. exact Hq.
        -- split; [discriminate |].
           intros (k & Hk & Hh & Hc & Hmin). destruct k as [| k].
           ++ simpl in Hh. injection Hh as <-. congruence.
           ++ rewrite hop_shift in Hh. simpl in Hh. unfold parentOf in Hh.
              rewrite He in Hh. simpl in Hh. rewrite hop_None in Hh. discriminate.
    + rewrite containerWalk_None_arg. split; [discriminate |].
      intros (k & _ & Hh & _). rewrite hop_None in Hh. discriminate.
Qed.

Lemma containerWalk_None fuel w : forall o,
  containerWalk fuel w o = None
  <-> forall j q, (j < fuel)%nat -> hop j w o = Some q -> bigEnough w q = false.
Proof.
  induction fuel as [| fuel IH]; intros o.
  - simpl. split; [intros _ j q Hj; lia | reflexivity].
  - destruct o as [p|].
    + rewrite containerWalk_step. destruct (bigEnough w p) eqn:Hbig.
      * split; [discriminate |]. intros Hall.
        rewrite (Hall 0%nat p) in Hbig by (lia || reflexivity). discriminate.
      * destruct (dom w !! p) as [e|] eqn:He.
        -- rewrite IH. split.
           ++ intros Hall j q Hj Hq. destruct j as [| j].
              ** simpl in Hq. injection Hq as <-. exact Hbig.
              ** rewrite hop_shift in Hq. apply (Hall j q); [lia | exact Hq].
           ++ intros Hall j q Hj Hq. apply (Hall (S j) q); [lia |].
              rewrite hop_shift. exact Hq.
        -- split; [| reflexivity]. intros _ j q Hj Hq. destruct j as [| j].
           ++ simpl in Hq. injection Hq as <-. exact Hbig.
           ++ rewrite hop_shift in Hq. simpl in Hq. unfold parentOf in Hq.
              rewrite He in Hq. simpl in Hq. rewrite hop_None in Hq. discriminate.
    + rewrite containerWalk_None_arg. split; [| reflexivity].
      intros _ j q _ Hq. rewrite hop_None in Hq. discriminate.
Qed.

(** X1. [findVideoContainer] returns the nearest of the ten closest
    ancestors whose client height and width both exceed 200, the immediate
    parent when none of them does, and nothing only for a video without a
    parent. *)
Theorem findVideoContainer_nearest_large (w : World) (video c : NodeId) :
  (findVideoContainer w video = None <-> parentOf w video = None)
  /\ (findVideoContainer w video = Some c <->
      (exists k, (k < 10)%nat /\ ancestorAt k w video = Some c
                 /\ bigEnough w c = true
                 /\ forall j q, (j < k)%nat -> ancestorAt j w video = Some q ->
                                bigEnough w q = false)
      \/ (parentOf w video = Some c
          /\ forall j q, (j < 10)%nat -> ancestorAt j w video = Some q ->
                         bigEnough w q = false)).
Proof.
  unfold findVideoContainer.
  destruct (containerWalk 10 w (parentOf w video)) as [c'|] eqn:E.
  - pose proof E as E'. apply containerWalk_Some in E'.
    destruct E' as (k & Hk & Hh & Hc & Hmin). split.
    + split; [discriminate |]. intros Hp. rewrite Hp, hop_None in Hh. discriminate.
    + split.
      * intros Ec. injection Ec as <-. left. exists k.
        split; [exact Hk |]. rewrite ancestorAt_hop. split; [exact Hh |].
        split; [exact Hc |]. intros j q Hj Hq. rewrite ancestorAt_hop in Hq.
        apply (Hmin j q Hj Hq).
      * intros [(k2 & Hk2 & Hh2 & Hc2 & Hmin2) | (_ & Hall)].
        -- f_equal. rewrite ancestorAt_hop in Hh2.
           assert (E2 : containerWalk 10 w (parentOf w video) = Some c).
           { apply containerWalk_Some. exists k2. split; [exact Hk2 |].
             split; [exact Hh2 |]. split; [exact Hc2 |].
             intros j q Hj Hq. apply (Hmin2 j q Hj). rewrite ancestorAt_hop. exact Hq. }
           congruence.
        -- specialize (Hall k c' Hk). rewrite ancestorAt_hop in Hall.
           rewrite (Hall Hh) in Hc. discriminate.
  - pose proof E as E'. rewrite containerWalk_None in E'. split; [reflexivity |].
    split.
    + intros Hp. right. split; [exact Hp |].
      intros j q Hj Hq. rewrite ancestorAt_hop in Hq. apply (E' j q Hj Hq).
    + intros [(k2 & Hk2 & Hh2 & Hc2 & _) | (Hp & _)]; [| exact Hp].
      rewrite ancestorAt_hop in Hh2. rewrite (E' k2 c Hk2 Hh2) in Hc2. discriminate.
Qed.

(* ===================================================================== *)
(** ** Menu items in sequence                                             *)
(* ===================================================================== *)

Lemma mod360_quarter (x : Z) : (90 | x) -> quarterAngle (x mod 360).
Proof.
  intros [k ->]. replace (k * 90) with (90 * k) by ring.
  change 360 with (90 * 4). rewrite Zmult_mod_distr_l.
  pose proof (Z.mod_pos_bound k 4 ltac:(lia)) as Hb. unfold quarterAngle. lia.
Qed.

Lemma menuItems_increment item :
  item ∈ menuItems -> (90 | itemIncrement item).
Proof.
  unfold menuItems. intros H.
  repeat (apply elem_of_cons in H; destruct H as [-> | H]);
    [exists (-1) | exists 1 | exists 0 | apply elem_of_nil in H; contradiction];
    reflexivity.
Qed.

Lemma menuAction_step video rw item w :
  rotationWidgets w !! video = Some rw ->
  0 <= rotationOf w video < 360 ->
  rotationOf (menuAction video item w) video
  = (rotationOf w video + itemIncrement item) mod 360
  /\ flipOf (menuAction video item w) video
     = xorb (itemFlips item) (flipOf w video)
  /\ rotationWidgets (menuAction video item w) !! video = Some rw.
Proof.
  intros Hw Hr. unfold menuAction. rewrite Hw.
  unfold itemIncrement, itemFlips.
  destruct (item_isFlip item) as [b|] eqn:Hflip.
  - destruct (handleItemAction_flip video rw item b w Hflip) as (Hf & Hwid & Hrot).
    unfold rotationOf, flipOf. rewrite Hf, Hwid, Hrot. simpl.
    fold (rotationOf w video). rewrite Z.add_0_r, Z.mod_small by lia.
    split; [reflexivity |]. split; [reflexivity | exact Hw].
  - destruct (handleItemAction_rotation video rw item w Hflip) as (Hrot & Hwid & Hf).
    unfold rotationOf at 1. unfold flipOf. rewrite Hrot, Hwid, Hf. simpl.
    split; [reflexivity |]. split; [reflexivity | exact Hw].
Qed.

(** X2. Menu items applied in any order: the angle is the start angle plus
    the sum of the items' increments modulo 360, the flip flag is the start
    flag reversed once per flip item, and neither kind of item disturbs the
    other's state; an angle among 0, 90, 180, 270 stays among them, and a
    right turn followed by a left turn gives the angle back. *)
Theorem menu_items_compose (w : World) (video : NodeId) (rw : RotationWidget)
    (items : list MenuItem) :
  rotationWidgets w !! video = Some rw ->
  0 <= rotationOf w video < 360 ->
  rotationOf (applyItems video items w) video
  = (rotationOf w video + sumIncrements items) mod 360
  /\ flipOf (applyItems video items w) video
     = xorb (flipParity items) (flipOf w video)
  /\ (quarterAngle (rotationOf w video) ->
      Forall (fun item => item ∈ menuItems) items ->
      quarterAngle (rotationOf (applyItems video items w) video))
  /\ rotationOf (applyItems video [itemRotateRight; itemRotateLeft] w) video
     = rotationOf w video.
Proof.
  intros Hw Hr.
  assert (Hgen : forall l w0,
            rotationWidgets w0 !! video = Some rw ->
            0 <= rotationOf w0 video < 360 ->
            rotationOf (applyItems video l w0) video
            = (rotationOf w0 video + sumIncrements l) mod 360
            /\ flipOf (applyItems video l w0) video
               = xorb (flipParity l) (flipOf w0 video)).
  { induction l as [| item l IH]; intros w0 Hw0 Hr0.
    - simpl. rewrite Z.add_0_r, Z.mod_small by lia. split; reflexivity.
    - change (applyItems video (item :: l) w0)
        with (applyItems video l (menuAction video item w0)).
      destruct (menuAction_step video rw item w0 Hw0 Hr0) as (E1 & E2 & E3).
      destruct (IH (menuAction video item w0) E3) as [IH1 IH2].
      { rewrite E1. apply Z.mod_pos_bound. lia. }
      rewrite IH1, IH2, E1, E2. simpl. split.
      + rewrite Zplus_mod_idemp_l. f_equal. ring.
      + destruct (itemFlips item), (flipParity l), (flipOf w0 video); reflexivity. }
  destruct (Hgen items w Hw Hr) as [H1 H2].
  split; [exact H1 |]. split; [exact H2 |]. split.
  - intros Hq Hall. rewrite H1. apply mod360_quarter.
    apply Z.divide_add_r.
    + destruct Hq as [-> | [-> | [-> | ->]]];
        [exists 0 | exists 1 | exists 2 | exists 3]; reflexivity.
    + clear -Hall. induction Hall as [| item l Hin _ IH]; simpl.
      * exists 0. reflexivity.
      * apply Z.divide_add_r; [apply menuItems_increment, Hin | exact IH].
  - destruct (Hgen [itemRotateRight; itemRotateLeft] w Hw Hr) as [E _].
    rewrite E. simpl. rewrite Z.add_0_r, Z.mod_small by lia. reflexivity.
Qed.

Lemma menu_items_compose_witness :
  rotationOf
    (applyItems Sample.vid [itemRotateLeft; itemFlip; itemRotateLeft; itemFlip; itemFlip]
       Sample.started) Sample.vid = 180
  /\ flipOf
       (applyItems Sample.vid [itemRotateLeft; itemFlip; itemRotateLeft; itemFlip; itemFlip]
          Sample.started) Sample.vid = true.
Proof.
  destruct (menu_items_compose Sample.started Sample.vid
              (mkRotationWidget 2%nat 18%nat 19%nat)
              [itemRotateLeft; itemFlip; itemRotateLeft; itemFlip; itemFlip])
    as (H1 & H2 & _).
  - vm_compute. reflexivity.
  - assert (E : rotationOf Sample.started Sample.vid = 0) by (vm_compute; reflexivity).
    rewrite E. lia.
  - rewrite H1, H2. split; vm_compute; reflexivity.
Defined.

(* ===================================================================== *)
(** ** Volume enforcement and the mute button                             *)
(* ===================================================================== *)

Lemma Qabs_diff_self (q : Q) : (Qabs (q - q) <= 1 # 100)%Q.
Proof.
  assert (E : (q - q == 0)%Q) by ring. rewrite E. discriminate.
Qed.

Lemma intent_updMedia v f w :
  intendedVolume (updMedia v f w) = intendedVolume w
  /\ intendedMuted (updMedia v f w) = intendedMuted w.
Proof. split; reflexivity. Qed.

Lemma enforce_cases w video iv im m :
  intendedVolume w !! video = Some iv ->
  intendedMuted w !! video = Some im ->
  mediaOf w video = Some m ->
  (((1 # 100 < Qabs (volume m - iv))%Q \/ muted m <> im)
   /\ enforceVolumeState video w
      = updMedia video (upd_muted (fun _ => im))
          (updMedia video (upd_volume (fun _ => iv)) w))
  \/ ((Qabs (volume m - iv) <= 1 # 100)%Q /\ muted m = im
      /\ enforceVolumeState video w = w).
Proof.
  intros Hiv Him Hm. unfold enforceVolumeState. rewrite Hiv, Him, Hm.
  destruct (Qlt_le_dec (1 # 100) (Qabs (volume m - iv))) as [Hlt | Hle].
  - left. split; [left; exact Hlt | reflexivity].
  - destruct (eqb (muted m) im) eqn:Heq.
    + right. apply eqb_prop in Heq. repeat split; assumption.
    + left. split; [| reflexivity]. right. intros E.
      rewrite E, eqb_reflx in Heq. discriminate.
Qed.

(** X3. With an intent recorded for a video, enforcement leaves its
    volume within 0.01 of the intended one and its mute flag equal to the
    intended one: it writes the intent when the volume has drifted by more
    than 0.01 or the mute flag differs, and changes nothing otherwise.  It
    touches no other media state, is idempotent, and does nothing for a
    video without a recorded intent. *)
Theorem enforce_restores_intent (w : World) (video : NodeId) (iv : Q)
    (im : bool) (m : Media) :
  ((intendedVolume w !! video = None \/ intendedMuted w !! video = None) ->
   enforceVolumeState video w = w)
  /\ (intendedVolume w !! video = Some iv ->
      intendedMuted w !! video = Some im ->
      mediaOf w video = Some m ->
      let w' := enforceVolumeState video w in
      exists m',
        mediaOf w' video = Some m'
        /\ muted m' = im
        /\ (Qabs (volume m' - iv) <= 1 # 100)%Q
        /\ ((1 # 100 < Qabs (volume m - iv))%Q \/ muted m <> im ->
            volume m' = iv)
        /\ ((Qabs (volume m - iv) <= 1 # 100)%Q -> muted m = im -> w' = w)
        /\ m' = upd_muted (fun _ => muted m') (upd_volume (fun _ => volume m') m)
        /\ enforceVolumeState video w' = w').
Proof.
  split.
  - intros [H | H]; unfold enforceVolumeState; rewrite H; [reflexivity |].
    destruct (intendedVolume w !! video); reflexivity.
  - intros Hiv Him Hm. cbv zeta.
    destruct (enforce_cases w video iv im m Hiv Him Hm)
      as [(Hdrift & ->) | (Hle & Heq & ->)].
    + set (w' := updMedia video (upd_muted (fun _ => im))
                   (updMedia video (upd_volume (fun _ => iv)) w)).
      assert (Hm' : mediaOf w' video
                    = Some (upd_muted (fun _ => im) (upd_volume (fun _ => iv) m))).
      { subst w'. rewrite !mediaOf_updMedia, !decide_True by reflexivity.
        rewrite Hm. reflexivity. }
      exists (upd_muted (fun _ => im) (upd_volume (fun _ => iv) m)).
      split; [exact Hm' |]. split; [reflexivity |].
      split; [apply Qabs_diff_self |]. split; [reflexivity |]. split.
      { intros Hle Heq. exfalso. destruct Hdrift as [Hlt | Hne];
          [apply (Qlt_not_le _ _ Hlt Hle) | contradiction]. }
      split; [reflexivity |].
      apply (enforce_noop video w'
               (upd_muted (fun _ => im) (upd_volume (fun _ => iv) m)));
        [exact Hiv | exact Him | exact Hm'].
    + exists m.
      split; [exact Hm |]. split; [exact Heq |]. split; [exact Hle |]. split.
      { intros [Hlt | Hne]; [exfalso; apply (Qlt_not_le _ _ Hlt Hle) | contradiction]. }
      split; [reflexivity |]. split; [destruct m; reflexivity |].
      destruct (enforce_cases w video iv im m Hiv Him Hm)
        as [([Hlt | Hne] & _) | (_ & _ & E)];
        [exfalso; apply (Qlt_not_le _ _ Hlt Hle) | contradiction | exact E].
Qed.

Lemma enforce_restores_intent_witness :
  let w := updMedia Sample.vid (upd_volume (fun _ => 0%Q)) Sample.started in
  volume <$> mediaOf w Sample.vid = Some 0%Q
  /\ volume <$> mediaOf (enforceVolumeState Sample.vid w) Sample.vid = Some 1%Q.
Proof.
  cbv zeta. split; [vm_compute; reflexivity |].
  destruct (enforce_restores_intent
              (updMedia Sample.vid (upd_volume (fun _ => 0%Q)) Sample.started)
              Sample.vid 1 false
              (upd_volume (fun _ => 0%Q)
                 (upd_controls (fun _ => false) Sample.videoMedia)))
    as (_ & H).
  destruct H as (m' & Hm' & _ & _ & Hv & _).
  - vm_compute. reflexivity.
  - vm_compute. reflexivity.
  - vm_compute. reflexivity.
  - rewrite Hm'. simpl. f_equal. apply Hv. left. vm_compute. reflexivity.
Defined.

(** X4. A click on the volume button reverses the mute flag, keeps the
    volume and every other media state, and records both as the intent, so
    that enforcement leaves the result alone; a second click gives the
    media state back. *)
Theorem volume_button_toggles_mute (w : World) (video : NodeId) (m : Media) :
  mediaOf w video = Some m ->
  let w' := volumeBtnClick video w in
  mediaOf w' video = Some (upd_muted negb m)
  /\ intendedMuted w' !! video = Some (negb (muted m))
  /\ intendedVolume w' !! video = Some (volume m)
  /\ enforceVolumeState video w' = w'
  /\ mediaOf (volumeBtnClick video w') video = Some m.
Proof.
  intros Hm. cbv zeta.
  assert (H1 : mediaOf (volumeBtnClick video w) video = Some (upd_muted negb m)).
  { unfold volumeBtnClick. rewrite Hm.
    rewrite mediaOf_updMedia, decide_True by reflexivity.
    change (mediaOf _ video) with (mediaOf w video). rewrite Hm. reflexivity. }
  assert (H2 : intendedMuted (volumeBtnClick video w) !! video = Some (negb (muted m))).
  { unfold volumeBtnClick. rewrite Hm. simpl. apply lookup_insert_eq. }
  assert (H3 : intendedVolume (volumeBtnClick video w) !! video = Some (volume m)).
  { unfold volumeBtnClick. rewrite Hm. simpl. apply lookup_insert_eq. }
  split; [exact H1 |]. split; [exact H2 |]. split; [exact H3 |]. split.
  - apply (enforce_noop video _ (upd_muted negb m)); assumption.
  - unfold volumeBtnClick at 1. rewrite H1.
    rewrite mediaOf_updMedia, decide_True by reflexivity.
    change (mediaOf (upd_intendedVolume _ (upd_intendedMuted _ ?x)) video)
      with (mediaOf x video).
    rewrite H1. simpl. destruct m; simpl. rewrite negb_involutive. reflexivity.
Qed.

Lemma volume_button_toggles_mute_witness :
  muted <$> mediaOf (volumeBtnClick Sample.vid Sample.started) Sample.vid
  = Some true.
Proof.
  destruct (volume_button_toggles_mute Sample.started Sample.vid
              (upd_controls (fun _ => false) Sample.videoMedia)) as (H & _).
  - vm_compute. reflexivity.
  - rewrite H. reflexivity.
Defined.

(* ===================================================================== *)
(** ** Seeking                                                            *)
(* ===================================================================== *)

Lemma trackPos_nonzero_width (rectWidth : Q) :
  ~ (rectWidth == 0)%Q -> Qeq_bool rectWidth 0 = false.
Proof.
  intros H. destruct (Qeq_bool rectWidth 0) eqn:E; [| reflexivity].
  apply Qeq_bool_iff in E. contradiction.
Qed.

Lemma upd_dom_ext f g w : f (dom w) = g (dom w) -> upd_dom f w = upd_dom g w.
Proof. unfold upd_dom. intros ->. reflexivity. Qed.

(** Two writes to the media state of one element: the outer function sees
    the result of the inner one. *)
Lemma updMedia_updMedia v f g w :
  updMedia v f (updMedia v g w) = updMedia v (fun m => f (g m)) w.
Proof.
  change (updMedia v f (updMedia v g w))
    with (upd_dom (fun d => alter (upd_media (fmap f)) v
                              (alter (upd_media (fmap g)) v d)) w).
  apply upd_dom_ext. rewrite alter_alter_eq. apply alter_ext. intros e _.
  destruct e as [? ? ? ? ? ? ? ? ? ? [md|]]; reflexivity.
Qed.

Lemma handleSeek_finite w video m d clientX rectLeft rectWidth :
  mediaOf w video = Some m -> duration m = Fin d -> ~ (rectWidth == 0)%Q ->
  handleSeek video clientX rectLeft rectWidth w
  = updMedia video
      (upd_currentTime (fun _ => trackPos clientX rectLeft rectWidth * d)%Q) w.
Proof.
  intros Hm Hd Hw. unfold handleSeek.
  rewrite (trackPos_nonzero_width rectWidth Hw), Hm, Hd. reflexivity.
Qed.

(** A later seek overrides an earlier one. *)
Lemma handleSeek_last_wins w video x1 x2 rectLeft rectWidth :
  handleSeek video x2 rectLeft rectWidth (handleSeek video x1 rectLeft rectWidth w)
  = handleSeek video x2 rectLeft rectWidth w.
Proof.
  destruct (Qeq_bool rectWidth 0) eqn:Hw.
  { unfold handleSeek. rewrite Hw. reflexivity. }
  assert (Hw' : ~ (rectWidth == 0)%Q).
  { intros E. apply Qeq_bool_iff in E. congruence. }
  destruct (mediaOf w video) as [m|] eqn:Hm.
  - destruct (duration m) as [d| | |] eqn:Hd.
    + rewrite (handleSeek_finite w video m d x1 _ _ Hm Hd Hw').
      rewrite (handleSeek_finite w video m d x2 _ _ Hm Hd Hw').
      rewrite (handleSeek_finite _ video
                 (upd_currentTime (fun _ => trackPos x1 rectLeft rectWidth * d)%Q m)
                 d x2 rectLeft rectWidth); [| | exact Hd | exact Hw'].
      * rewrite updMedia_updMedia. reflexivity.
      * rewrite mediaOf_updMedia, decide_True by reflexivity. rewrite Hm. reflexivity.
    + assert (E : forall x, handleSeek video x rectLeft rectWidth w = w)
        by (intros x; unfold handleSeek; rewrite Hw, Hm, Hd; reflexivity).
      rewrite !E. reflexivity.
    + assert (E : forall x, handleSeek video x rectLeft rectWidth w = w).
      { intros x. unfold handleSeek. rewrite Hw, Hm, Hd. unfold jsMul.
        destruct (Qeq_bool (trackPos x rectLeft rectWidth) 0); [reflexivity |].
        destruct (Qlt_le_dec 0 (trackPos x rectLeft rectWidth)); reflexivity. }
      rewrite !E. reflexivity.
    + assert (E : forall x, handleSeek video x rectLeft rectWidth w = w).
      { intros x. unfold handleSeek. rewrite Hw, Hm, Hd. unfold jsMul.
        destruct (Qeq_bool (trackPos x rectLeft rectWidth) 0); [reflexivity |].
        destruct (Qlt_le_dec 0 (trackPos x rectLeft rectWidth)); reflexivity. }
      rewrite !E. reflexivity.
  - assert (E : forall x, handleSeek video x rectLeft rectWidth w = w)
      by (intros x; unfold handleSeek; rewrite Hw, Hm; reflexivity).
    rewrite !E. reflexivity.
Qed.

Lemma trackPos_times_duration pos d :
  (0 <= pos <= 1)%Q -> (0 <= d)%Q -> (0 <= pos * d <= d)%Q.
Proof.
  intros [H0 H1] Hd. split.
  - apply Qmult_le_0_compat; assumption.
  - apply Qle_trans with (1 * d)%Q.
    + apply Qmult_le_compat_r; assumption.
    + rewrite Qmult_1_l. apply Qle_refl.
Qed.

Lemma progressPercent_positive cur d :
  (0 < d)%Q ->
  (progressPercent cur (Js.orElse (Fin d) (Fin 0)) == cur / d * 100)%Q.
Proof.
  intros Hd. unfold Js.orElse, Js.truthy.
  destruct (Qeq_bool d 0) eqn:E.
  - apply Qeq_bool_iff in E. rewrite E in Hd. discriminate.
  - simpl. destruct (Qlt_le_dec 0 d) as [_ | Hle]; simpl; [reflexivity |].
    exfalso. apply (Qlt_not_le _ _ Hd Hle).
Qed.

(** X5. A seek on a track of non-zero width moves the current time to
    [pos] times the duration, where [pos] is the pointer fraction
    (clientX - left) / width clamped to [0,1]: 0 for a fraction at or below
    0, 1 for one at or above 1, the fraction itself in between.  The new
    time lies between 0 and the duration, no other media state changes, and
    the progress fill computed afterwards is [pos] in percent.  A seek does
    nothing on a track of zero width or while the duration is not finite. *)
Theorem seek_within_duration (w : World) (video : NodeId) (m : Media)
    (clientX rectLeft rectWidth : Q) :
  mediaOf w video = Some m ->
  let pos := trackPos clientX rectLeft rectWidth in
  let w' := handleSeek video clientX rectLeft rectWidth w in
  clampedTo01 (pointerFraction clientX rectLeft rectWidth) pos
  /\ ((rectWidth == 0)%Q \/ Js.isFinite (duration m) = false -> w' = w)
  /\ (forall d, duration m = Fin d -> ~ (rectWidth == 0)%Q -> (0 <= d)%Q ->
        mediaOf w' video = Some (upd_currentTime (fun _ => pos * d)%Q m)
        /\ (0 <= pos * d <= d)%Q
        /\ ((0 < d)%Q ->
            (progressPercent (pos * d) (Js.orElse (duration m) (Fin 0))
             == pos * 100)%Q)).
Proof.
  intros Hm. cbv zeta. split; [apply trackPos_clamped |]. split.
  - intros [Hw | Hfin]; unfold handleSeek.
    + apply Qeq_bool_iff in Hw. rewrite Hw. reflexivity.
    + destruct (Qeq_bool rectWidth 0); [reflexivity |]. rewrite Hm.
      destruct (duration m) as [d| | |]; simpl in Hfin; try discriminate;
        unfold jsMul; try reflexivity;
        (destruct (Qeq_bool (trackPos clientX rectLeft rectWidth) 0);
         [reflexivity |];
         destruct (Qlt_le_dec 0 (trackPos clientX rectLeft rectWidth));
         reflexivity).
  - intros d Hd Hw Hd0.
    rewrite (handleSeek_finite w video m d _ _ _ Hm Hd Hw).
    split; [| split].
    + rewrite mediaOf_updMedia, decide_True by reflexivity. rewrite Hm. reflexivity.
    + apply trackPos_times_duration; [apply trackPos_range | exact Hd0].
    + intros Hpos. rewrite Hd, (progressPercent_positive _ d Hpos).
      field. intros E. rewrite E in Hpos. discriminate.
Qed.

Lemma seek_within_duration_witness :
  currentTime <$> mediaOf (handleSeek Sample.vid 130 100 60 Sample.started) Sample.vid
  = Some (trackPos 130 100 60 * 90)%Q
  /\ (trackPos 130 100 60 == 1 # 2)%Q.
Proof.
  destruct (seek_within_duration Sample.started Sample.vid
              (upd_controls (fun _ => false) Sample.videoMedia) 130 100 60)
    as ((_ & _ & Hc) & _ & H).
  - vm_compute. reflexivity.
  - split.
    + destruct (H 90%Q) as (E & _).
      * reflexivity.
      * intros E. vm_compute in E. discriminate.
      * discriminate.
      * rewrite E. reflexivity.
    + rewrite Hc; [reflexivity |]. split; discriminate.
Defined.

Lemma iter_handleSeek n w video x rectLeft rectWidth :
  Nat.iter (S n) (handleSeek video x rectLeft rectWidth) w
  = handleSeek video x rectLeft rectWidth w.
Proof.
  induction n as [| n IH]; [reflexivity |].
  change (Nat.iter (S (S n)) (handleSeek video x rectLeft rectWidth) w)
    with (handleSeek video x rectLeft rectWidth
            (Nat.iter (S n) (handleSeek video x rectLeft rectWidth) w)).
  rewrite IH. apply handleSeek_last_wins.
Qed.

Lemma last_default (q : Q) (xs : list Q) (a b : Q) :
  List.last (q :: xs) a = List.last (q :: xs) b.
Proof.
  revert q. induction xs as [| y xs IH]; intros q; [reflexivity |].
  change (List.last (q :: y :: xs) a) with (List.last (y :: xs) a).
  change (List.last (q :: y :: xs) b) with (List.last (y :: xs) b).
  apply IH.
Qed.

Lemma seek_moves w video rectLeft rectWidth n x0 xs :
  foldl (seekStep video rectLeft rectWidth)
    (S n, handleSeek video x0 rectLeft rectWidth w) (map SeekMove xs)
  = (S n, handleSeek video (List.last xs x0) rectLeft rectWidth w).
Proof.
  revert x0. induction xs as [| x1 xs IH]; intros x0; [reflexivity |].
  cbn [map foldl seekStep]. rewrite iter_handleSeek, handleSeek_last_wins, IH.
  f_equal. f_equal. destruct xs as [| q xs]; [reflexivity |].
  change (List.last (x1 :: q :: xs) x0) with (List.last (q :: xs) x0).
  apply last_default.
Qed.

(** X6. A seek gesture (press, any pointer moves, release) leaves the
    video where a single seek at the last pointer position would, and
    leaves no listener behind: pointer moves after the release, or without
    a press, change nothing; while pressed, a move seeks once however many
    listener pairs earlier presses have left. *)
Theorem seek_gesture_last_position (w : World) (video : NodeId)
    (rectLeft rectWidth x0 : Q) (xs : list Q) (n : nat) (x : Q) :
  foldl (seekStep video rectLeft rectWidth) (O, w)
    (SeekDown x0 :: map SeekMove xs ++ [SeekUp])
  = (O, handleSeek video (List.last xs x0) rectLeft rectWidth w)
  /\ foldl (seekStep video rectLeft rectWidth) (O, w)
       (SeekDown x0 :: map SeekMove xs ++ [SeekUp; SeekMove x])
     = (O, handleSeek video (List.last xs x0) rectLeft rectWidth w)
  /\ seekStep video rectLeft rectWidth (O, w) (SeekMove x) = (O, w)
  /\ seekStep video rectLeft rectWidth (S n, w) (SeekMove x)
     = (S n, handleSeek video x rectLeft rectWidth w).
Proof.
  split; [| split; [| split]].
  - cbn [foldl seekStep]. rewrite foldl_app, seek_moves. reflexivity.
  - cbn [foldl seekStep]. rewrite foldl_app, seek_moves. reflexivity.
  - reflexivity.
  - cbn [seekStep]. rewrite iter_handleSeek. reflexivity.
Qed.

(* ===================================================================== *)
(** ** Play and pause                                                     *)
(* ===================================================================== *)

(** X7. A click on the video and a click on the play button do the same:
    a playing video is paused; a paused one starts when the platform
    accepts the request and stays as it is when the request is rejected.
    Two accepted clicks give the media state back. *)
Theorem click_toggles_playback (w : World) (video : NodeId) (m : Media)
    (granted : bool) :
  mediaOf w video = Some m ->
  nativeClick video granted w = togglePlay video granted w
  /\ (paused m = false ->
      mediaOf (nativeClick video granted w) video
      = Some (upd_paused (fun _ => true) m))
  /\ (paused m = true ->
      mediaOf (nativeClick video true w) video
      = Some (upd_paused (fun _ => false) m)
      /\ nativeClick video false w = w)
  /\ mediaOf (nativeClick video true (nativeClick video true w)) video = Some m.
Proof.
  intros Hm. split; [reflexivity |].
  assert (Hstep : forall w0 m0, mediaOf w0 video = Some m0 ->
            mediaOf (nativeClick video true w0) video = Some (upd_paused negb m0)).
  { intros w0 m0 H0. unfold nativeClick. rewrite H0.
    destruct (paused m0) eqn:Hp;
      rewrite mediaOf_updMedia, decide_True by reflexivity;
      rewrite H0; destruct m0; simpl in *; rewrite Hp; reflexivity. }
  split; [| split].
  - intros Hp. unfold nativeClick. rewrite Hm, Hp.
    rewrite mediaOf_updMedia, decide_True by reflexivity. rewrite Hm. reflexivity.
  - intros Hp. split.
    + unfold nativeClick. rewrite Hm, Hp.
      rewrite mediaOf_updMedia, decide_True by reflexivity. rewrite Hm. reflexivity.
    + unfold nativeClick. rewrite Hm, Hp. reflexivity.
  - rewrite (Hstep _ _ (Hstep w m Hm)).
    destruct m as [c v mu p ct du vw vh]. destruct p; reflexivity.
Qed.

Lemma click_toggles_playback_witness :
  paused <$> mediaOf (nativeClick Sample.vid true Sample.started) Sample.vid
  = Some false.
Proof.
  destruct (click_toggles_playback Sample.started Sample.vid
              (upd_controls (fun _ => false) Sample.videoMedia) true)
    as (_ & _ & H & _).
  - vm_compute. reflexivity.
  - destruct H as [E _]; [reflexivity |]. rewrite E. reflexivity.
Defined.

(* ===================================================================== *)
(** ** What building the overlay leaves alone                             *)
(* ===================================================================== *)

Section Builds.

Lemma kept_fields w w' :
  kept w' = kept w ->
  processedVideos w' = processedVideos w /\ observer w' = observer w
  /\ rotationStates w' = rotationStates w /\ flipStates w' = flipStates w
  /\ isEnabled w' = isEnabled w /\ intendedVolume w' = intendedVolume w
  /\ intendedMuted w' = intendedMuted w
  /\ documentElement w' = documentElement w /\ body w' = body w
  /\ pathname w' = pathname w /\ fullscreenElement w' = fullscreenElement w
  /\ innerWidth w' = innerWidth w /\ innerHeight w' = innerHeight w.
Proof.
  unfold kept. intros H.
  injection H as H1 H2 H3 H4 H5 H6 H7 H8 H9 H10 H11 H12 H13.
  repeat split; assumption.
Qed.

Lemma builds_refl w : builds w w.
Proof. split; [reflexivity |]. split; [lia | reflexivity]. Qed.

Lemma builds_trans w1 w2 w3 : builds w1 w2 -> builds w2 w3 -> builds w1 w3.
Proof.
  intros (K1 & N1 & M1) (K2 & N2 & M2). split; [congruence |].
  split; [lia |]. intros x Hx. rewrite M2 by lia. apply M1, Hx.
Qed.

Lemma mediaSlot_updElem_keep n f w x :
  (forall e, media (f e) = media e) ->
  mediaSlot (updElem n f w) x = mediaSlot w x.
Proof.
  intros Hf. unfold mediaSlot. rewrite dom_updElem.
  destruct (decide (n = x)); [| reflexivity].
  destruct (dom w !! x) as [el|]; simpl; [rewrite Hf |]; reflexivity.
Qed.

Lemma builds_updElem n f w :
  (forall e, media (f e) = media e) -> builds w (updElem n f w).
Proof.
  intros Hf. split; [reflexivity |]. split; [simpl; lia |].
  intros x _. apply mediaSlot_updElem_keep, Hf.
Qed.

Lemma builds_removeChild p c w : builds w (removeChild p c w).
Proof.
  unfold removeChild.
  eapply builds_trans; apply builds_updElem; reflexivity.
Qed.

Lemma builds_appendChild p c w : builds w (appendChild p c w).
Proof.
  unfold appendChild.
  eapply builds_trans; [| apply builds_updElem; reflexivity].
  eapply builds_trans; [| apply builds_updElem; reflexivity].
  destruct (parentOf w c); [apply builds_removeChild | apply builds_refl].
Qed.

Lemma builds_createElement tag w x w' :
  createElement tag w = (x, w') -> builds w w'.
Proof.
  unfold createElement. intros E. injection E as _ <-.
  split; [reflexivity |]. split; [simpl; lia |].
  intros y Hy. unfold mediaSlot. simpl.
  rewrite lookup_insert_ne by lia. reflexivity.
Qed.

Lemma builds_upd_customControls f w : builds w (upd_customControls f w).
Proof. split; [reflexivity |]. split; [simpl; lia | reflexivity]. Qed.

Lemma builds_upd_barWidgets f w : builds w (upd_barWidgets f w).
Proof. split; [reflexivity |]. split; [simpl; lia | reflexivity]. Qed.

Lemma builds_upd_rotationWidgets f w : builds w (upd_rotationWidgets f w).
Proof. split; [reflexivity |]. split; [simpl; lia | reflexivity]. Qed.

Lemma builds_updateVolumeUI v bw w : builds w (updateVolumeUI v bw w).
Proof.
  unfold updateVolumeUI, setStyle, setContent.
  destruct (mediaOf w v); [| apply builds_refl].
  eapply builds_trans; apply builds_updElem; reflexivity.
Qed.

(** Peel the writes off the world on the right, innermost last. *)
Ltac builds_step :=
  lazymatch goal with
  | |- builds ?a ?b =>
      first
        [ constr_eq a b; apply builds_refl
        | lazymatch b with
          | appendChild _ _ _ => eapply builds_trans; [| apply builds_appendChild]
          | updElem _ _ _ =>
              eapply builds_trans; [| apply builds_updElem; reflexivity]
          | updateVolumeUI _ _ _ =>
              eapply builds_trans; [| apply builds_updateVolumeUI]
          | upd_customControls _ _ =>
              eapply builds_trans; [| apply builds_upd_customControls]
          | upd_barWidgets _ _ =>
              eapply builds_trans; [| apply builds_upd_barWidgets]
          | upd_rotationWidgets _ _ =>
              eapply builds_trans; [| apply builds_upd_rotationWidgets]
          | _ =>
              match goal with
              | E : builds ?c b |- _ => eapply builds_trans; [| exact E]
              end
          end ]
  end.

Ltac builds_chain := repeat builds_step.

(** Name the result of each [createElement], oldest first. *)
Ltac builds_alloc :=
  repeat (cbv zeta;
          match goal with
          | |- context [createElement ?t ?w0] =>
              let E := fresh "E" in
              destruct (createElement t w0) as [? ?] eqn:E;
              apply builds_createElement in E
          end).

Lemma builds_addMenuItem menu w item : builds w (addMenuItem menu w item).
Proof.
  unfold addMenuItem, setClassName, setContent, setAttribute.
  builds_alloc. cbv zeta. builds_chain.
Qed.

Lemma builds_addCustomControls v w : builds w (addCustomControls v w).
Proof.
  unfold addCustomControls.
  destruct (findVideoContainer w v); [| apply builds_refl].
  unfold setClassName, setStyle, setContent, setAttribute.
  builds_alloc. cbv zeta. builds_chain.
Qed.

Lemma builds_addRotationButton v w : builds w (addRotationButton v w).
Proof.
  unfold addRotationButton.
  destruct (findVideoContainer w v) as [c|]; [| apply builds_refl].
  unfold setClassName, setStyle, setContent, setAttribute, menuItems.
  set (w0 := if bool_decide _ then _ else w).
  assert (H0 : builds w w0).
  { subst w0. destruct (bool_decide _); [| apply builds_refl].
    apply builds_updElem. reflexivity. }
  clearbody w0. simpl foldl.
  builds_alloc. cbv zeta.
  repeat first
    [ builds_step
    | lazymatch goal with
      | |- builds _ (addMenuItem _ _ _) =>
          eapply builds_trans; [| apply builds_addMenuItem]
      end ].
Qed.

End Builds.

(* ===================================================================== *)
(** ** Enhancement of one video                                           *)
(* ===================================================================== *)

Lemma mediaOf_slot w w' x : mediaSlot w' x = mediaSlot w x -> mediaOf w' x = mediaOf w x.
Proof.
  unfold mediaSlot, mediaOf. intros H.
  destruct (dom w' !! x) as [e'|], (dom w !! x) as [e|]; simpl in *; congruence.
Qed.

Lemma enhanceVideo_cases3 w video :
  (enhanceVideo w video = w
   /\ (isEnabled w = false \/ (video ∈ processedVideos w)
       \/ isStoryVideo w video = true))
  \/ (isEnabled w = true /\ (video ∉ processedVideos w)
      /\ isStoryVideo w video = false
      /\ enhanceVideo w video
         = addRotationButton video (addCustomControls video (registered w video))).
Proof.
  unfold enhanceVideo.
  destruct (isEnabled w) eqn:He; simpl; [| left; split; [reflexivity | left; reflexivity]].
  case_bool_decide as Hin; [left; split; [reflexivity | right; left; exact Hin] |].
  destruct (isStoryVideo w video) eqn:Hs;
    [left; split; [reflexivity | right; right; reflexivity] |].
  right. split; [reflexivity |]. split; [exact Hin |]. split; reflexivity.
Qed.

Lemma builds_enhance w video :
  builds (registered w video)
    (addRotationButton video (addCustomControls video (registered w video))).
Proof.
  eapply builds_trans; [apply builds_addCustomControls | apply builds_addRotationButton].
Qed.

Lemma kept_registered w video :
  processedVideos (registered w video) = processedVideos w ∪ {[video]}
  /\ rotationStates (registered w video) = <[video := 0]> (rotationStates w)
  /\ flipStates (registered w video) = flipStates w
  /\ isEnabled (registered w video) = isEnabled w
  /\ observer (registered w video) = observer w
  /\ nextId (registered w video) = nextId w.
Proof.
  unfold registered. cbv zeta.
  match goal with |- context [match ?x with _ => _ end] => destruct x end;
    repeat split.
Qed.

(** X8. Enhancement of a video that is neither registered nor a story,
    while the preference is on: the video is registered with angle 0, its
    intended volume and mute flag are its live ones (so enforcement has
    nothing to restore), its native controls are switched off and the rest
    of its media state is kept; the flip flags, the registers of other
    videos, the preference and the observer are untouched. *)
Theorem enhance_registers_video (w : World) (video : NodeId) (m : Media) :
  isEnabled w = true ->
  video ∉ processedVideos w ->
  isStoryVideo w video = false ->
  mediaOf w video = Some m ->
  (video < nextId w)%nat ->
  let w' := enhanceVideo w video in
  processedVideos w' = processedVideos w ∪ {[video]}
  /\ rotationStates w' = <[video := 0]> (rotationStates w)
  /\ flipStates w' = flipStates w
  /\ intendedVolume w' = <[video := volume m]> (intendedVolume w)
  /\ intendedMuted w' = <[video := muted m]> (intendedMuted w)
  /\ mediaOf w' video = Some (upd_controls (fun _ => false) m)
  /\ enforceVolumeState video w' = w'
  /\ isEnabled w' = true /\ observer w' = observer w.
Proof.
  intros He Hin Hs Hm Hfresh. cbv zeta.
  destruct (enhanceVideo_cases3 w video)
    as [(_ & [H | [H | H]]) | (_ & _ & _ & ->)];
    [congruence | contradiction | congruence |].
  destruct (builds_enhance w video) as (K & _ & M).
  apply kept_fields in K.
  destruct K as (K1 & K2 & K3 & K4 & K5 & K6 & K7 & _).
  assert (Hreg : registered w video
                 = updMedia video (upd_controls (fun _ => false))
                     (upd_intendedMuted (fun i => <[video := muted m]> i)
                        (upd_intendedVolume (fun i => <[video := volume m]> i)
                           (upd_rotationStates (fun r => <[video := 0]> r)
                              (upd_processedVideos (fun s => s ∪ {[video]}) w))))).
  { unfold registered. cbv zeta.
    change (mediaOf (upd_rotationStates _ (upd_processedVideos _ w)) video)
      with (mediaOf w video). rewrite Hm. reflexivity. }
  assert (Hmedia : mediaOf
                     (addRotationButton video
                        (addCustomControls video (registered w video))) video
                   = Some (upd_controls (fun _ => false) m)).
  { rewrite (mediaOf_slot (registered w video)).
    - rewrite Hreg, mediaOf_updMedia, decide_True by reflexivity.
      change (mediaOf (upd_intendedMuted _ _) video) with (mediaOf w video).
      rewrite Hm. reflexivity.
    - apply M. rewrite Hreg. exact Hfresh. }
  assert (R6 : intendedVolume (registered w video)
               = <[video := volume m]> (intendedVolume w))
    by (rewrite Hreg; reflexivity).
  assert (R7 : intendedMuted (registered w video)
               = <[video := muted m]> (intendedMuted w))
    by (rewrite Hreg; reflexivity).
  destruct (kept_registered w video) as (R1 & R3 & R4 & R5 & R2 & _).
  split; [rewrite K1; exact R1 |]. split; [rewrite K3; exact R3 |].
  split; [rewrite K4; exact R4 |]. split; [rewrite K6; exact R6 |].
  split; [rewrite K7; exact R7 |]. split; [exact Hmedia |].
  split; [| split; [rewrite K5, R5; exact He | rewrite K2; exact R2]].
  apply (enforce_noop video _ (upd_controls (fun _ => false) m)).
  - rewrite K6, R6. apply lookup_insert_eq.
  - rewrite K7, R7. apply lookup_insert_eq.
  - exact Hmedia.
Qed.

Lemma enhance_registers_video_witness :
  let w := Sample.world0 ∅ in
  rotationStates (enhanceVideo w Sample.vid) = <[Sample.vid := 0]> (rotationStates w)
  /\ mediaOf (enhanceVideo w Sample.vid) Sample.vid
     = Some (upd_controls (fun _ => false) Sample.videoMedia).
Proof.
  cbv zeta.
  destruct (enhance_registers_video (Sample.world0 ∅) Sample.vid Sample.videoMedia)
    as (_ & H2 & _ & _ & _ & H6 & _).
  - reflexivity.
  - apply not_elem_of_empty.
  - vm_compute. reflexivity.
  - vm_compute. reflexivity.
  - vm_compute. lia.
  - split; [exact H2 | exact H6].
Defined.

(** X9. Presenting a video to enhancement a second time changes nothing:
    whatever the first call did, the second returns the world as it finds
    it, so a video that discovery reports twice is processed once. *)
Theorem enhance_twice_is_once (w : World) (video : NodeId) :
  enhanceVideo (enhanceVideo w video) video = enhanceVideo w video
  /\ foldl enhanceVideo w [video; video] = enhanceVideo w video.
Proof.
  assert (H : enhanceVideo (enhanceVideo w video) video = enhanceVideo w video).
  { destruct (enhanceVideo_cases3 w video) as [(E & _) | (He & _ & _ & E)].
    - rewrite E. exact E.
    - rewrite E.
      destruct (builds_enhance w video) as (K & _ & _).
      apply kept_fields in K. destruct K as (K1 & _ & _ & _ & K5 & _).
      destruct (kept_registered w video) as (R1 & _ & _ & R4 & _).
      unfold enhanceVideo at 1. rewrite K5, R4, He. simpl.
      rewrite bool_decide_eq_true_2; [reflexivity |].
      rewrite K1, R1. apply elem_of_union_r, elem_of_singleton. reflexivity. }
  split; [exact H | exact H].
Qed.

(** X10. While the preference is off nothing is enhanced: [enhanceVideo],
    the pass over the existing videos and the mutation callback return the
    world unchanged, and [init] with a stored value of false only records
    the flag.  The mutation callback also does nothing once the observer is
    disconnected. *)
Theorem disabled_is_inert (w : World) (nodes : list NodeId) :
  (isEnabled w = false ->
   (forall videos, foldl enhanceVideo w videos = w)
   /\ processExistingVideos w = w
   /\ foldl onAddedNode w nodes = w)
  /\ (observer w = false -> onMutations nodes w = w)
  /\ init false w = upd_isEnabled (fun _ => false) w.
Proof.
  split; [| split].
  - intros He.
    assert (H1 : forall v, enhanceVideo w v = w).
    { intros v. unfold enhanceVideo. rewrite He. reflexivity. }
    assert (H2 : forall videos, foldl enhanceVideo w videos = w).
    { induction videos as [| v l IH]; [reflexivity |]. simpl. rewrite H1. exact IH. }
    split; [exact H2 |]. split; [apply H2 |].
    induction nodes as [| n l IH]; [reflexivity |].
    simpl. unfold onAddedNode at 2.
    destruct (elemMatches selVideo w n); rewrite ?H1, H2; exact IH.
  - intros Ho. unfold onMutations. rewrite Ho. reflexivity.
  - reflexivity.
Qed.

Lemma disabled_is_inert_witness :
  processExistingVideos (upd_isEnabled (fun _ => false) (Sample.world0 ∅))
  = upd_isEnabled (fun _ => false) (Sample.world0 ∅).
Proof.
  destruct (disabled_is_inert (upd_isEnabled (fun _ => false) (Sample.world0 ∅)) [])
    as (H & _).
  destruct H as (_ & H & _); [reflexivity | exact H].
Defined.

(* ===================================================================== *)
(** ** Teardown                                                           *)
(* ===================================================================== *)

Lemma domStep_refl w : domStep w w.
Proof. exists (dom w). destruct w. reflexivity. Qed.

Lemma domStep_trans w1 w2 w3 : domStep w1 w2 -> domStep w2 w3 -> domStep w1 w3.
Proof.
  intros [d1 ->] [d2 ->]. exists d2. destruct w1. reflexivity.
Qed.

Lemma domStep_updElem n f w : domStep w (updElem n f w).
Proof. eexists. reflexivity. Qed.

Lemma domStep_removeFound (found : option NodeId) w :
  domStep w (match found with
             | Some el => match parentOf w el with
                          | Some p => removeChild p el w
                          | None => w
                          end
             | None => w
             end).
Proof.
  destruct found as [el|]; [| apply domStep_refl].
  destruct (parentOf w el); [| apply domStep_refl].
  unfold removeChild. eapply domStep_trans; apply domStep_updElem.
Qed.

(** The teardown of one video, written as its three kinds of writes. *)
Lemma removeControlsOf_writes w v :
  exists d,
    removeControlsOf w v
    = upd_processedVideos (fun s => s ∖ {[v]})
        (upd_customControls (delete v) (upd_dom (fun _ => d) w)).
Proof.
  unfold removeControlsOf. cbv zeta.
  set (w1 := match customControls w !! v with
             | Some bar => _ | None => w end).
  assert (H1 : domStep w w1) by apply (domStep_removeFound (customControls w !! v)).
  destruct H1 as [d1 E1]. clearbody w1. subst w1.
  set (w2 := upd_customControls (delete v) (upd_dom (fun _ => d1) w)).
  match goal with
  | |- exists d, upd_processedVideos _ ?X = _ => assert (H2 : domStep w2 X)
  end.
  { unfold clearStyle, removeClass, updMedia.
    repeat (eapply domStep_trans; [| apply domStep_updElem]).
    destruct (findVideoContainer w2 v) as [c|]; [| apply domStep_refl].
    repeat (eapply domStep_trans; [| apply domStep_updElem]).
    eapply domStep_trans; [| apply domStep_removeFound].
    apply domStep_removeFound. }
  destruct H2 as [d2 ->]. exists d2. subst w2. destruct w. reflexivity.
Qed.

Lemma removeControlsOf_fields w v :
  processedVideos (removeControlsOf w v) = processedVideos w ∖ {[v]}
  /\ customControls (removeControlsOf w v) = delete v (customControls w)
  /\ observer (removeControlsOf w v) = observer w
  /\ isEnabled (removeControlsOf w v) = isEnabled w
  /\ rotationStates (removeControlsOf w v) = rotationStates w
  /\ flipStates (removeControlsOf w v) = flipStates w
  /\ documentElement (removeControlsOf w v) = documentElement w.
Proof.
  destruct (removeControlsOf_writes w v) as [d ->]. destruct w. repeat split.
Qed.

Lemma styleOf_updElem_keep n f w x :
  (forall e, style (f e) = style e) -> styleOf (updElem n f w) x = styleOf w x.
Proof.
  intros Hf. unfold styleOf. rewrite dom_updElem.
  destruct (decide (n = x)); [| reflexivity].
  destruct (dom w !! x) as [el|]; simpl; [apply Hf | reflexivity].
Qed.

Lemma styleOf_removeFound (found : option NodeId) w x :
  styleOf (match found with
           | Some el => match parentOf w el with
                        | Some p => removeChild p el w
                        | None => w
                        end
           | None => w
           end) x = styleOf w x.
Proof.
  destruct found as [el|]; [| reflexivity].
  destruct (parentOf w el); [| reflexivity].
  unfold removeChild. rewrite !styleOf_updElem_keep by reflexivity. reflexivity.
Qed.

Lemma styleOf_upd_customControls f w x :
  styleOf (upd_customControls f w) x = styleOf w x.
Proof. reflexivity. Qed.

Lemma styleOf_upd_processedVideos f w x :
  styleOf (upd_processedVideos f w) x = styleOf w x.
Proof. reflexivity. Qed.

(** Teardown of one video only removes inline style values, and removes
    the five reset properties of that video. *)
Lemma style_removeControlsOf w u x p :
  (styleOf (removeControlsOf w u) x !! p = None
   \/ styleOf (removeControlsOf w u) x !! p = styleOf w x !! p)
  /\ (x = u -> p ∈ videoResetProps ->
      styleOf (removeControlsOf w u) x !! p = None).
Proof.
  unfold removeControlsOf. cbv zeta.
  rewrite styleOf_upd_processedVideos. unfold updMedia.
  rewrite styleOf_updElem_keep by reflexivity.
  rewrite !styleOf_clearStyle.
  match goal with
  | |- context [styleOf ?X x !! p] =>
      assert (H : styleOf X x !! p = None
                  \/ styleOf X x !! p = styleOf w x !! p)
  end.
  { destruct (findVideoContainer _ u) as [c|].
    - rewrite styleOf_clearStyle. unfold removeClass.
      rewrite styleOf_updElem_keep by reflexivity.
      rewrite styleOf_removeFound, styleOf_removeFound.
      rewrite styleOf_upd_customControls, styleOf_removeFound.
      case_decide; [left | right]; reflexivity.
    - rewrite styleOf_upd_customControls, styleOf_removeFound. right. reflexivity. }
  split.
  - repeat case_decide; try (left; reflexivity); exact H.
  - intros -> Hp. unfold videoResetProps in Hp.
    rewrite !elem_of_cons, elem_of_nil in Hp.
    destruct Hp as [E | [E | [E | [E | [E | []]]]]]; rewrite E;
      repeat (destruct (decide _) as [? | ?]; [reflexivity |]);
      exfalso; clear H; naive_solver.
Qed.

Lemma teardown_fields (l : list NodeId) : forall w,
  observer (foldl removeControlsOf w l) = observer w
  /\ isEnabled (foldl removeControlsOf w l) = isEnabled w
  /\ rotationStates (foldl removeControlsOf w l) = rotationStates w
  /\ flipStates (foldl removeControlsOf w l) = flipStates w.
Proof.
  induction l as [| u l IH]; intros w; [repeat split |].
  simpl. destruct (IH (removeControlsOf w u)) as (I1 & I2 & I3 & I4).
  destruct (removeControlsOf_fields w u) as (_ & _ & F1 & F2 & F3 & F4 & _).
  rewrite I1, I2, I3, I4. repeat split; assumption.
Qed.

Lemma teardown_customControls (l : list NodeId) : forall w v,
  (customControls w !! v = None \/ v ∈ l) ->
  customControls (foldl removeControlsOf w l) !! v = None.
Proof.
  induction l as [| u l IH]; intros w v H.
  - destruct H as [H | H]; [exact H | apply elem_of_nil in H; contradiction].
  - simpl. apply IH.
    destruct (removeControlsOf_fields w u) as (_ & F & _). rewrite F.
    destruct (decide (u = v)) as [-> | Hne].
    + left. apply lookup_delete_eq.
    + rewrite lookup_delete_ne by exact Hne.
      destruct H as [H | H]; [left; exact H |].
      apply elem_of_cons in H. destruct H as [-> | H]; [contradiction | right; exact H].
Qed.

Lemma teardown_processed_other (l : list NodeId) : forall w v,
  v ∉ l ->
  (v ∈ processedVideos (foldl removeControlsOf w l) <-> v ∈ processedVideos w).
Proof.
  induction l as [| u l IH]; intros w v Hv; [reflexivity |].
  apply not_elem_of_cons in Hv. destruct Hv as [Hne Hv].
  simpl. rewrite (IH _ v Hv).
  destruct (removeControlsOf_fields w u) as (F & _). rewrite F.
  rewrite elem_of_difference, elem_of_singleton. tauto.
Qed.

Lemma teardown_styles (l : list NodeId) : forall w v p,
  (styleOf w v !! p = None \/ (v ∈ l /\ p ∈ videoResetProps)) ->
  styleOf (foldl removeControlsOf w l) v !! p = None.
Proof.
  induction l as [| u l IH]; intros w v p H.
  - destruct H as [H | [H _]]; [exact H | apply elem_of_nil in H; contradiction].
  - simpl. apply IH.
    destruct (style_removeControlsOf w u v p) as [Hshrink Hself].
    destruct H as [H | [Hin Hp]].
    + left. destruct Hshrink as [E | E]; [exact E | rewrite E; exact H].
    + apply elem_of_cons in Hin. destruct Hin as [-> | Hin].
      * left. apply Hself; [reflexivity | exact Hp].
      * right. split; assumption.
Qed.

(** The list of videos of the document does not depend on class names. *)
Lemma descendants_alter_keep fuel f k : forall (d : gmap NodeId Element) n,
  (forall e, children (f e) = children e) ->
  descendants fuel (alter f k d) n = descendants fuel d n.
Proof.
  induction fuel as [| fuel IH]; intros d n Hf; [reflexivity |].
  simpl. rewrite lookup_alter.
  assert (E : (if decide (k = n) then f <$> d !! k else d !! n)
              = (if decide (k = n) then f <$> d !! n else d !! n))
    by (destruct (decide (k = n)) as [-> |]; reflexivity).
  rewrite E. clear E.
  destruct (decide (k = n)); destruct (d !! n) as [el|]; simpl; try reflexivity;
    rewrite ?Hf; apply flat_map_ext; intros c; rewrite IH by exact Hf; reflexivity.
Qed.

Lemma videos_updElem_keep k f w :
  (forall e, children (f e) = children e) ->
  (forall e, tagName (f e) = tagName e) ->
  documentQuerySelectorAll selVideo (updElem k f w)
  = documentQuerySelectorAll selVideo w.
Proof.
  intros Hc Ht. unfold documentQuerySelectorAll.
  change (documentElement (updElem k f w)) with (documentElement w).
  change (dom (updElem k f w)) with (alter f k (dom w)).
  assert (Hsize : size (alter f k (dom w)) = size (dom w)).
  { rewrite <- !size_dom, dom_alter_L. reflexivity. }
  rewrite Hsize, descendants_alter_keep by exact Hc.
  apply filter_ext. intros n. unfold elemMatches.
  rewrite dom_updElem. destruct (decide (k = n)); [| reflexivity].
  destruct (dom w !! n) as [el|]; simpl; [rewrite Ht |]; reflexivity.
Qed.

(** X11. Switching the preference off while it is on: the flag and the
    observer are off afterwards; every video of the document is
    unregistered, has lost its control-bar entry, has its native controls
    on again and has empty [transform], [width], [height], [marginTop] and
    [marginLeft]; a video outside the document keeps its media state and
    its registration; the stored angles and flip flags are not touched. *)
Theorem disable_tears_down (w : World) (v : NodeId) :
  isEnabled w = true ->
  let w' := onEnabledChanged false w in
  isEnabled w' = false /\ observer w' = false
  /\ rotationStates w' = rotationStates w /\ flipStates w' = flipStates w
  /\ (v ∈ documentQuerySelectorAll selVideo w ->
      (v ∉ processedVideos w') /\ customControls w' !! v = None
      /\ controls <$> mediaOf w' v = (fun _ => true) <$> mediaOf w v
      /\ forall p, p ∈ videoResetProps -> styleOf w' v !! p = None)
  /\ ((v ∉ documentQuerySelectorAll selVideo w) ->
      mediaOf w' v = mediaOf w v
      /\ (v ∈ processedVideos w' <-> v ∈ processedVideos w)).
Proof.
  intros He. cbv zeta. unfold onEnabledChanged. rewrite He. simpl.
  unfold removeAllControls.
  set (w1 := upd_observer (fun _ => false)
               (removeClass (documentElement w) "insta-control-active"
                  (upd_isEnabled (fun _ => false) w))).
  assert (Hl : documentQuerySelectorAll selVideo w1
               = documentQuerySelectorAll selVideo w).
  { subst w1. unfold removeClass.
    change (documentQuerySelectorAll selVideo
              (upd_observer _ (updElem ?k ?f (upd_isEnabled _ w))))
      with (documentQuerySelectorAll selVideo (updElem k f w)).
    apply videos_updElem_keep; reflexivity. }
  assert (Hmed : forall x, mediaOf w1 x = mediaOf w x).
  { intros x. subst w1. unfold removeClass.
    change (mediaOf (upd_observer _ (updElem ?k ?f (upd_isEnabled _ w))) x)
      with (mediaOf (updElem k f w) x).
    apply mediaOf_updElem_keep. reflexivity. }
  rewrite Hl.
  destruct (teardown_fields (documentQuerySelectorAll selVideo w) w1)
    as (F1 & F2 & F3 & F4).
  split; [rewrite F2; reflexivity |]. split; [rewrite F1; reflexivity |].
  split; [rewrite F3; reflexivity |]. split; [rewrite F4; reflexivity |].
  split.
  - intros Hin. split; [apply removeAll_unregisters, Hin |].
    split; [apply teardown_customControls; right; exact Hin |].
    split; [rewrite teardown_restores_controls by exact Hin; rewrite Hmed; reflexivity |].
    intros p Hp. apply teardown_styles. right. split; assumption.
  - intros Hout. split.
    + rewrite mediaOf_teardown_other by exact Hout. apply Hmed.
    + rewrite teardown_processed_other by exact Hout. reflexivity.
Qed.

Lemma disable_tears_down_witness :
  controls <$> mediaOf (onEnabledChanged false Sample.started) Sample.vid
  = Some true
  /\ (Sample.vid ∉ processedVideos (onEnabledChanged false Sample.started)).
Proof.
  destruct (disable_tears_down Sample.started Sample.vid) as (_ & _ & _ & _ & H & _).
  - reflexivity.
  - destruct H as (H1 & _ & H3 & _).
    + apply (bool_decide_eq_true_1
               (Sample.vid ∈ documentQuerySelectorAll selVideo Sample.started)).
      vm_compute. reflexivity.
    + split; [rewrite H3; vm_compute; reflexivity | exact H1].
Defined.

(* ===================================================================== *)
(** ** The observer follows the preference                                *)
(* ===================================================================== *)

Lemma enhanceVideo_flags w v :
  observer (enhanceVideo w v) = observer w
  /\ isEnabled (enhanceVideo w v) = isEnabled w.
Proof.
  destruct (enhanceVideo_cases3 w v) as [[-> _] | (_ & _ & _ & ->)];
    [split; reflexivity |].
  destruct (builds_enhance w v) as (K & _).
  apply kept_fields in K. destruct K as (_ & K2 & _ & _ & K5 & _).
  destruct (kept_registered w v) as (_ & _ & _ & R4 & R5 & _).
  rewrite K2, K5, R4, R5. split; reflexivity.
Qed.

Lemma enhanceAll_flags (l : list NodeId) : forall w,
  observer (foldl enhanceVideo w l) = observer w
  /\ isEnabled (foldl enhanceVideo w l) = isEnabled w.
Proof.
  induction l as [| v l IH]; intros w; [split; reflexivity |].
  simpl. destruct (IH (enhanceVideo w v)) as [I1 I2].
  destruct (enhanceVideo_flags w v) as [E1 E2].
  rewrite I1, I2, E1, E2. split; reflexivity.
Qed.

Lemma onAddedNode_flags w n :
  observer (onAddedNode w n) = observer w
  /\ isEnabled (onAddedNode w n) = isEnabled w.
Proof.
  unfold onAddedNode. cbv zeta.
  match goal with
  | |- context [foldl enhanceVideo ?W ?L] =>
      destruct (enhanceAll_flags L W) as [I1 I2]; rewrite I1, I2
  end.
  destruct (elemMatches selVideo w n); [apply enhanceVideo_flags | split; reflexivity].
Qed.

Lemma onMutations_flags l w :
  observer (onMutations l w) = observer w
  /\ isEnabled (onMutations l w) = isEnabled w.
Proof.
  unfold onMutations. destruct (observer w) eqn:Ho; [| split; [exact Ho | reflexivity]].
  rewrite <- Ho. clear Ho. revert w.
  induction l as [| n l IH]; intros w; [split; reflexivity |].
  simpl. destruct (IH (onAddedNode w n)) as [I1 I2].
  destruct (onAddedNode_flags w n) as [E1 E2].
  rewrite I1, I2, E1, E2. split; reflexivity.
Qed.

Lemma onEnabledChanged_flags b w :
  observer w = isEnabled w ->
  isEnabled (onEnabledChanged b w) = b
  /\ observer (onEnabledChanged b w) = b.
Proof.
  intros Hinv. unfold onEnabledChanged.
  destruct (eqb b (isEnabled w)) eqn:Hb.
  - apply eqb_prop in Hb. rewrite Hinv, <- Hb. split; reflexivity.
  - cbv zeta.
    change (isEnabled (upd_isEnabled (fun _ => b) w)) with b.
    destruct b.
    + unfold observeVideoAdditions, processExistingVideos.
      split; [| reflexivity].
      change (isEnabled (upd_observer ?f ?x)) with (isEnabled x).
      match goal with
      | |- context [foldl enhanceVideo ?W ?L] =>
          destruct (enhanceAll_flags L W) as [_ I2]; rewrite I2
      end.
      reflexivity.
    + unfold removeAllControls.
      match goal with
      | |- context [foldl removeControlsOf ?W ?L] =>
          destruct (teardown_fields L W) as (F1 & F2 & _); rewrite F1, F2
      end.
      split; reflexivity.
Qed.

Lemma init_flags b w :
  observer w = false ->
  isEnabled (init b w) = b /\ observer (init b w) = b.
Proof.
  intros Ho. unfold init. cbv zeta.
  change (isEnabled (upd_isEnabled (fun _ => b) w)) with b.
  destruct b; simpl.
  - unfold observeVideoAdditions, processExistingVideos.
    split; [| reflexivity].
    change (isEnabled (upd_observer ?f ?x)) with (isEnabled x).
    match goal with
    | |- context [foldl enhanceVideo ?W ?L] =>
        destruct (enhanceAll_flags L W) as [_ I2]; rewrite I2
    end.
    reflexivity.
  - split; [reflexivity | exact Ho].
Qed.

(** X12. From a page whose observer is not yet connected, after [init]
    with the stored preference and any sequence of preference changes and
    mutation batches, the enabled flag is the preference delivered last
    and the observer is connected exactly when the flag is on. *)
Theorem observer_follows_preference
  (w0 : World) (stored : bool) (events : list PageEvent) :
  observer w0 = false ->
  let w := foldl pageStep (init stored w0) events in
  isEnabled w = lastPref stored events /\ observer w = isEnabled w.
Proof.
  intros Ho. cbv zeta.
  destruct (init_flags stored w0 Ho) as [I1 I2].
  assert (G : forall es w b,
             isEnabled w = b -> observer w = b ->
             isEnabled (foldl pageStep w es) = lastPref b es
             /\ observer (foldl pageStep w es) = lastPref b es).
  { induction es as [| e es IH]; intros w b H1 H2; [split; assumption |].
    unfold lastPref. simpl. fold (lastPref (match e with
                                            | PrefChanged v => v
                                            | Mutated _ => b
                                            end) es).
    destruct e as [v | l]; simpl.
    - destruct (onEnabledChanged_flags v w) as [E1 E2]; [congruence |].
      apply IH; assumption.
    - destruct (onMutations_flags l w) as [E1 E2].
      apply IH; congruence. }
  destruct (G events (init stored w0) stored I1 I2) as [G1 G2].
  split; [exact G1 | congruence].
Qed.

Lemma observer_follows_preference_witness :
  observer (foldl pageStep (init true (Sample.world0 ∅))
              [Mutated [Sample.vid]; PrefChanged false; Mutated [Sample.vid]])
  = false.
Proof.
  destruct (observer_follows_preference (Sample.world0 ∅) true
              [Mutated [Sample.vid]; PrefChanged false; Mutated [Sample.vid]])
    as [H1 H2]; [reflexivity |].
  rewrite H2, H1. reflexivity.
Defined.

(* ===================================================================== *)
(** ** The Transform Engine applied again                                 *)
(* ===================================================================== *)

Lemma applyRotation_writes video degrees w :
  applyRotation video degrees w
  = styleWrites (transformWrites w video degrees) w.
Proof.
  unfold applyRotation, transformWrites.
  destruct (findVideoContainer w video) as [container|]; [| reflexivity].
  unfold rotationWrites, styleWrites. cbv zeta.
  destruct ((degrees =? 0) && negb (flipOf w video));
    [cbn [foldl styleWrite]; reflexivity |].
  destruct ((degrees =? 180) || (degrees =? 0));
    destruct (bool_decide (is_Some (fullscreenElement w)));
    cbn [foldl styleWrite app negb]; reflexivity.
Qed.

Lemma styleWrite_updElem w wr :
  styleWrite w wr
  = updElem (fst (fst wr)) (upd_style (writeStyleMap (snd (fst wr)) (snd wr))) w.
Proof. destruct wr as [[n p] [v|]]; reflexivity. Qed.

Lemma upd_style_id (e : Element) : upd_style (fun s => s) e = e.
Proof. destruct e; reflexivity. Qed.

Lemma dom_styleWrites (l : list StyleWrite) : forall w x,
  dom (styleWrites l w) !! x = upd_style (nodeWrites x l) <$> dom w !! x.
Proof.
  induction l as [| wr l IH]; intros w x.
  - simpl. destruct (dom w !! x) as [e|]; simpl; [rewrite upd_style_id |]; reflexivity.
  - unfold styleWrites. simpl. fold (styleWrites l (styleWrite w wr)).
    rewrite IH, styleWrite_updElem, dom_updElem.
    destruct (decide (fst (fst wr) = x)) as [E | E];
      destruct (dom w !! x) as [e|] eqn:He; rewrite ?E, ?He; simpl; try reflexivity.
    + destruct e. unfold upd_style, nodeWrites. simpl.
      rewrite decide_True by exact E. reflexivity.
    + destruct e. unfold upd_style, nodeWrites. simpl.
      rewrite decide_False by exact E. reflexivity.
Qed.

Lemma styleWrites_domStep (l : list StyleWrite) : forall w,
  styleWrites l w = upd_dom (fun _ => dom (styleWrites l w)) w.
Proof.
  induction l as [| wr l IH]; intros w.
  - destruct w; reflexivity.
  - unfold styleWrites. simpl. fold (styleWrites l (styleWrite w wr)).
    rewrite (IH (styleWrite w wr)) at 1. rewrite styleWrite_updElem.
    destruct w; reflexivity.
Qed.

Lemma lookup_writeStyleMap p o s q :
  writeStyleMap p o s !! q = if decide (p = q) then o else s !! q.
Proof.
  destruct o as [v|]; simpl.
  - destruct (decide (p = q)) as [-> |];
      [apply lookup_insert_eq | apply lookup_insert_ne; assumption].
  - destruct (decide (p = q)) as [-> |];
      [apply lookup_delete_eq | apply lookup_delete_ne; assumption].
Qed.

Lemma lookup_nodeWrites x p (l : list StyleWrite) : forall s,
  nodeWrites x l s !! p
  = match lastWrite x p l with Some o => o | None => s !! p end.
Proof.
  induction l as [| wr l IH]; intros s; [reflexivity |].
  change (nodeWrites x (wr :: l) s)
    with (nodeWrites x l
            (if decide (fst (fst wr) = x)
             then writeStyleMap (snd (fst wr)) (snd wr) s else s)).
  rewrite IH. simpl. destruct (lastWrite x p l) as [o|]; [reflexivity |].
  destruct wr as [[n q] o]. unfold writeKey. simpl.
  destruct (decide (n = x)) as [-> |].
  - rewrite lookup_writeStyleMap.
    destruct (decide (q = p)) as [-> |].
    + rewrite decide_True by reflexivity. reflexivity.
    + rewrite decide_False by congruence. reflexivity.
  - rewrite decide_False by congruence. reflexivity.
Qed.

Lemma lastWrite_None x p (l : list StyleWrite) :
  lastWrite x p l = None <-> (x, p) ∉ map writeKey l.
Proof.
  induction l as [| wr l IH]; simpl.
  - split; [intros _; apply not_elem_of_nil | reflexivity].
  - rewrite not_elem_of_cons, <- IH.
    destruct (lastWrite x p l) as [o|].
    + split; [discriminate | intros [_ H]; exact H].
    + destruct (decide (writeKey wr = (x, p))) as [E | E].
      * split; [discriminate | intros [H _]; congruence].
      * split; [intros _; split; [congruence | reflexivity] | reflexivity].
Qed.

(** The style of a node after a list of assignments: the value assigned
    last to a property, and the old value of a property not assigned. *)
Lemma styleOf_styleWrites l w x p :
  styleOf (styleWrites l w) x !! p
  = match lastWrite x p l with
    | Some o => dom w !! x ≫= (fun _ => o)
    | None => styleOf w x !! p
    end.
Proof.
  unfold styleOf. rewrite dom_styleWrites.
  destruct (dom w !! x) as [e|]; simpl.
  - apply lookup_nodeWrites.
  - destruct (lastWrite x p l); reflexivity.
Qed.

(** Assignments made before are overwritten when every property they
    touch is assigned again. *)
Lemma styleWrites_absorb (l l' : list StyleWrite) w :
  (forall k, k ∈ map writeKey l' -> k ∈ map writeKey l) ->
  styleWrites l (styleWrites l' w) = styleWrites l w.
Proof.
  intros Hsub.
  assert (E : dom (styleWrites l (styleWrites l' w)) = dom (styleWrites l w)).
  { apply map_eq. intros x. rewrite !dom_styleWrites.
    destruct (dom w !! x) as [e|]; [| reflexivity]. simpl. f_equal.
    destruct e. unfold upd_style. simpl. f_equal.
    apply map_eq. intros p. rewrite !lookup_nodeWrites.
    destruct (lastWrite x p l) as [o|] eqn:El; [reflexivity |].
    destruct (lastWrite x p l') as [o'|] eqn:El'; [| reflexivity].
    exfalso. apply lastWrite_None in El. apply El, Hsub.
    destruct (decide ((x, p) ∈ map writeKey l')) as [Hin | Hout]; [exact Hin |].
    apply lastWrite_None in Hout. congruence. }
  transitivity (upd_dom (fun _ => dom (styleWrites l w)) w);
    [| symmetry; apply styleWrites_domStep].
  rewrite (styleWrites_domStep l (styleWrites l' w)), E.
  generalize (dom (styleWrites l w)). intros d.
  rewrite (styleWrites_domStep l' w). destruct w; reflexivity.
Qed.

Lemma sameLayout_styleWrites l w : sameLayout w (styleWrites l w).
Proof.
  intros x. unfold layoutOf. rewrite dom_styleWrites.
  destruct (dom w !! x) as [e|]; reflexivity.
Qed.

Lemma effective_layout w w' video :
  sameLayout w w' ->
  effectiveWidth w' video = effectiveWidth w video
  /\ effectiveHeight w' video = effectiveHeight w video.
Proof.
  intros Hl. pose proof (Hl video) as Hv.
  unfold layoutOf, effectiveWidth, effectiveHeight, mediaOf in *.
  destruct (dom w !! video) as [e|], (dom w' !! video) as [e'|];
    simpl in *; try discriminate; [| split; reflexivity].
  unfold layout in Hv. injection Hv as H1 H2 H3 H4.
  rewrite H2, H3, H4. split; reflexivity.
Qed.

(** The assignments of the engine depend on the layout, the flip state,
    the fullscreen element and the viewport only. *)
Lemma transformWrites_ext w w' video degrees :
  sameLayout w w' ->
  flipStates w' = flipStates w ->
  (is_Some (fullscreenElement w') <-> is_Some (fullscreenElement w)) ->
  innerWidth w' = innerWidth w -> innerHeight w' = innerHeight w ->
  transformWrites w' video degrees = transformWrites w video degrees.
Proof.
  intros Hl Hf Hfs Hw Hh. unfold transformWrites.
  rewrite <- (findVideoContainer_layout w w' video Hl).
  destruct (findVideoContainer w video) as [c|]; [| reflexivity].
  destruct (effective_layout w w' video Hl) as [-> ->].
  unfold flipOf, coverScale. rewrite Hf, Hw, Hh.
  rewrite (bool_decide_ext _ _ Hfs). reflexivity.
Qed.

Lemma styleWrites_fields l w :
  flipStates (styleWrites l w) = flipStates w
  /\ rotationStates (styleWrites l w) = rotationStates w
  /\ fullscreenElement (styleWrites l w) = fullscreenElement w
  /\ innerWidth (styleWrites l w) = innerWidth w
  /\ innerHeight (styleWrites l w) = innerHeight w.
Proof. rewrite styleWrites_domStep. repeat split. Qed.

Lemma transformWrites_after l w video degrees :
  transformWrites (styleWrites l w) video degrees = transformWrites w video degrees.
Proof.
  destruct (styleWrites_fields l w) as (F1 & _ & F3 & F4 & F5).
  apply transformWrites_ext; try assumption.
  - apply sameLayout_styleWrites.
  - rewrite F3. reflexivity.
Qed.

Lemma resize_upd_style size g e :
  resize size (upd_style g e) = upd_style g (resize size e).
Proof. reflexivity. Qed.

Lemma relayout_styleWrite sizes w wr :
  relayout sizes (styleWrite w wr) = styleWrite (relayout sizes w) wr.
Proof.
  rewrite !styleWrite_updElem.
  set (n := fst (fst wr)). set (g := writeStyleMap (snd (fst wr)) (snd wr)).
  unfold relayout, updElem.
  assert (E : map_imap (fun x e => Some (match sizes !! x with
                                         | Some size => resize size e
                                         | None => e
                                         end))
                (alter (upd_style g) n (dom w))
              = alter (upd_style g) n
                  (map_imap (fun x e => Some (match sizes !! x with
                                              | Some size => resize size e
                                              | None => e
                                              end)) (dom w))).
  { apply map_eq. intros x. rewrite map_lookup_imap, !lookup_alter.
    destruct (decide (n = x)) as [-> | Hne].
    - rewrite map_lookup_imap.
      destruct (dom w !! x) as [e|]; [| reflexivity]. simpl.
      destruct (sizes !! x); reflexivity.
    - rewrite map_lookup_imap. reflexivity. }
  destruct w. unfold upd_dom. simpl in *. rewrite E. reflexivity.
Qed.

Lemma relayout_styleWrites sizes (l : list StyleWrite) : forall w,
  relayout sizes (styleWrites l w) = styleWrites l (relayout sizes w).
Proof.
  induction l as [| wr l IH]; intros w; [reflexivity |].
  unfold styleWrites. simpl. fold (styleWrites l (styleWrite w wr)).
  rewrite IH, relayout_styleWrite. reflexivity.
Qed.

(** X13. Applying the engine again with the same angle changes nothing,
    provided the layout that the browser has computed in between still
    makes the resolver return the same container and reports the same
    size of the video: the page after the second application is the page
    the second application found. *)
Theorem rotation_rendering_idempotent (w : World) (video : NodeId)
    (degrees : Z) (sizes : gmap NodeId (Z * Z)) :
  let relaid := relayout sizes (applyRotation video degrees w) in
  findVideoContainer relaid video = findVideoContainer w video ->
  effectiveWidth relaid video = effectiveWidth w video ->
  effectiveHeight relaid video = effectiveHeight w video ->
  applyRotation video degrees relaid = relaid.
Proof.
  cbv zeta. intros Hc Hw Hh.
  rewrite (applyRotation_writes video degrees w) in *.
  set (L := transformWrites w video degrees) in *.
  set (relaid := relayout sizes (styleWrites L w)) in *.
  assert (HL : transformWrites relaid video degrees = L).
  { destruct (styleWrites_fields L w) as (F1 & _ & F3 & F4 & F5).
    subst L. unfold transformWrites at 1. rewrite Hc.
    unfold transformWrites.
    destruct (findVideoContainer w video) as [c|]; [| reflexivity].
    rewrite Hw, Hh. unfold flipOf, coverScale.
    change (flipStates relaid) with (flipStates (styleWrites
              (transformWrites w video degrees) w)).
    change (fullscreenElement relaid) with (fullscreenElement (styleWrites
              (transformWrites w video degrees) w)).
    change (innerWidth relaid) with (innerWidth (styleWrites
              (transformWrites w video degrees) w)).
    change (innerHeight relaid) with (innerHeight (styleWrites
              (transformWrites w video degrees) w)).
    rewrite F1, F3, F4, F5. reflexivity. }
  rewrite applyRotation_writes, HL. subst relaid.
  rewrite relayout_styleWrites.
  apply styleWrites_absorb. intros k Hk. exact Hk.
Qed.

Lemma rotation_rendering_idempotent_witness :
  applyRotation Sample.vid 90
    (relayout {[Sample.article := (470, 1056)]}
       (applyRotation Sample.vid 90 Sample.started))
  = relayout {[Sample.article := (470, 1056)]}
      (applyRotation Sample.vid 90 Sample.started).
Proof.
  pose proof (rotation_rendering_idempotent Sample.started Sample.vid 90
                {[Sample.article := (470, 1056)]}) as H.
  cbv zeta in H. apply H.
  - vm_compute. reflexivity.
  - vm_compute. reflexivity.
  - vm_compute. reflexivity.
Defined.

(** Without that proviso a second application can write elsewhere: for the
    narrow video, laid out at the 198 px of the first quarter turn, the
    resolver returns the body and the second application gives the body a
    height as well. *)
Lemma second_application_after_shrink :
  styleOf Narrow.relaid Sample.bodyId !! "height"%string = None
  /\ styleOf Narrow.again Sample.bodyId !! "height"%string
     = Some (CssPx (inject_Z 360 * (55 # 100)))
  /\ Narrow.again <> Narrow.relaid.
Proof.
  assert (H1 : styleOf Narrow.relaid Sample.bodyId !! "height"%string = None)
    by (vm_compute; reflexivity).
  assert (H2 : styleOf Narrow.again Sample.bodyId !! "height"%string
               = Some (CssPx (inject_Z 360 * (55 # 100))))
    by (vm_compute; reflexivity).
  split; [exact H1 |]. split; [exact H2 |].
  intros E.
  pose proof (f_equal (fun x => styleOf x Sample.bodyId !! "height"%string) E)
    as H3.
  pose proof (eq_trans (eq_sym H2) (eq_trans H3 H1)) as K. discriminate K.
Qed.

(* ===================================================================== *)
(** ** Entering and leaving fullscreen                                    *)
(* ===================================================================== *)

Lemma styleWrites_fullscreenElement l f : forall w,
  styleWrites l (upd_fullscreenElement f w)
  = upd_fullscreenElement f (styleWrites l w).
Proof.
  induction l as [| wr l IH]; intros w; [reflexivity |].
  unfold styleWrites. simpl. fold (styleWrites l (styleWrite w wr)).
  rewrite <- IH. f_equal. destruct wr as [[n p] [v|]]; reflexivity.
Qed.

Lemma fullscreenElement_back f w :
  fullscreenElement w = None ->
  upd_fullscreenElement (fun _ => None) (upd_fullscreenElement f w) = w.
Proof. destruct w. simpl. intros ->. reflexivity. Qed.

Lemma rotationWrites_keys_fullscreen video container isFlipped
    vw vw' cs cs' degrees k :
  k ∈ map writeKey (rotationWrites video container isFlipped true vw cs degrees) ->
  k ∈ map writeKey (rotationWrites video container isFlipped false vw' cs' degrees).
Proof.
  unfold rotationWrites.
  destruct ((degrees =? 0) && negb isFlipped); [intros H; exact H |].
  destruct ((degrees =? 180) || (degrees =? 0)); simpl;
    rewrite !elem_of_cons; tauto.
Qed.

Lemma transformWrites_fullscreen_keys w t video degrees k :
  fullscreenElement w = None ->
  k ∈ map writeKey
        (transformWrites (upd_fullscreenElement (fun _ => Some t) w) video degrees) ->
  k ∈ map writeKey (transformWrites w video degrees).
Proof.
  intros Hfs. unfold transformWrites.
  change (findVideoContainer (upd_fullscreenElement (fun _ => Some t) w) video)
    with (findVideoContainer w video).
  destruct (findVideoContainer w video) as [c|]; [| intros H; exact H].
  change (flipOf (upd_fullscreenElement (fun _ => Some t) w) video)
    with (flipOf w video).
  rewrite Hfs.
  rewrite (bool_decide_eq_false_2 (is_Some None)) by (intros [? ?]; discriminate).
  rewrite bool_decide_eq_true_2 by (eexists; reflexivity).
  apply rotationWrites_keys_fullscreen.
Qed.

(** X14. Entering fullscreen and leaving it again, with the
    [fullscreenchange] handler run after each change, leaves the page
    exactly as one inline application of the stored angle leaves it; a
    page that this application does not change is therefore back as it
    was.  In between the fullscreen element is set. *)
Theorem fullscreen_round_trip (w : World) (video : NodeId) (granted : bool) :
  fullscreenElement w = None ->
  let entered := handleFsChange video (toggleFs video true w) in
  let back := handleFsChange video (toggleFs video granted entered) in
  is_Some (fullscreenElement entered)
  /\ back = handleFsChange video w
  /\ (handleFsChange video w = w -> back = w).
Proof.
  intros Hfs. cbv zeta.
  set (t := default video (findVideoContainer w video)).
  assert (E1 : toggleFs video true w = upd_fullscreenElement (fun _ => Some t) w).
  { unfold toggleFs. rewrite Hfs. reflexivity. }
  rewrite E1.
  set (d := rotationOf w video).
  assert (E2 : handleFsChange video (upd_fullscreenElement (fun _ => Some t) w)
               = upd_fullscreenElement (fun _ => Some t)
                   (if d =? 0 then w
                    else styleWrites
                           (transformWrites
                              (upd_fullscreenElement (fun _ => Some t) w) video d) w)).
  { unfold handleFsChange.
    change (rotationOf (upd_fullscreenElement (fun _ => Some t) w) video) with d.
    destruct (d =? 0); [reflexivity |].
    rewrite applyRotation_writes. apply styleWrites_fullscreenElement. }
  rewrite E2.
  set (mid := if d =? 0 then w
              else styleWrites
                     (transformWrites
                        (upd_fullscreenElement (fun _ => Some t) w) video d) w).
  assert (Hmid : fullscreenElement mid = None /\ rotationOf mid video = d).
  { subst mid. destruct (d =? 0); [split; [exact Hfs | reflexivity] |].
    match goal with
    | |- context [styleWrites ?l w] =>
        destruct (styleWrites_fields l w) as (_ & F2 & F3 & _)
    end.
    unfold rotationOf. rewrite F2, F3. split; [exact Hfs | reflexivity]. }
  destruct Hmid as [Hm1 Hm2].
  assert (E3 : toggleFs video granted (upd_fullscreenElement (fun _ => Some t) mid)
               = mid).
  { unfold toggleFs. simpl. apply fullscreenElement_back, Hm1. }
  rewrite E3.
  assert (Hback : handleFsChange video mid = handleFsChange video w).
  { unfold handleFsChange. rewrite Hm2. fold d. subst mid.
    destruct (d =? 0); [reflexivity |].
    rewrite applyRotation_writes, transformWrites_after.
    rewrite applyRotation_writes. apply styleWrites_absorb.
    intros k. apply transformWrites_fullscreen_keys, Hfs. }
  split; [eexists; reflexivity |].
  split; [exact Hback |].
  intros Hstable. rewrite Hback. exact Hstable.
Qed.

Lemma fullscreen_round_trip_witness :
  let w := menuAction Sample.vid itemRotateRight Sample.started in
  handleFsChange Sample.vid
    (toggleFs Sample.vid true (handleFsChange Sample.vid (toggleFs Sample.vid true w)))
  = handleFsChange Sample.vid w.
Proof.
  cbv zeta.
  destruct (fullscreen_round_trip
              (menuAction Sample.vid itemRotateRight Sample.started)
              Sample.vid true) as (_ & H & _).
  - vm_compute. reflexivity.
  - exact H.
Defined.

(* ===================================================================== *)
(** ** Half turns and the flip alone                                      *)
(* ===================================================================== *)

(** X15. A half turn, or a flip at angle 0, is never scaled and leaves
    the size and the margins of the video alone: the transform of the
    video is the rotation with the mirror when flipped; outside
    fullscreen the height of the container is emptied, in fullscreen it
    is left as it was. *)
Theorem half_turn_unscaled (w : World) (video container : NodeId)
    (degrees : Z) (p : string) :
  findVideoContainer w video = Some container ->
  is_Some (dom w !! video) ->
  container <> video ->
  degrees = 180 \/ (degrees = 0 /\ flipOf w video = true) ->
  let w' := applyRotation video degrees w in
  styleOf w' video !! "transform"
  = Some (CssRotate degrees (flipOf w video))
  /\ (p ∈ ["width"; "height"; "marginTop"; "marginLeft"]%string ->
      styleOf w' video !! p = styleOf w video !! p)
  /\ (fullscreenElement w = None -> styleOf w' container !! "height" = None)
  /\ (is_Some (fullscreenElement w) ->
      styleOf w' container !! "height" = styleOf w container !! "height").
Proof.
  intros Hc [e He] Hne Hdeg. cbv zeta.
  rewrite applyRotation_writes. unfold transformWrites. rewrite Hc.
  assert (Hb : (degrees =? 0) && negb (flipOf w video) = false
               /\ (degrees =? 180) || (degrees =? 0) = true).
  { destruct Hdeg as [-> | [-> ->]]; split; reflexivity. }
  destruct Hb as [Hb1 Hb2].
  unfold rotationWrites. rewrite Hb1, Hb2.
  rewrite !styleOf_styleWrites.
  split; [| split; [| split]].
  - destruct (bool_decide (is_Some (fullscreenElement w))); simpl;
      unfold writeKey; simpl;
      repeat (destruct (decide _) as [? | ?]; try congruence);
      rewrite He; reflexivity.
  - intros Hp. rewrite !elem_of_cons, elem_of_nil in Hp.
    destruct Hp as [E | [E | [E | [E | []]]]]; rewrite E;
      destruct (bool_decide (is_Some (fullscreenElement w))); simpl;
      unfold writeKey; simpl;
      repeat (destruct (decide _) as [? | ?]; try congruence).
  - intros Hfs. rewrite Hfs.
    rewrite (bool_decide_eq_false_2 (is_Some None)) by (intros [? ?]; discriminate).
    simpl. unfold writeKey. simpl.
    repeat (destruct (decide _) as [? | ?]; try congruence).
    destruct (dom w !! container); reflexivity.
  - intros Hfs. rewrite bool_decide_eq_true_2 by exact Hfs.
    simpl. unfold writeKey. simpl.
    repeat (destruct (decide _) as [? | ?]; try congruence).
Qed.

Lemma half_turn_unscaled_witness :
  styleOf (applyRotation Sample.vid 180 Sample.started) Sample.vid !! "transform"
  = Some (CssRotate 180 (flipOf Sample.started Sample.vid)).
Proof.
  destruct (half_turn_unscaled Sample.started Sample.vid Sample.article 180 "width")
    as (H & _).
  - vm_compute. reflexivity.
  - vm_compute. eexists. reflexivity.
  - discriminate.
  - left. reflexivity.
  - exact H.
Defined.

(* ===================================================================== *)
(** ** The rotation menu                                                  *)
(* ===================================================================== *)

Lemma classesOf_updElem_keep n f w x :
  (forall e, classList (f e) = classList e) ->
  classesOf (updElem n f w) x = classesOf w x.
Proof.
  intros Hf. unfold classesOf. rewrite dom_updElem.
  destruct (decide (n = x)); [| reflexivity].
  destruct (dom w !! x) as [el|]; simpl; [apply Hf | reflexivity].
Qed.

Lemma parentOf_updElem_keep n f w x :
  (forall e, parentElement (f e) = parentElement e) ->
  parentOf (updElem n f w) x = parentOf w x.
Proof.
  intros Hf. unfold parentOf. rewrite dom_updElem.
  destruct (decide (n = x)); [| reflexivity].
  destruct (dom w !! x) as [el|]; simpl; [apply Hf | reflexivity].
Qed.

Lemma classesOf_updClass n g w :
  is_Some (dom w !! n) ->
  classesOf (updElem n (upd_classList g) w) n = g (classesOf w n).
Proof.
  intros [e He]. unfold classesOf. rewrite dom_updElem, decide_True by reflexivity.
  rewrite He. reflexivity.
Qed.

Lemma is_Some_removeChild p c w x :
  is_Some (dom (removeChild p c w) !! x) <-> is_Some (dom w !! x).
Proof. unfold removeChild. rewrite !is_Some_dom_updElem. reflexivity. Qed.

Lemma is_Some_appendChild p c w x :
  is_Some (dom (appendChild p c w) !! x) <-> is_Some (dom w !! x).
Proof.
  unfold appendChild. rewrite !is_Some_dom_updElem.
  destruct (parentOf w c); [apply is_Some_removeChild | reflexivity].
Qed.

Lemma classesOf_removeChild p c w x :
  classesOf (removeChild p c w) x = classesOf w x.
Proof. unfold removeChild. rewrite !classesOf_updElem_keep by reflexivity. reflexivity. Qed.

Lemma classesOf_appendChild p c w x :
  classesOf (appendChild p c w) x = classesOf w x.
Proof.
  unfold appendChild. rewrite !classesOf_updElem_keep by reflexivity.
  destruct (parentOf w c); [apply classesOf_removeChild | reflexivity].
Qed.

Lemma styleOf_appendChild p c w x :
  styleOf (appendChild p c w) x = styleOf w x.
Proof.
  unfold appendChild. rewrite !styleOf_updElem_keep by reflexivity.
  destruct (parentOf w c); [| reflexivity].
  unfold removeChild. rewrite !styleOf_updElem_keep by reflexivity. reflexivity.
Qed.

Lemma viewport_appendChild p c w :
  body (appendChild p c w) = body w
  /\ innerWidth (appendChild p c w) = innerWidth w.
Proof. unfold appendChild. destruct (parentOf w c); split; reflexivity. Qed.

(** A moved child has the new parent, whatever it had before. *)
Lemma parentOf_appendChild p c w :
  is_Some (dom w !! c) -> parentOf (appendChild p c w) c = Some p.
Proof.
  intros Hc. unfold appendChild. cbv zeta.
  set (w1 := match parentOf w c with
             | Some q => removeChild q c w
             | None => w
             end).
  assert (H1 : is_Some (dom w1 !! c)).
  { subst w1. destruct (parentOf w c); [apply is_Some_removeChild |]; exact Hc. }
  apply (is_Some_dom_updElem p (upd_children (fun l => l ++ [c]))) in H1.
  destruct H1 as [e He].
  unfold parentOf. rewrite dom_updElem, decide_True by reflexivity.
  rewrite He. reflexivity.
Qed.

Lemma add_remove_class (C : gset string) (a : string) :
  a ∉ C -> (C ∪ {[a]}) ∖ {[a]} = C.
Proof.
  intros Ha. apply set_eq. intros x.
  rewrite elem_of_difference, elem_of_union, elem_of_singleton.
  split; [intros [[H | H] Hn]; [exact H | contradiction] |].
  intros H. split; [left; exact H | intros ->; contradiction].
Qed.

(** What [closeMenu] leaves of an open menu. *)
Lemma closeMenu_docks rw w :
  is_Some (dom w !! rw_menu rw) ->
  parentOf w (rw_menu rw) = Some (body w) ->
  menuDocked rw (closeMenu rw w)
  /\ classesOf (closeMenu rw w) (rw_menu rw)
     = classesOf w (rw_menu rw) ∖ {["active"%string]}.
Proof.
  intros Hex Hpar. unfold closeMenu. cbv zeta.
  assert (Hex1 : is_Some (dom (removeClass (rw_menu rw) "active" w) !! rw_menu rw))
    by (apply is_Some_dom_updElem, Hex).
  assert (Hcls : classesOf (removeClass (rw_menu rw) "active" w) (rw_menu rw)
                 = classesOf w (rw_menu rw) ∖ {["active"%string]})
    by (apply (classesOf_updClass _ (fun c => c ∖ {["active"%string]})), Hex).
  rewrite bool_decide_eq_true_2
    by (unfold removeClass; rewrite parentOf_updElem_keep by reflexivity; exact Hpar).
  unfold menuDocked, clearStyle.
  rewrite !classesOf_updElem_keep by reflexivity.
  rewrite classesOf_appendChild, Hcls.
  split; [| reflexivity]. split; [| split].
  - rewrite elem_of_difference, elem_of_singleton. intros [_ Hn]. apply Hn. reflexivity.
  - rewrite !parentOf_updElem_keep by reflexivity.
    apply parentOf_appendChild, Hex1.
  - intros p Hp. fold (clearStyle (rw_menu rw) "left").
    fold (clearStyle (rw_menu rw) "right").
    fold (clearStyle (rw_menu rw) "top").
    fold (clearStyle (rw_menu rw) "position").
    rewrite !styleOf_clearStyle.
    unfold menuPositionProps in Hp. rewrite !elem_of_cons, elem_of_nil in Hp.
    destruct Hp as [E | [E | [E | [E | []]]]]; rewrite E;
      repeat (destruct (decide _) as [[? ?] | ?]; [reflexivity |]);
      exfalso; tauto.
Qed.

Lemma toggleMenu_opens rw btnBottom btnRight w :
  is_Some (dom w !! rw_menu rw) ->
  ("active"%string ∉ classesOf w (rw_menu rw)) ->
  let opened := toggleMenu rw btnBottom btnRight w in
  is_Some (dom opened !! rw_menu rw)
  /\ body opened = body w
  /\ classesOf opened (rw_menu rw) = classesOf w (rw_menu rw) ∪ {["active"%string]}
  /\ parentOf opened (rw_menu rw) = Some (body w)
  /\ styleOf opened (rw_menu rw) !! "position"
     = Some (CssImportant (CssText "fixed"))
  /\ styleOf opened (rw_menu rw) !! "top"
     = Some (CssImportant (CssPx (btnBottom + 5)))
  /\ styleOf opened (rw_menu rw) !! "right"
     = Some (CssImportant (CssPx (inject_Z (innerWidth w) - btnRight)))
  /\ styleOf opened (rw_menu rw) !! "left"
     = Some (CssImportant (CssText "auto")).
Proof.
  intros Hex Hcl. cbv zeta. unfold toggleMenu.
  rewrite bool_decide_eq_false_2 by exact Hcl. cbv zeta.
  set (w1 := addClass (rw_menu rw) "active" w).
  assert (Hex1 : is_Some (dom w1 !! rw_menu rw)) by (apply is_Some_dom_updElem, Hex).
  change (body w1) with (body w).
  set (w2 := appendChild (body w) (rw_menu rw) w1).
  assert (Hex2 : is_Some (dom w2 !! rw_menu rw)) by (apply is_Some_appendChild, Hex1).
  destruct (viewport_appendChild (body w) (rw_menu rw) w1) as [Hb2 Hi2].
  fold w2 in Hb2, Hi2. rewrite Hi2.
  change (innerWidth w1) with (innerWidth w). change (body w1) with (body w) in Hb2.
  set (s1 := setStyle (rw_menu rw) "position" (CssImportant (CssText "fixed")) w2).
  assert (Hs1 : is_Some (dom s1 !! rw_menu rw)) by (apply is_Some_dom_updElem, Hex2).
  set (s2 := setStyle (rw_menu rw) "top" (CssImportant (CssPx (btnBottom + 5))) s1).
  assert (Hs2 : is_Some (dom s2 !! rw_menu rw)) by (apply is_Some_dom_updElem, Hs1).
  set (s3 := setStyle (rw_menu rw) "right"
               (CssImportant (CssPx (inject_Z (innerWidth w) - btnRight))) s2).
  assert (Hs3 : is_Some (dom s3 !! rw_menu rw)) by (apply is_Some_dom_updElem, Hs2).
  split; [apply is_Some_dom_updElem, Hs3 |].
  split; [exact Hb2 |].
  split.
  { unfold setStyle. rewrite classesOf_updElem_keep by reflexivity.
    subst s3 s2 s1. unfold setStyle. rewrite !classesOf_updElem_keep by reflexivity.
    subst w2. rewrite classesOf_appendChild. subst w1.
    apply (classesOf_updClass _ (fun c => c ∪ {["active"%string]})), Hex. }
  split.
  { unfold setStyle. rewrite parentOf_updElem_keep by reflexivity.
    subst s3 s2 s1. unfold setStyle. rewrite !parentOf_updElem_keep by reflexivity.
    subst w2. apply parentOf_appendChild, Hex1. }
  split; [| split; [| split]].
  - rewrite styleOf_setStyle_other by (right; discriminate). subst s3.
    rewrite styleOf_setStyle_other by (right; discriminate). subst s2.
    rewrite styleOf_setStyle_other by (right; discriminate). subst s1.
    apply styleOf_setStyle_same, Hex2.
  - rewrite styleOf_setStyle_other by (right; discriminate). subst s3.
    rewrite styleOf_setStyle_other by (right; discriminate). subst s2.
    apply styleOf_setStyle_same, Hs1.
  - rewrite styleOf_setStyle_other by (right; discriminate). subst s3.
    apply styleOf_setStyle_same, Hs2.
  - apply styleOf_setStyle_same, Hs3.
Qed.

Lemma sameLayout_parentOf w w' x :
  sameLayout w w' -> parentOf w' x = parentOf w x.
Proof. intros H. symmetry. apply parentOf_layout, H. Qed.

Lemma classesOf_styleWrites l w x :
  classesOf (styleWrites l w) x = classesOf w x.
Proof.
  unfold classesOf. rewrite dom_styleWrites.
  destruct (dom w !! x) as [e|]; reflexivity.
Qed.

Lemma is_Some_styleWrites l w x :
  is_Some (dom (styleWrites l w) !! x) <-> is_Some (dom w !! x).
Proof.
  rewrite dom_styleWrites.
  destruct (dom w !! x); simpl; split; intros [? ?]; eauto; discriminate.
Qed.

(** X16. The rotation menu opens under [document.body], pinned below the
    button, and every way of closing it docks it again: after the button
    is pressed on a docked-class menu the menu is active, a child of the
    body and carries the four positioning values; pressing the button
    again, a click outside, or the choice of any item then leaves it not
    active, a child of the video's container, without positioning values
    and with the classes it had before it was opened. *)
Theorem menu_opens_and_docks (w : World) (rw : RotationWidget)
    (btnBottom btnRight : Q) (closer : MenuCloser) :
  is_Some (dom w !! rw_menu rw) ->
  ("active"%string ∉ classesOf w (rw_menu rw)) ->
  let opened := toggleMenu rw btnBottom btnRight w in
  let closed := closeBy rw closer opened in
  (("active"%string ∈ classesOf opened (rw_menu rw))
   /\ parentOf opened (rw_menu rw) = Some (body w)
   /\ styleOf opened (rw_menu rw) !! "position"
      = Some (CssImportant (CssText "fixed"))
   /\ styleOf opened (rw_menu rw) !! "top"
      = Some (CssImportant (CssPx (btnBottom + 5)))
   /\ styleOf opened (rw_menu rw) !! "right"
      = Some (CssImportant (CssPx (inject_Z (innerWidth w) - btnRight)))
   /\ styleOf opened (rw_menu rw) !! "left"
      = Some (CssImportant (CssText "auto")))
  /\ menuDocked rw closed
  /\ classesOf closed (rw_menu rw) = classesOf w (rw_menu rw).
Proof.
  intros Hex Hcl. cbv zeta.
  destruct (toggleMenu_opens rw btnBottom btnRight w Hex Hcl)
    as (Oex & Obody & Ocls & Opar & O1 & O2 & O3 & O4).
  set (opened := toggleMenu rw btnBottom btnRight w) in *.
  assert (Hact : "active"%string ∈ classesOf opened (rw_menu rw))
    by (rewrite Ocls; apply elem_of_union_r, elem_of_singleton; reflexivity).
  split; [repeat split; assumption |].
  assert (Hclose : forall o,
            is_Some (dom o !! rw_menu rw) ->
            parentOf o (rw_menu rw) = Some (body o) ->
            classesOf o (rw_menu rw) = classesOf opened (rw_menu rw) ->
            menuDocked rw (closeMenu rw o)
            /\ classesOf (closeMenu rw o) (rw_menu rw) = classesOf w (rw_menu rw)).
  { intros o Ho Hp Hc.
    destruct (closeMenu_docks rw o Ho Hp) as [D C].
    split; [exact D |]. rewrite C, Hc, Ocls. apply add_remove_class, Hcl. }
  destruct closer as [b r | | video item]; simpl.
  - unfold toggleMenu. rewrite bool_decide_eq_true_2 by exact Hact.
    apply Hclose; [exact Oex | rewrite Obody; exact Opar | reflexivity].
  - rewrite bool_decide_eq_true_2 by exact Hact.
    apply Hclose; [exact Oex | rewrite Obody; exact Opar | reflexivity].
  - unfold handleItemAction. cbv zeta.
    match goal with
    | |- context [closeMenu rw (applyRotation ?v ?d ?o)] => set (st := o)
    end.
    rewrite applyRotation_writes.
    generalize (transformWrites st video (rotationOf st video)). intros l.
    assert (Hst : dom st = dom opened /\ body st = body opened).
    { subst st. destruct (item_isFlip item); split; reflexivity. }
    destruct Hst as [Hd Hb].
    apply Hclose.
    + apply is_Some_styleWrites. rewrite Hd. exact Oex.
    + rewrite (sameLayout_parentOf st _ _ (sameLayout_styleWrites l st)).
      rewrite styleWrites_domStep.
      change (body (upd_dom (fun _ => dom (styleWrites l st)) st)) with (body st).
      unfold parentOf. rewrite Hd, Hb, Obody. exact Opar.
    + rewrite classesOf_styleWrites. unfold classesOf. rewrite Hd. reflexivity.
Qed.

Lemma menu_opens_and_docks_witness :
  rotationWidgets Sample.started !! Sample.vid
  = Some (mkRotationWidget Sample.article 18%nat 19%nat)
  /\ menuDocked (mkRotationWidget Sample.article 18%nat 19%nat)
       (closeBy (mkRotationWidget Sample.article 18%nat 19%nat) ByOutsideClick
          (toggleMenu (mkRotationWidget Sample.article 18%nat 19%nat) 40 460
             Sample.started)).
Proof.
  split; [vm_compute; reflexivity |].
  destruct (menu_opens_and_docks Sample.started
              (mkRotationWidget Sample.article 18%nat 19%nat) 40 460 ByOutsideClick)
    as (_ & H & _).
  - vm_compute. eexists. reflexivity.
  - apply (bool_decide_eq_true_1
             ("active"%string ∉ classesOf Sample.started 19%nat)).
    vm_compute. reflexivity.
  - exact H.
Defined.

(* ===================================================================== *)
(** ** What the control bar shows                                         *)
(* ===================================================================== *)

Lemma contentOf_updElem_keep n f w x :
  (forall e, content (f e) = content e) ->
  contentOf (updElem n f w) x = contentOf w x.
Proof.
  intros Hf. unfold contentOf. rewrite dom_updElem.
  destruct (decide (n = x)); [| reflexivity].
  destruct (dom w !! x) as [el|]; simpl; [apply Hf | reflexivity].
Qed.

Lemma contentOf_setContent_same n s w :
  is_Some (dom w !! n) -> contentOf (setContent n s w) n = s.
Proof.
  intros [e He]. unfold contentOf, setContent.
  rewrite dom_updElem, decide_True by reflexivity. rewrite He. reflexivity.
Qed.

Lemma contentOf_setContent_other n s w x :
  n <> x -> contentOf (setContent n s w) x = contentOf w x.
Proof.
  intros Hne. unfold contentOf, setContent.
  rewrite dom_updElem, decide_False by exact Hne. reflexivity.
Qed.

Lemma percent_range (current d : Q) :
  (0 < d)%Q -> (0 <= current <= d)%Q ->
  (0 <= progressPercent current (Js.orElse (Fin d) (Fin 0)) <= 100)%Q.
Proof.
  intros Hd [H0 H1]. rewrite progressPercent_positive by exact Hd.
  split.
  - apply Qmult_le_0_compat; [| discriminate].
    apply Qle_shift_div_l; [exact Hd |]. rewrite Qmult_0_l. exact H0.
  - apply Qle_trans with (1 * 100)%Q; [| discriminate].
    apply Qmult_le_compat_r; [| discriminate].
    apply Qle_shift_div_r; [exact Hd |]. rewrite Qmult_1_l. exact H1.
Qed.

(** X17. After [updateTime] the bar shows the media state and the video
    is as it was: the readout is the formatted current time and duration,
    the progress fill is the percentage played (between 0 and 100 for a
    current time within a positive duration), the bar carries the class
    [paused] and the button the play icon exactly while the video is
    paused. *)
Theorem bar_shows_media_state (w : World) (video : NodeId) (bw : BarWidget)
    (m : Media) :
  mediaOf w video = Some m ->
  is_Some (dom w !! bw_timeDisplay bw) ->
  is_Some (dom w !! bw_progressFill bw) ->
  is_Some (dom w !! bw_playBtn bw) ->
  is_Some (dom w !! bw_bar bw) ->
  bw_playBtn bw <> bw_timeDisplay bw ->
  let w' := updateTime video bw w in
  contentOf w' (bw_timeDisplay bw)
  = String.append (formatTime (Fin (currentTime m)))
      (String.append " / " (formatTime (Js.orElse (duration m) (Fin 0))))
  /\ styleOf w' (bw_progressFill bw) !! "width"
     = Some (CssPercent
               (progressPercent (currentTime m) (Js.orElse (duration m) (Fin 0))))
  /\ (forall d, duration m = Fin d -> (0 < d)%Q -> (0 <= currentTime m <= d)%Q ->
      (0 <= progressPercent (currentTime m) (Js.orElse (duration m) (Fin 0))
       <= 100)%Q)
  /\ (("paused"%string ∈ classesOf w' (bw_bar bw)) <-> paused m = true)
  /\ contentOf w' (bw_playBtn bw) = (if paused m then svgPlay else svgPause)
  /\ forall x, mediaOf w' x = mediaOf w x.
Proof.
  intros Hm Ht Hf Hp Hb Hne. cbv zeta. unfold updateTime. rewrite Hm. cbv zeta.
  set (txt := String.append (formatTime (Fin (currentTime m)))
                (String.append " / " (formatTime (Js.orElse (duration m) (Fin 0))))).
  set (pc := progressPercent (currentTime m) (Js.orElse (duration m) (Fin 0))).
  set (w1 := setContent (bw_timeDisplay bw) txt w).
  set (w2 := setStyle (bw_progressFill bw) "width" (CssPercent pc) w1).
  assert (H1 : forall x, is_Some (dom w1 !! x) <-> is_Some (dom w !! x))
    by (intros x; apply is_Some_dom_updElem).
  assert (H2 : forall x, is_Some (dom w2 !! x) <-> is_Some (dom w !! x))
    by (intros x; subst w2; unfold setStyle; rewrite is_Some_dom_updElem; apply H1).
  assert (C2 : contentOf w2 (bw_timeDisplay bw) = txt).
  { subst w2. unfold setStyle. rewrite contentOf_updElem_keep by reflexivity.
    apply contentOf_setContent_same, Ht. }
  assert (S2 : styleOf w2 (bw_progressFill bw) !! "width" = Some (CssPercent pc)).
  { apply styleOf_setStyle_same, H1, Hf. }
  assert (M2 : forall x, mediaOf w2 x = mediaOf w x).
  { intros x. subst w2 w1. unfold setStyle, setContent.
    rewrite !mediaOf_updElem_keep by reflexivity. reflexivity. }
  assert (Hfinal : forall icon (g : gset string -> gset string),
            let w' := updElem (bw_bar bw) (upd_classList g)
                        (setContent (bw_playBtn bw) icon w2) in
            contentOf w' (bw_timeDisplay bw) = txt
            /\ styleOf w' (bw_progressFill bw) !! "width" = Some (CssPercent pc)
            /\ classesOf w' (bw_bar bw) = g (classesOf w2 (bw_bar bw))
            /\ contentOf w' (bw_playBtn bw) = icon
            /\ forall x, mediaOf w' x = mediaOf w x).
  { intros icon g. cbv zeta.
    rewrite !contentOf_updElem_keep by reflexivity.
    rewrite styleOf_updElem_keep by reflexivity.
    rewrite contentOf_setContent_other by exact Hne.
    rewrite contentOf_setContent_same by (apply H2, Hp).
    unfold setContent at 1. rewrite styleOf_updElem_keep by reflexivity.
    rewrite classesOf_updClass by (apply is_Some_dom_updElem, H2, Hb).
    unfold setContent at 1. rewrite classesOf_updElem_keep by reflexivity.
    repeat split; try assumption.
    intros x. unfold setContent. rewrite !mediaOf_updElem_keep by reflexivity.
    apply M2. }
  assert (Hpc : forall d, duration m = Fin d -> (0 < d)%Q ->
                  (0 <= currentTime m <= d)%Q -> (0 <= pc <= 100)%Q).
  { intros d Hd Hpos Hcur. subst pc. rewrite Hd. apply percent_range; assumption. }
  destruct (paused m) eqn:Hpa.
  - destruct (Hfinal svgPlay (fun c => c ∪ {["paused"%string]}))
      as (F1 & F2 & F3 & F4 & F5).
    unfold addClass.
    split; [exact F1 |]. split; [exact F2 |]. split; [exact Hpc |].
    split; [| split; [exact F4 | exact F5]].
    rewrite F3. split; [reflexivity |].
    intros _. apply elem_of_union_r, elem_of_singleton. reflexivity.
  - destruct (Hfinal svgPause (fun c => c ∖ {["paused"%string]}))
      as (F1 & F2 & F3 & F4 & F5).
    unfold removeClass.
    split; [exact F1 |]. split; [exact F2 |]. split; [exact Hpc |].
    split; [| split; [exact F4 | exact F5]].
    rewrite F3. split; [| discriminate].
    rewrite elem_of_difference, elem_of_singleton. intros [_ Hn].
    exfalso. apply Hn. reflexivity.
Qed.

Lemma bar_shows_media_state_witness :
  contentOf
    (updateTime Sample.vid (mkBarWidget 5%nat 6%nat 7%nat 10%nat 13%nat 16%nat)
       (updMedia Sample.vid (upd_currentTime (fun _ => 7531 # 100)) Sample.started))
    7%nat
  = "1:15 / 1:30"%string.
Proof.
  destruct (bar_shows_media_state
              (updMedia Sample.vid (upd_currentTime (fun _ => 7531 # 100)) Sample.started)
              Sample.vid (mkBarWidget 5%nat 6%nat 7%nat 10%nat 13%nat 16%nat)
              (upd_currentTime (fun _ => 7531 # 100)
                 (upd_controls (fun _ => false) Sample.videoMedia)))
    as (H & _).
  - vm_compute. reflexivity.
  - vm_compute. eexists. reflexivity.
  - vm_compute. eexists. reflexivity.
  - vm_compute. eexists. reflexivity.
  - vm_compute. eexists. reflexivity.
  - discriminate.
  - etransitivity; [exact H | vm_compute; reflexivity].
Defined.

Lemma trackPos_clamps clientX rectLeft rectWidth :
  (0 < rectWidth)%Q ->
  let pos := trackPos clientX rectLeft rectWidth in
  ((clientX <= rectLeft)%Q -> (pos == 0)%Q)
  /\ ((rectLeft + rectWidth <= clientX)%Q -> (pos == 1)%Q)
  /\ ((rectLeft <= clientX <= rectLeft + rectWidth)%Q ->
      (pos == (clientX - rectLeft) / rectWidth)%Q).
Proof.
  intros Hw. cbv zeta. unfold trackPos.
  set (q := ((clientX - rectLeft) / rectWidth)%Q).
  assert (Hlow : (clientX <= rectLeft)%Q -> (q <= 0)%Q).
  { intros H. subst q. apply Qle_shift_div_r; [exact Hw |].
    rewrite Qmult_0_l. lra. }
  assert (Hhigh : (rectLeft + rectWidth <= clientX)%Q -> (1 <= q)%Q).
  { intros H. subst q. apply Qle_shift_div_l; [exact Hw |].
    rewrite Qmult_1_l. lra. }
  assert (Hmid0 : (rectLeft <= clientX)%Q -> (0 <= q)%Q).
  { intros H. subst q. apply Qle_shift_div_l; [exact Hw |].
    rewrite Qmult_0_l. lra. }
  assert (Hmid1 : (clientX <= rectLeft + rectWidth)%Q -> (q <= 1)%Q).
  { intros H. subst q. apply Qle_shift_div_r; [exact Hw |].
    rewrite Qmult_1_l. lra. }
  split; [| split].
  - intros H. apply Hlow in H.
    apply Q.max_l. apply Qle_trans with q; [apply Q.le_min_r | exact H].
  - intros H. apply Hhigh in H.
    rewrite (Q.min_l 1 q) by exact H. apply Q.max_r. discriminate.
  - intros [Ha Hb]. apply Hmid0 in Ha. apply Hmid1 in Hb.
    rewrite (Q.min_r 1 q) by exact Hb. apply Q.max_r. exact Ha.
Qed.

(** X18. A click on the volume track, followed by the [volumechange]
    listener: the video is unmuted at the clamped pointer fraction (0 at or
    left of the track, 1 at or right of it, the fraction in between) and
    nothing else of it changes; the fill shows that fraction in percent
    and the button the volume icon, except that at fraction 0 the button
    shows the muted icon although the video is not muted. *)
Theorem volume_click_shown (w : World) (video : NodeId) (bw : BarWidget)
    (m : Media) (clientX rectLeft rectWidth : Q) :
  mediaOf w video = Some m ->
  barWidgets w !! video = Some bw ->
  is_Some (dom w !! bw_volumeFill bw) ->
  is_Some (dom w !! bw_volumeBtn bw) ->
  (0 < rectWidth)%Q ->
  let pos := trackPos clientX rectLeft rectWidth in
  let w' := onVolumeChange video
              (volumeTrackClick video clientX rectLeft rectWidth w) in
  mediaOf w' video
  = Some (upd_muted (fun _ => false) (upd_volume (fun _ => pos) m))
  /\ ((clientX <= rectLeft)%Q -> (pos == 0)%Q)
  /\ ((rectLeft + rectWidth <= clientX)%Q -> (pos == 1)%Q)
  /\ ((rectLeft <= clientX <= rectLeft + rectWidth)%Q ->
      (pos == (clientX - rectLeft) / rectWidth)%Q)
  /\ styleOf w' (bw_volumeFill bw) !! "width"
     = Some (CssPercent (if Qeq_bool pos 0 then 0 else pos * 100)%Q)
  /\ contentOf w' (bw_volumeBtn bw)
     = (if Qeq_bool pos 0 then svgMuted else svgVolume).
Proof.
  intros Hm Hbw Hfill Hbtn Hw. cbv zeta.
  set (pos := trackPos clientX rectLeft rectWidth).
  destruct (trackPos_clamps clientX rectLeft rectWidth Hw) as (K1 & K2 & K3).
  fold pos in K1, K2, K3.
  set (w1 := volumeTrackClick video clientX rectLeft rectWidth w).
  assert (E1 : w1 = updMedia video (upd_muted (fun _ => false))
                      (updMedia video (upd_volume (fun _ => pos))
                         (upd_intendedMuted (fun i => <[video := false]> i)
                            (upd_intendedVolume (fun i => <[video := pos]> i) w)))).
  { subst w1. unfold volumeTrackClick.
    rewrite trackPos_nonzero_width; [reflexivity |].
    intros E. rewrite E in Hw. discriminate. }
  assert (M1 : mediaOf w1 video
               = Some (upd_muted (fun _ => false) (upd_volume (fun _ => pos) m))).
  { rewrite E1, !mediaOf_updMedia, !decide_True by reflexivity.
    change (mediaOf (upd_intendedMuted _ (upd_intendedVolume _ w)) video)
      with (mediaOf w video).
    rewrite Hm. reflexivity. }
  assert (B1 : barWidgets w1 !! video = Some bw) by (rewrite E1; exact Hbw).
  assert (X1 : forall x, is_Some (dom w1 !! x) <-> is_Some (dom w !! x)).
  { intros x. rewrite E1. unfold updMedia. rewrite !is_Some_dom_updElem. reflexivity. }
  unfold onVolumeChange. rewrite B1. unfold updateVolumeUI. rewrite M1. cbv zeta.
  change (volume (upd_muted (fun _ => false) (upd_volume (fun _ => pos) m))) with pos.
  change (muted (upd_muted (fun _ => false) (upd_volume (fun _ => pos) m))) with false.
  cbn [orb].
  split; [| split; [exact K1 | split; [exact K2 | split; [exact K3 | split]]]].
  - unfold setContent, setStyle. rewrite !mediaOf_updElem_keep by reflexivity.
    exact M1.
  - unfold setContent. rewrite styleOf_updElem_keep by reflexivity.
    apply styleOf_setStyle_same, X1, Hfill.
  - apply contentOf_setContent_same. unfold setStyle.
    apply is_Some_dom_updElem, X1, Hbtn.
Qed.

Lemma volume_click_shown_witness :
  contentOf
    (onVolumeChange Sample.vid (volumeTrackClick Sample.vid 100 120 60 Sample.started))
    13%nat
  = svgMuted.
Proof.
  destruct (volume_click_shown Sample.started Sample.vid
              (mkBarWidget 5%nat 6%nat 7%nat 10%nat 13%nat 16%nat)
              (upd_controls (fun _ => false) Sample.videoMedia) 100 120 60)
    as (_ & _ & _ & _ & _ & H).
  - vm_compute. reflexivity.
  - vm_compute. reflexivity.
  - vm_compute. eexists. reflexivity.
  - vm_compute. eexists. reflexivity.
  - reflexivity.
  - etransitivity; [exact H | vm_compute; reflexivity].
Defined.

(* ===================================================================== *)
(** ** Discovery leaves playback and earlier registrations alone          *)
(* ===================================================================== *)

Lemma undisturbed_refl w : undisturbed w w.
Proof.
  split; [lia |]. split; [reflexivity |]. split; [| reflexivity].
  intros v Hv. split; [exact Hv | reflexivity].
Qed.

Lemma undisturbed_trans w1 w2 w3 :
  undisturbed w1 w2 -> undisturbed w2 w3 -> undisturbed w1 w3.
Proof.
  intros (N1 & P1 & R1 & F1) (N2 & P2 & R2 & F2).
  split; [lia |]. split; [| split].
  - intros x Hx. rewrite P2 by lia. apply P1, Hx.
  - intros v Hv. destruct (R1 v Hv) as [Hv2 E1]. destruct (R2 v Hv2) as [Hv3 E2].
    split; [exact Hv3 | congruence].
  - congruence.
Qed.

Lemma playbackOf_registered w video x :
  playbackOf (registered w video) x = playbackOf w x.
Proof.
  unfold playbackOf, registered. cbv zeta.
  rewrite mediaOf_updMedia.
  match goal with
  | |- context [mediaOf ?W x] =>
      assert (E : mediaOf W x = mediaOf w x)
        by (destruct (mediaOf (upd_rotationStates _ (upd_processedVideos _ w)) video);
            reflexivity);
      rewrite E
  end.
  destruct (decide (video = x)); [| reflexivity].
  destruct (mediaOf w x) as [m|]; reflexivity.
Qed.

Lemma undisturbed_enhanceVideo w video : undisturbed w (enhanceVideo w video).
Proof.
  destruct (enhanceVideo_cases3 w video) as [[-> _] | (_ & Hnew & _ & ->)];
    [apply undisturbed_refl |].
  destruct (builds_enhance w video) as (K & N & M).
  apply kept_fields in K. destruct K as (K1 & _ & K3 & K4 & _).
  destruct (kept_registered w video) as (R1 & R2 & R3 & _ & _ & R6).
  split; [lia |]. split; [| split].
  - intros x Hx. rewrite <- (playbackOf_registered w video x).
    unfold playbackOf. f_equal. apply mediaOf_slot, M. lia.
  - intros v Hv. rewrite K1, K3, R1, R2. split.
    + apply elem_of_union_l, Hv.
    + apply lookup_insert_ne. intros ->. contradiction.
  - rewrite K4, R3. reflexivity.
Qed.

Lemma undisturbed_enhanceAll (l : list NodeId) : forall w,
  undisturbed w (foldl enhanceVideo w l).
Proof.
  induction l as [| v l IH]; intros w; [apply undisturbed_refl |].
  simpl. eapply undisturbed_trans; [apply undisturbed_enhanceVideo | apply IH].
Qed.

Lemma undisturbed_onAddedNode w n : undisturbed w (onAddedNode w n).
Proof.
  unfold onAddedNode. cbv zeta.
  eapply undisturbed_trans; [| apply undisturbed_enhanceAll].
  destruct (elemMatches selVideo w n);
    [apply undisturbed_enhanceVideo | apply undisturbed_refl].
Qed.

Lemma undisturbed_onMutations l w : undisturbed w (onMutations l w).
Proof.
  unfold onMutations. destruct (observer w); [| apply undisturbed_refl].
  revert w. induction l as [| n l IH]; intros w; [apply undisturbed_refl |].
  simpl. eapply undisturbed_trans; [apply undisturbed_onAddedNode | apply IH].
Qed.

Lemma undisturbed_start f w :
  undisturbed w
    (upd_observer (fun _ => true)
       (processExistingVideos
          (addClass (documentElement (upd_isEnabled f w)) "insta-control-active"
             (upd_isEnabled f w)))).
Proof.
  set (w1 := addClass (documentElement (upd_isEnabled f w)) "insta-control-active"
               (upd_isEnabled f w)).
  assert (H1 : undisturbed w w1).
  { split; [reflexivity |]. split; [| split; [| reflexivity]].
    - intros x _. unfold playbackOf. f_equal. subst w1. unfold addClass.
      rewrite mediaOf_updElem_keep by reflexivity. reflexivity.
    - intros v Hv. split; [exact Hv | reflexivity]. }
  eapply undisturbed_trans; [exact H1 |].
  destruct (undisturbed_enhanceAll (documentQuerySelectorAll selVideo w1) w1)
    as (N & P & R & F).
  split; [exact N |]. split; [exact P |]. split; [exact R | exact F].
Qed.

(** X19. Discovery never disturbs what is there: the pass over the
    existing videos, a batch of added nodes, [init] and the switching on of
    the preference leave the playback state (all of the media state but
    the [controls] attribute) of every existing node as it was, keep every
    registered video registered with the angle it had, and keep the flip
    flags. *)
Theorem discovery_keeps_playback (w : World) (nodes : list NodeId)
    (stored : bool) :
  undisturbed w (processExistingVideos w)
  /\ undisturbed w (onMutations nodes w)
  /\ undisturbed w (init stored w)
  /\ undisturbed w (onEnabledChanged true w).
Proof.
  split; [apply undisturbed_enhanceAll |].
  split; [apply undisturbed_onMutations |].
  split.
  - unfold init. cbv zeta.
    change (isEnabled (upd_isEnabled (fun _ => stored) w)) with stored.
    destruct stored; simpl.
    + apply (undisturbed_start (fun _ => true)).
    + split; [reflexivity |]. split; [reflexivity |].
      split; [| reflexivity]. intros v Hv. split; [exact Hv | reflexivity].
  - unfold onEnabledChanged.
    destruct (eqb true (isEnabled w)); [apply undisturbed_refl |].
    apply (undisturbed_start (fun _ => true)).
Qed.
